(** * Visit scheduling and weighted clustering: a shallow embedding

    The development follows [app/scheduling.py], [app/routes.py],
    [app/clustering.py] and [app/evaluation.py].

    Conventions of the embedding.
    - A [datetime] is a number of minutes counted from 1900-01-01 00:00,
      the date [datetime.strptime(_, "%H:%M")] gives to a time of day.
    - An "HH:MM" string is held as the minute of the day it denotes, so a
      well-formed one lies in [0, 1440).  [strftime] keeps the time of day of
      a datetime and drops its date, which is a reduction modulo 1440.
    - Floating-point values (geodesic distances, priority scores) belong to an
      interface, [FloatOps]; the scheduler only compares them.  The centroid
      update is stated over exact rationals.
    - The functions are embedded twice.  The first embedding gives what a
      function returns when no exception is raised on the way.  The second,
      whose names end in [_exn], has the exceptions of [datetime.strptime], of
      [datetime + timedelta] and of [geodesic], and returns a [Result]; what
      it returns is what the first embedding gives (see [agrees]). *)

From Stdlib Require Import ZArith QArith Qminmax Lia Lqa Floats Uint63.
From stdpp Require Import base option list sets sorting strings.

Local Open Scope Z_scope.

(** ** Times of day *)

Definition datetime := Z.
Definition hhmm := Z.

Definition minutes_per_day : Z := 1440.

(** The datetime of a well-formed time of day, the time of day of a
    datetime, and the minutes of [timedelta(hours=h)].  [strptime] raises on
    a string that is no time of day, and the sum of a datetime and a
    timedelta raises when it leaves the years 1 to 9999: [strptime_exn] and
    [datetime_add] below have these exceptions. *)
Definition strptime (s : hhmm) : datetime := s.
Definition strftime (t : datetime) : hhmm := t mod minutes_per_day.
Definition timedelta_hours (h : Z) : Z := h * 60.

Definition valid_hhmm (s : hhmm) : Prop := 0 <= s < minutes_per_day.

(** ** External numeric interfaces *)

(** The operations on Python floats that the scheduler and the cluster search
    use.  [f_lt] is [<]; a literal is the quotient of two integers, which
    [f_lit] forms. *)
Class FloatOps := {
  float : Type;
  f_of_Z : Z → float;
  f_neg_inf : float;
  f_add : float → float → float;
  f_sub : float → float → float;
  f_mul : float → float → float;
  f_div : float → float → float;
  f_lt : float → float → bool
}.

Definition f_lit `{FloatOps} (num den : Z) : float := f_div (f_of_Z num) (f_of_Z den).

(** [max(a, b)] on two arguments: [b] replaces [a] only when [b > a]. *)
Definition f_max `{FloatOps} (a b : float) : float := if f_lt a b then b else a.

(** [geopy.distance.geodesic(a, b).kilometers] over coordinate values, for
    two points that geopy accepts; on others [geodesic] raises, which
    [geodesic_exn] below embeds. *)
Class Geodesy `{FloatOps} := {
  Coord : Type;
  Coord_eq_dec :: EqDecision Coord;
  geodesic_km : Coord → Coord → float
}.

(** ** Python list primitives *)

Section python_lists.
Context {A K : Type}.

(** [min(l, key=...)]: the first element whose key is minimal; the
    incumbent is replaced only by a strictly smaller key. *)
Fixpoint min_from (lt : K → K → bool) (key : A → K) (best : A) (l : list A) : A :=
  match l with
  | [] => best
  | x :: r => if lt (key x) (key best) then min_from lt key x r else min_from lt key best r
  end.

(** [l.remove(x)]: drops the first element equal to [x].  On a list without
    [x] Python raises; the scheduler only removes an element it has just
    taken from the list (see [min_from_elem]). *)
Fixpoint list_remove_first `{EqDecision A} (x : A) (l : list A) : list A :=
  match l with
  | [] => []
  | y :: r => if decide (y = x) then r else y :: list_remove_first x r
  end.
End python_lists.

(** ** Data model ([app/models.py] and the schedule dictionaries) *)

Section model.
Context `{Geodesy}.

Record Location := {
  name : string;
  coordinates : Coord;
  opening_hours : hhmm;
  closing_hours : hhmm;
  duration : Z
}.

#[global] Instance Location_eq_dec : EqDecision Location.
Proof. solve_decision. Defined.

Inductive Reason :=
| EarliestOpening
| Proximity (distance_to_last : float).

Inductive NextLeg :=
| KmToNext (distance_to_next : float)
| NotApplicable.

Record ScheduleEntry := {
  entry_name : string;
  entry_coordinates : Coord;
  start_time : hhmm;
  end_time : hhmm;
  reason : option Reason;
  proximity_to_next : option NextLeg
}.

Record GroupResult := {
  schedule : list ScheduleEntry;
  unvisitable : list Location
}.

Definition set_reason (r : Reason) (e : ScheduleEntry) : ScheduleEntry :=
  {| entry_name := entry_name e; entry_coordinates := entry_coordinates e;
     start_time := start_time e; end_time := end_time e;
     reason := Some r; proximity_to_next := proximity_to_next e |}.

Definition set_proximity (p : NextLeg) (e : ScheduleEntry) : ScheduleEntry :=
  {| entry_name := entry_name e; entry_coordinates := entry_coordinates e;
     start_time := start_time e; end_time := end_time e;
     reason := reason e; proximity_to_next := Some p |}.

(** *** [create_schedule_entry] *)
Definition create_schedule_entry (location : Location) (start_t end_t : datetime)
  : ScheduleEntry :=
  {| entry_name := name location; entry_coordinates := coordinates location;
     start_time := strftime start_t; end_time := strftime end_t;
     reason := None; proximity_to_next := None |}.

(** *** [schedule_single_location] *)

(** The [for i, event in enumerate(current_schedule)] loop; [events] is the
    part of [current_schedule] from index [i] on.  [Some e] is an early
    [return e], [None] is a loop that ran to its end. *)
Fixpoint scan_events (location : Location) (current_schedule : list ScheduleEntry)
    (start_t end_t : datetime) (i : nat) (events : list ScheduleEntry)
  : option ScheduleEntry :=
  match events with
  | [] => None
  | event :: rest =>
    let event_start := strptime (start_time event) in
    if bool_decide (i = 0%nat) && (end_t <=? event_start)
    then Some (create_schedule_entry location start_t end_t)
    else
      let continue := scan_events location current_schedule start_t end_t (S i) rest in
      if bool_decide (0 < i)%nat then
        match current_schedule !! (i - 1)%nat with
        | Some prev =>
          let prev_event_end := strptime (end_time prev) in
          if prev_event_end + timedelta_hours (duration location) <=? event_start
          then Some (create_schedule_entry location prev_event_end
                       (prev_event_end + timedelta_hours (duration location)))
          else continue
        | None => continue
        end
      else continue
  end.

Definition schedule_single_location (location : Location)
    (current_schedule : list ScheduleEntry) (daily_start daily_end : hhmm)
  : option ScheduleEntry :=
  let daily_start_time := strptime daily_start in
  let daily_end_time := strptime daily_end in
  let opening_time := strptime (opening_hours location) in
  let closing_time := strptime (closing_hours location) in
  let start_t := Z.max daily_start_time opening_time in
  let end_t := start_t + timedelta_hours (duration location) in
  if Z.min daily_end_time closing_time <? end_t then None
  else
    match scan_events location current_schedule start_t end_t 0 current_schedule with
    | Some e => Some e
    | None =>
      match last current_schedule with
      | Some last_event =>
        let last_event_end := strptime (end_time last_event) in
        if last_event_end + timedelta_hours (duration location)
             <=? Z.min daily_end_time closing_time
        then Some (create_schedule_entry location last_event_end
                     (last_event_end + timedelta_hours (duration location)))
        else None
      | None =>
        if end_t <=? Z.min daily_end_time closing_time
        then Some (create_schedule_entry location start_t end_t)
        else None
      end
    end.

(** *** [calculate_score] *)
Definition calculate_score (location : Location) (last_location : ScheduleEntry)
    (current_time : datetime) : float :=
  let proximity_score :=
    geodesic_km (entry_coordinates last_location) (coordinates location) in
  let closing_time := strptime (closing_hours location) in
  let time_flexibility :=
    f_max (f_div (f_of_Z ((closing_time - current_time) * 60)) (f_of_Z 3600)) (f_lit 1 10) in
  f_add proximity_score (f_div (f_of_Z 1) time_flexibility).

(** *** [schedule_cluster_with_priorities] *)

Record SchedState := {
  st_cluster : list Location;
  st_schedule : list ScheduleEntry;
  st_unvisitable : list Location;
  st_current_time : datetime
}.

(** The choice made at the head of the [while] body, on the non-empty
    candidate list [c :: cs]. *)
Definition select_next (st : SchedState) (c : Location) (cs : list Location)
  : Location * Reason :=
  match last (st_schedule st) with
  | None =>
    (min_from Z.ltb (λ x, strptime (opening_hours x)) c cs, EarliestOpening)
  | Some last_location =>
    let next_location :=
      min_from f_lt (λ loc, calculate_score loc last_location (st_current_time st)) c cs in
    (next_location,
     Proximity (geodesic_km (entry_coordinates last_location) (coordinates next_location)))
  end.

(** One pass through the [while cluster:] body. *)
Definition sched_body (daily_start daily_end : hhmm) (st : SchedState)
    (c : Location) (cs : list Location) : SchedState :=
  let '(next_location, why) := select_next st c cs in
  let cluster' := list_remove_first next_location (c :: cs) in
  match schedule_single_location next_location (st_schedule st) daily_start daily_end with
  | Some result =>
    {| st_cluster := cluster';
       st_schedule := st_schedule st ++ [set_reason why result];
       st_unvisitable := st_unvisitable st;
       st_current_time := strptime (end_time result) |}
  | None =>
    {| st_cluster := cluster';
       st_schedule := st_schedule st;
       st_unvisitable := st_unvisitable st ++ [next_location];
       st_current_time := st_current_time st |}
  end.

(** The [while] loop, with a bound on the number of passes. *)
Fixpoint sched_loop (fuel : nat) (daily_start daily_end : hhmm) (st : SchedState)
  : SchedState :=
  match fuel with
  | O => st
  | S fuel' =>
    match st_cluster st with
    | [] => st
    | c :: cs => sched_loop fuel' daily_start daily_end (sched_body daily_start daily_end st c cs)
    end
  end.

(** The closing annotation: every entry but the last gets the distance to
    its successor, the last one "N/A". *)
Fixpoint annotate_proximity (l : list ScheduleEntry) : list ScheduleEntry :=
  match l with
  | [] => []
  | [e] => [set_proximity NotApplicable e]
  | e :: (e' :: _) as r =>
    set_proximity (KmToNext (geodesic_km (entry_coordinates e) (entry_coordinates e'))) e
      :: annotate_proximity r
  end.

Definition sched_init (cluster : list Location) (daily_start : hhmm) : SchedState :=
  {| st_cluster := cluster; st_schedule := []; st_unvisitable := [];
     st_current_time := strptime daily_start |}.

(** The state the loop of [schedule_cluster_with_priorities] ends in; each
    pass removes one candidate, so [length cluster] passes are granted
    (see [sched_loop_consumes] and [sched_loop_fuel_irrelevant]). *)
Definition sched_run (cluster : list Location) (daily_start daily_end : hhmm)
  : SchedState :=
  sched_loop (length cluster) daily_start daily_end (sched_init cluster daily_start).

Definition schedule_cluster_with_priorities (cluster : list Location)
    (daily_start daily_end : hhmm) : GroupResult :=
  let st := sched_run cluster daily_start daily_end in
  {| schedule := annotate_proximity (st_schedule st);
     unvisitable := st_unvisitable st |}.
End model.

(** ** Searching and rescuing schedules ([app/scheduling.py], continued) *)

Section search.
Context `{Geodesy}.

(** *** [iterative_schedule_cluster] *)

Definition attempt_score (result : GroupResult) : Z :=
  Z.of_nat (length (unvisitable result)) * 1000 - Z.of_nat (length (schedule result)).

(** [score < best_score]; the incumbent [None] stands for the initial
    [best_score = float("inf")], below which every score lies. *)
Definition improves (score : Z) (best : option (Z * GroupResult)) : bool :=
  match best with
  | None => true
  | Some (best_score, _) => score <? best_score
  end.

(** The [for _ in range(max_iterations)] loop.  [attempt i] is what the
    call of the group scheduler returns in pass [i]; [remaining] passes are
    left. *)
Fixpoint search_loop (attempt : nat → GroupResult) (i remaining : nat)
    (best : option (Z * GroupResult)) : option (Z * GroupResult) :=
  match remaining with
  | O => best
  | S remaining' =>
    let result := attempt i in
    let unvisitable_count := length (unvisitable result) in
    let score := attempt_score result in
    let best' := if improves score best then Some (score, result) else best in
    if bool_decide (unvisitable_count = 0%nat) then best'
    else search_loop attempt (S i) remaining' best'
  end.

(** The search over a sequence of attempts.  [None] is the dictionary whose
    two fields are still [None], returned when no pass ran. *)
Definition iterative_search (attempt : nat → GroupResult) (max_iterations : nat)
  : option GroupResult :=
  snd <$> search_loop attempt 0 max_iterations None.

(** The number of passes the loop makes: it leaves at the first attempt
    without unvisitable location, or after [remaining] passes. *)
Fixpoint passes_run (attempt : nat → GroupResult) (i remaining : nat) : nat :=
  match remaining with
  | O => O
  | S remaining' =>
    if bool_decide (length (unvisitable (attempt i)) = 0%nat) then 1%nat
    else S (passes_run attempt (S i) remaining')
  end.

(** Every pass schedules [cluster[:]], a fresh copy of the caller's list;
    the scheduler empties the copy and the caller's list is the same in
    every pass. *)
Definition slice_copy (cluster : list Location) : list Location := cluster.

Definition default_max_iterations : nat := 20.

Definition iterative_schedule_cluster (cluster : list Location)
    (daily_start daily_end : hhmm) (max_iterations : nat) : option GroupResult :=
  iterative_search
    (λ _, schedule_cluster_with_priorities (slice_copy cluster) daily_start daily_end)
    max_iterations.

(** *** [parallel_schedule_clusters]

    The dictionary of clusters is a list of (id, value) pairs in insertion
    order.  Each task works on its own cluster, so the pool computes the
    image of every cluster. *)
Definition parallel_schedule_clusters (clusters : list (nat * list Location))
    (daily_start daily_end : hhmm) : list (nat * option GroupResult) :=
  (λ '(cluster_id, cluster_locations),
     (cluster_id,
      iterative_schedule_cluster cluster_locations daily_start daily_end
        default_max_iterations)) <$> clusters.

(** *** [list.sort(key=lambda x: x["start_time"])]

    The sort is stable.  The keys are zero-padded "HH:MM" strings, whose
    order is the order of the minutes they denote. *)
Fixpoint insert_by_start (x : ScheduleEntry) (l : list ScheduleEntry)
  : list ScheduleEntry :=
  match l with
  | [] => [x]
  | y :: r =>
    if start_time y <=? start_time x then y :: insert_by_start x r else x :: y :: r
  end.

Definition sort_by_start_time (l : list ScheduleEntry) : list ScheduleEntry :=
  fold_left (λ acc x, insert_by_start x acc) l [].

(** *** [handle_unvisitable] *)

(** The inner loop over [clusters.items()]: [Some] is the dictionary after
    the first cluster that takes [location], [None] means [fit] stayed
    [False]. *)
Fixpoint try_clusters (location : Location) (clusters : list (nat * GroupResult))
    (daily_start daily_end : hhmm) : option (list (nat * GroupResult)) :=
  match clusters with
  | [] => None
  | (cluster_id, cluster_schedule) :: rest =>
    match schedule_single_location location (schedule cluster_schedule)
            daily_start daily_end with
    | Some result =>
      Some ((cluster_id,
             {| schedule := sort_by_start_time (schedule cluster_schedule ++ [result]);
                unvisitable := unvisitable cluster_schedule |}) :: rest)
    | None =>
      ((cluster_id, cluster_schedule) ::.) <$>
        try_clusters location rest daily_start daily_end
    end
  end.

Fixpoint rescue_loop (locations : list Location) (clusters : list (nat * GroupResult))
    (new_unvisitable : list Location) (daily_start daily_end : hhmm)
  : list (nat * GroupResult) * list Location :=
  match locations with
  | [] => (clusters, new_unvisitable)
  | location :: rest =>
    match try_clusters location clusters daily_start daily_end with
    | Some clusters' => rescue_loop rest clusters' new_unvisitable daily_start daily_end
    | None =>
      rescue_loop rest clusters (new_unvisitable ++ [location]) daily_start daily_end
    end
  end.

Definition handle_unvisitable (locations : list Location)
    (clusters : list (nat * GroupResult)) (daily_start daily_end : hhmm)
  : list (nat * GroupResult) * list Location :=
  rescue_loop locations clusters [] daily_start daily_end.

(** *** The scheduling stage of [cluster_data] ([app/routes.py])

    [None] is the failure of reading the fields of a search that made no
    pass; with [default_max_iterations] passes it does not occur
    (see [schedule_stage_total]). *)
Definition schedule_stage (best_clusters : list (nat * list Location))
    (daily_start daily_end : hhmm)
  : option (list (nat * GroupResult) * list Location) :=
  grouped_clusters ←
    mapM (λ '(cluster_id, r), (cluster_id,.) <$> r)
      (parallel_schedule_clusters best_clusters daily_start daily_end);
  let unvisitable_locations :=
    concat ((λ '(_, cluster), unvisitable cluster) <$> grouped_clusters) in
  Some (handle_unvisitable unvisitable_locations grouped_clusters daily_start daily_end).
End search.

(** ** The placement policy as the specification words it *)

Section placement_policy.
Context `{Geodesy}.


Definition gap_fits (span : Z) (gap : Z * Z) : Prop := gap.1 + span <= gap.2.

#[global] Instance gap_fits_dec span gap : Decision (gap_fits span gap).
Proof. unfold gap_fits. apply _. Defined.

End placement_policy.

(** ** The request handler ([app/routes.py]) *)

Section routes.
Context `{Geodesy}.

Record ClusteringInput := {
  points : list Location;
  num_clusters : Z;
  daily_start_time : hhmm;
  daily_end_time : hhmm
}.

Inductive HTTPException := HTTP400 (detail : string).

(** A Python dictionary keyed by name, in insertion order: setting a key
    that is present replaces its value where it stands. *)
Fixpoint dict_set (k : string) (v : Location) (d : list (string * Location))
  : list (string * Location) :=
  match d with
  | [] => [(k, v)]
  | (k', v') :: r => if decide (k' = k) then (k, v) :: r else (k', v') :: dict_set k v r
  end.

Fixpoint dict_get (k : string) (d : list (string * Location)) : option Location :=
  match d with
  | [] => None
  | (k', v) :: r => if decide (k' = k) then Some v else dict_get k r
  end.

(** [{loc.name: loc for loc in data.points}] *)
Definition locations_of (pts : list Location) : list (string * Location) :=
  fold_left (λ d loc, dict_set (name loc) loc d) pts [].

(** One restart of the clusterer with its two metrics, as
    [cluster_and_evaluate] returns it. *)
Record ClusterRun := {
  run_centroids : list (list float);
  run_labels : list nat;
  run_silhouette : float;
  run_balance : float
}.

(** The loop [for name, cluster_id in zip(locations.keys(), labels)] over the
    dictionary [{i: [] for i in range(num_clusters)}], held as the list of
    its values by key.  A label that is no key raises, which is [None]. *)
Fixpoint fill_clusters (locations : list (string * Location))
    (pairs : list (string * nat)) (best_clusters : list (list Location))
  : option (list (list Location)) :=
  match pairs with
  | [] => Some best_clusters
  | (nm, cluster_id) :: rest =>
    loc ← dict_get nm locations;
    members ← best_clusters !! cluster_id;
    fill_clusters locations rest (<[cluster_id := members ++ [loc]]> best_clusters)
  end.

Definition group_by_labels (locations : list (string * Location)) (labels : list nat)
    (k : nat) : option (list (list Location)) :=
  fill_clusters locations (zip (locations.*1) labels) (replicate k []).

Definition composite_score (run : ClusterRun) : float :=
  f_add (f_mul (f_lit 7 10) (run_silhouette run))
        (f_mul (f_lit 3 10) (f_sub (f_of_Z 1) (run_balance run))).

(** The selection loop of [parallel_find_best_clusters].  The outer [None]
    is an exception, the inner one the initial [best_clusters = None]. *)
Fixpoint select_best (locations : list (string * Location)) (k : nat)
    (results : list ClusterRun) (best_composite_score : float)
    (best : option (list (list Location) * ClusterRun))
  : option (option (list (list Location) * ClusterRun)) :=
  match results with
  | [] => Some best
  | run :: rest =>
    if f_lt best_composite_score (composite_score run) then
      clusters ← group_by_labels locations (run_labels run) k;
      select_best locations k rest (composite_score run) (Some (clusters, run))
    else select_best locations k rest best_composite_score best
  end.

(** [results] is what the pool returns for the restarts, in submission
    order. *)
Definition parallel_find_best_clusters (locations : list (string * Location))
    (k : nat) (results : list ClusterRun)
  : option (option (list (list Location) * ClusterRun)) :=
  select_best locations k results f_neg_inf None.

Inductive Outcome :=
| Rejected (e : HTTPException)
| Crashed
| Responded (grouped_clusters : list (nat * GroupResult))
            (final_unvisitable : list Location).

(** The cluster dictionary of one group, [{0: list(locations.values())}]. *)
Definition single_cluster (locations : list (string * Location))
  : list (list Location) := [locations.*2].

Definition with_ids (clusters : list (list Location)) : list (nat * list Location) :=
  imap (λ i members, (i, members)) clusters.

(** [cluster_data]; [results] stands for the restarts the clusterer would
    produce for this request. *)
Definition cluster_data (results : list ClusterRun) (data : ClusteringInput) : Outcome :=
  let locations := locations_of (points data) in
  if num_clusters data <? 1
  then Rejected (HTTP400 "Number of clusters must be at least 1")
  else if Z.of_nat (length (points data)) <? num_clusters data
  then Rejected (HTTP400 "Number of clusters cannot exceed number of points")
  else
    let best_clusters :=
      if num_clusters data =? 1 then Some (single_cluster locations)
      else
        match parallel_find_best_clusters locations (Z.to_nat (num_clusters data)) results with
        | Some (Some (clusters, _)) => Some clusters
        | _ => None
        end in
    match best_clusters with
    | None => Crashed
    | Some clusters =>
      match schedule_stage (with_ids clusters) (daily_start_time data) (daily_end_time data) with
      | Some (grouped_clusters, final_unvisitable) =>
        Responded grouped_clusters final_unvisitable
      | None => Crashed
      end
    end.

(** The configuration errors as the specification lists them. *)
Definition distinct_points (pts : list Location) : nat :=
  length (remove_dups (coordinates <$> pts)).

Definition invalid_configuration (data : ClusteringInput) : Prop :=
  num_clusters data < 1
  ∨ num_clusters data > Z.of_nat (length (points data))
  ∨ Z.of_nat (distinct_points (points data)) < num_clusters data.
End routes.

(** ** The weighted clusterer ([app/clustering.py])

    Points and centroids are vectors of rationals.  [norm] is [tf.norm], the
    Euclidean length.  A quotient whose divisor is zero has no rational
    value: it is [None], and so is a call that raises.

    [app/improveclustering.py] moves the centroid update of
    [app/clustering.py] into a function traced by [tf.function]; the
    application does not import that module, and its tracing is not embedded
    here. *)

Section clustering.
Local Open Scope Q_scope.
Variable norm : list Q → Q.

Definition vsub (p c : list Q) : list Q := zip_with Qminus p c.
Definition vadd (p c : list Q) : list Q := zip_with Qplus p c.
Definition vscale (w : Q) (p : list Q) : list Q := Qmult w <$> p.

(** [tf.reduce_sum(rows, axis=0)] on at least one row. *)
Definition sum_rows (rows : list (list Q)) : list Q :=
  match rows with
  | [] => []
  | r :: rs => fold_left vadd rs r
  end.

Definition sum_weights (ws : list Q) : Q := fold_right Qplus 0 ws.

Definition checked_div (x y : Q) : option Q :=
  if Qeq_bool y 0 then None else Some (x / y).

(** The soft-penalty weight of a point at [distance] from its centroid. *)
Definition penalty_weight (penalty_threshold penalty_factor distance : Q) : Q :=
  Qmax (1 - penalty_factor * Qmax (distance - penalty_threshold) 0) (1 # 100).

(** [tf.gather(data, tf.where(cluster_assignments == c)[:, 0])] *)
Definition cluster_members (data : list (list Q)) (cluster_assignments : list nat)
    (c : nat) : list (list Q) :=
  (filter (λ pl, pl.2 = c) (zip data cluster_assignments)).*1.

Definition cluster_weights (penalty_threshold penalty_factor : Q)
    (cluster_points : list (list Q)) (centroid : list Q) : list Q :=
  (λ p, penalty_weight penalty_threshold penalty_factor (norm (vsub p centroid)))
    <$> cluster_points.

(** The body of the loop over [c]: the new centroid of cluster [c]. *)
Definition new_centroid (data : list (list Q)) (cluster_assignments : list nat)
    (penalty_threshold penalty_factor : Q) (c : nat) (centroid : list Q)
  : option (list Q) :=
  let cluster_points := cluster_members data cluster_assignments c in
  match cluster_points with
  | [] => Some centroid
  | _ =>
    let weights := cluster_weights penalty_threshold penalty_factor cluster_points centroid in
    let weighted_sum := sum_rows (zip_with vscale weights cluster_points) in
    let weight_sum := sum_weights weights in
    mapM (λ x, checked_div x weight_sum) weighted_sum
  end.

(** *** The centroid update

    The loop [for c in range(num_clusters)] of [tensorflow_kmeans] in
    [app/clustering.py] (lines 35 to 53), which fills [new_centroids]; it
    goes by the name its body has in [app/improveclustering.py]. *)
Definition compute_new_centroids (data : list (list Q)) (cluster_assignments : list nat)
    (centroids : list (list Q)) (penalty_threshold penalty_factor : Q)
  : option (list (list Q)) :=
  mapM (λ '(c, centroid),
          new_centroid data cluster_assignments penalty_threshold penalty_factor c centroid)
       (imap (λ c centroid, (c, centroid)) centroids).

(** [tf.argmin] on a row with at least one value: the index of the first
    least value. *)
Fixpoint argmin_from (best_i : nat) (best : Q) (i : nat) (l : list Q) : nat :=
  match l with
  | [] => best_i
  | x :: r =>
    if Qlt_le_dec x best then argmin_from i x (S i) r
    else argmin_from best_i best (S i) r
  end.

Definition argmin (l : list Q) : nat :=
  match l with
  | [] => O
  | x :: r => argmin_from 0 x 1 r
  end.

(** [tf.argmin(distances, axis=1)]; without a centroid the rows of
    [distances] are empty, and [tf.argmin] raises. *)
Definition assign_clusters (data centroids : list (list Q)) : option (list nat) :=
  match centroids with
  | [] => None
  | _ => Some ((λ p, argmin ((λ c, norm (vsub p c)) <$> centroids)) <$> data)
  end.

(** [tf.slice(rows, [0, 0], [n, -1])]: the first [n] rows; it raises when
    there are fewer. *)
Definition tf_slice_rows (rows : list (list Q)) (n : nat) : option (list (list Q)) :=
  if decide (n ≤ length rows)%nat then Some (take n rows) else None.

(** The loop of [tensorflow_kmeans]; [last_assignments] is [None] until a
    pass has bound [cluster_assignments]. *)
Fixpoint kmeans_loop (num_iterations : nat) (data centroids : list (list Q))
    (last_assignments : option (list nat)) (penalty_threshold penalty_factor : Q)
  : option (list (list Q) * option (list nat)) :=
  match num_iterations with
  | O => Some (centroids, last_assignments)
  | S n =>
    cluster_assignments ← assign_clusters data centroids;
    centroids' ← compute_new_centroids data cluster_assignments centroids
                   penalty_threshold penalty_factor;
    kmeans_loop n data centroids' (Some cluster_assignments)
      penalty_threshold penalty_factor
  end.

(** [tensorflow_kmeans]; [shuffled] is the outcome of
    [tf.random.shuffle(data)].  After a loop without a pass the name
    [cluster_assignments] is unbound, and the [return] raises. *)
Definition tensorflow_kmeans (data shuffled : list (list Q)) (num_clusters : nat)
    (num_iterations : nat) (penalty_threshold penalty_factor : Q)
  : option (list (list Q) * list nat) :=
  initial_centroids ← tf_slice_rows shuffled num_clusters;
  '(centroids, last) ← kmeans_loop num_iterations data initial_centroids
                          None penalty_threshold penalty_factor;
  cluster_assignments ← last;
  Some (centroids, cluster_assignments).
End clustering.

(** ** Cluster sizes ([app/evaluation.py], [app/routes.py]) *)

Section cluster_sizes.
Local Open Scope Q_scope.

(** [Counter(labels)]: a dictionary from label to number of occurrences, its
    keys in the order of their first occurrence. *)
Fixpoint counter_add (x : nat) (d : list (nat * nat)) : list (nat * nat) :=
  match d with
  | [] => [(x, 1%nat)]
  | (k, n) :: r => if decide (k = x) then (k, S n) :: r else (k, n) :: counter_add x r
  end.

Definition Counter (labels : list nat) : list (nat * nat) :=
  fold_left (λ d x, counter_add x d) labels [].

(** *** [check_cluster_balance] *)
Definition check_cluster_balance (labels : list nat) (max_locations_per_day : nat)
  : list (nat * nat) * list nat :=
  let cluster_counts := Counter labels in
  let overloaded_clusters :=
    (filter (λ ic : nat * nat, (max_locations_per_day < ic.2)%nat) cluster_counts).*1 in
  (cluster_counts, overloaded_clusters).

(** [[np.sum(labels == i) for i in range(num_clusters)]] *)
Definition cluster_counts (labels : list nat) (num_clusters : nat) : list nat :=
  (λ i, length (filter (λ l, l = i) labels)) <$> seq 0 num_clusters.

(** [np.mean] and [np.var] (the population variance) over rationals; on an
    empty list they have no rational value. *)
Definition np_sum (xs : list Q) : Q := fold_right Qplus 0 xs.

Definition np_mean (xs : list Q) : option Q :=
  checked_div (np_sum xs) (inject_Z (Z.of_nat (length xs))).

Definition np_var (xs : list Q) : option Q :=
  m ← np_mean xs; np_mean ((λ x, (x - m) * (x - m)) <$> xs).

(** *** [compute_cluster_balance_score] *)
Definition compute_cluster_balance_score (labels : list nat) (num_clusters : nat)
  : option Q :=
  let counts := (λ n, inject_Z (Z.of_nat n)) <$> cluster_counts labels num_clusters in
  variance ← np_var counts;
  mean ← np_mean counts;
  checked_div variance mean.
End cluster_sizes.

(** ** Notions used by the statements and their proofs *)

Section notions.
Context `{Geodesy}.

(** The scan for a gap written by recursion on the entries that follow an
    entry ending at [prev_end]; it yields the start of the placement. *)
Fixpoint first_gap (span prev_end : Z) (rest : list ScheduleEntry) : option Z :=
  match rest with
  | [] => None
  | e :: r =>
    if prev_end + span <=? start_time e then Some prev_end
    else first_gap span (end_time e) r
  end.

(** An entry made for a location carries its name and coordinates. *)
Definition entry_of (loc : Location) (e : ScheduleEntry) : Prop :=
  entry_name e = name loc ∧ entry_coordinates e = coordinates loc.

(** Two entries for the same visit: they may differ in their annotations. *)
Definition same_visit (a b : ScheduleEntry) : Prop :=
  entry_name a = entry_name b ∧ entry_coordinates a = entry_coordinates b
  ∧ start_time a = start_time b ∧ end_time a = end_time b.

Definition valid_location (loc : Location) : Prop :=
  valid_hhmm (opening_hours loc) ∧ valid_hhmm (closing_hours loc).

(** A visit of positive length inside one day. *)
Definition valid_entry (e : ScheduleEntry) : Prop :=
  0 <= start_time e ∧ start_time e < end_time e ∧ end_time e < minutes_per_day.

Definition before (a b : ScheduleEntry) : Prop := end_time a <= start_time b.
Definition meets (a b : ScheduleEntry) : Prop := end_time a = start_time b.

(** A chain of visits of positive length, each over before the next. *)
Definition timetable (entries : list ScheduleEntry) : Prop :=
  Forall valid_entry entries ∧ StronglySorted before entries.

(** A chain without idle time: each visit starts when the previous ends. *)
Definition tight (entries : list ScheduleEntry) : Prop :=
  Forall valid_entry entries ∧ Sorted meets entries.

(** Sorted ascending by start time, and no entry runs into its successor. *)
Definition schedule_ordered (entries : list ScheduleEntry) : Prop :=
  ∀ (i : nat) (a b : ScheduleEntry),
    entries !! i = Some a → entries !! S i = Some b →
    start_time a <= start_time b ∧ end_time a <= start_time b.

(** The groups split the input: together they hold the input locations, and
    each input location lies in exactly one of them. *)
Definition partition_of (pts : list Location) (clusters : list (list Location)) : Prop :=
  concat clusters ≡ₚ pts
  ∧ ∀ loc, loc ∈ pts →
      ∃ i, (∃ g, clusters !! i = Some g ∧ loc ∈ g)
           ∧ ∀ j g, clusters !! j = Some g → loc ∈ g → j = i.

Definition total_scheduled (clusters : list (nat * GroupResult)) : nat :=
  sum_list_with (λ c, length (schedule c.2)) clusters.

(** The four positions of a placement. *)
Inductive Position (location : Location) (daily_start daily_end : hhmm)
    (s : list ScheduleEntry) (e : ScheduleEntry) : Prop :=
| AloneInDay :
    s = [] →
    start_time e = Z.max daily_start (opening_hours location) →
    end_time e <= Z.min daily_end (closing_hours location) →
    Position location daily_start daily_end s e
| BeforeFirst first rest :
    s = first :: rest →
    start_time e = Z.max daily_start (opening_hours location) →
    end_time e <= start_time first →
    end_time e <= Z.min daily_end (closing_hours location) →
    Position location daily_start daily_end s e
| InGap s1 q x s2 :
    s = s1 ++ q :: x :: s2 →
    start_time e = end_time q → end_time e <= start_time x →
    Position location daily_start daily_end s e
| AfterLast s1 q :
    s = s1 ++ [q] →
    start_time e = end_time q →
    end_time e <= Z.min daily_end (closing_hours location) →
    Position location daily_start daily_end s e.

(** The entry of a location lies in the daily window and ends by the
    closing time of the location. *)
Definition within_day_and_closing (daily_start daily_end : hhmm)
    (loc : Location) (e : ScheduleEntry) : Prop :=
  entry_of loc e
  ∧ end_time e = start_time e + timedelta_hours (duration loc)
  ∧ daily_start <= start_time e
  ∧ end_time e <= Z.min daily_end (closing_hours loc).

(** A location with well-formed hours whose visit takes a positive time. *)
Definition plannable (loc : Location) : Prop :=
  valid_location loc ∧ 0 < duration loc.

(** The candidates of the input are split between the schedule and the
    unvisitable list: [placed] lists the scheduled locations, entry by
    entry. *)
Definition accounts_for (cluster : list Location) (st : SchedState) : Prop :=
  ∃ placed, Forall2 entry_of placed (st_schedule st)
            ∧ placed ++ st_unvisitable st ++ st_cluster st ≡ₚ cluster.

(** The invariant of the [while] loop: the schedule is tight, it starts no
    later than any candidate left could start, and the candidates left are
    plannable. *)
Definition steady (daily_start : hhmm) (st : SchedState) : Prop :=
  tight (st_schedule st)
  ∧ Forall plannable (st_cluster st)
  ∧ ∀ first c, head (st_schedule st) = Some first → c ∈ st_cluster st →
               start_time first <= Z.max daily_start (opening_hours c).

(** A group after the pass: same id, and every entry it had is still there. *)
Definition grown (a b : nat * GroupResult) : Prop :=
  a.1 = b.1 ∧ schedule a.2 ⊆+ schedule b.2.

(** Every group's schedule is a timetable. *)
Definition all_timetables (clusters : list (nat * GroupResult)) : Prop :=
  Forall (λ c, timetable (schedule c.2)) clusters.

(** The first test of the placement procedure fails for the location: its
    visit, started as early as the day and the location allow, would end after
    the day or the location closes. *)
Definition infeasible (daily_start daily_end : hhmm) (loc : Location) : Prop :=
  Z.min daily_end (closing_hours loc)
  < Z.max daily_start (opening_hours loc) + timedelta_hours (duration loc).

Definition starts_no_later (a b : ScheduleEntry) : Prop := start_time a <= start_time b.

(** A group as the rescue pass may leave it: its id and its own unvisitable
    list are kept, and its schedule is either untouched or sorted by start
    time. *)
Definition rescued (a b : nat * GroupResult) : Prop :=
  a.1 = b.1 ∧ unvisitable a.2 = unvisitable b.2
  ∧ (schedule b.2 = schedule a.2 ∨ Sorted starts_no_later (schedule b.2)).

Definition total_locations (clusters : list (nat * list Location)) : nat :=
  sum_list_with (λ c, length c.2) clusters.
End notions.

(** The number kept for a label by a counter, 0 for a label without entry. *)
Fixpoint counter_get (x : nat) (d : list (nat * nat)) : nat :=
  match d with
  | [] => 0%nat
  | (k, n) :: r => if decide (k = x) then n else counter_get x r
  end.

Definition occurrences (x : nat) (labels : list nat) : nat :=
  length (filter (λ l, l = x) labels).

(** The sizes of the clusters as the numbers [np.mean] and [np.var] take. *)
Definition count_values (counts : list nat) : list Q :=
  (λ n, inject_Z (Z.of_nat n)) <$> counts.

(** A counter has one entry per key, each with a positive count. *)
Definition counter_wf (d : list (nat * nat)) : Prop :=
  NoDup d.*1 ∧ Forall (λ p, (0 < p.2)%nat) d.

(** ** Exceptions ([app/scheduling.py], [app/routes.py])

    The definitions of the sections above give what each function returns
    when no exception is raised on the way.  Three library calls of
    [app/scheduling.py] can raise:
    - [datetime.strptime(s, "%H:%M")] raises [ValueError] on a string that is
      no time of day (the time fields are strings here; a null is not
      embedded);
    - [datetime + timedelta] raises [OverflowError] when the sum is no date
      of the years 1 to 9999 (and so does [timedelta(hours=h)] on an [h] it
      cannot hold, which is then out of this range too);
    - [geodesic(a, b)] builds a [geopy.Point] from each argument and raises
      [ValueError] when it cannot, as for a latitude outside [-90, 90].
    Nothing in the application catches them: an exception ends the function
    that meets it and every caller.  This part embeds the functions again,
    with these exceptions; [agrees] links the two embeddings. *)

Inductive Exception := ValueError | OverflowError | TypeError.

Inductive Result (A : Type) : Type :=
| Returned (a : A)
| Raised (e : Exception).

Arguments Returned {A} a.
Arguments Raised {A} e.

#[export] Instance Result_ret : MRet Result := λ A a, Returned a.

#[export] Instance Result_bind : MBind Result :=
  λ A B f m, match m with Returned a => f a | Raised e => Raised e end.

(** Whatever the computation returns is the value [a]. *)
Definition agrees {A : Type} (m : Result A) (a : A) : Prop :=
  ∀ r, m = Returned r → r = a.

(** *** Times and dates *)

#[export] Instance valid_hhmm_dec (s : hhmm) : Decision (valid_hhmm s).
Proof. unfold valid_hhmm. apply _. Defined.

(** 0001-01-01 00:00 and 9999-12-31 23:59, in minutes from 1900-01-01 00:00:
    693595 days before and 2958463 days, 23 hours and 59 minutes after. *)
Definition datetime_min : datetime := - (693595 * minutes_per_day).
Definition datetime_max : datetime := 2958463 * minutes_per_day + 1439.

Definition in_datetime_range (t : datetime) : Prop := datetime_min <= t <= datetime_max.

#[export] Instance in_datetime_range_dec (t : datetime) : Decision (in_datetime_range t).
Proof. unfold in_datetime_range. apply _. Defined.

(** [datetime.strptime(s, "%H:%M")] *)
Definition strptime_exn (s : hhmm) : Result datetime :=
  if decide (valid_hhmm s) then Returned (strptime s) else Raised ValueError.

(** [t + timedelta(hours=h)] *)
Definition datetime_add (t : datetime) (h : Z) : Result datetime :=
  if decide (in_datetime_range (t + timedelta_hours h))
  then Returned (t + timedelta_hours h)
  else Raised OverflowError.

(** *** Distances *)

(** [geodesic_defined a b]: geopy builds a point from [a] and from [b] and
    measures the distance between the two. *)
Class GeodesyDomain `{Geodesy} := {
  geodesic_defined : Coord → Coord → bool
}.

Section exceptions.
Context `{GeodesyDomain}.

(** [geodesic(a, b).kilometers] *)
Definition geodesic_exn (a b : Coord) : Result float :=
  if geodesic_defined a b then Returned (geodesic_km a b) else Raised ValueError.

(** *** [min(l, key=...)] with a key that can raise

    The key of the first element is taken first, then the key of every
    other element, in order. *)
Fixpoint min_loop_exn {A K : Type} (lt : K → K → bool) (key : A → Result K)
    (best : A) (best_key : K) (l : list A) : Result A :=
  match l with
  | [] => Returned best
  | x :: r =>
    k ← key x;
    if lt k best_key then min_loop_exn lt key x k r
    else min_loop_exn lt key best best_key r
  end.

Definition min_exn {A K : Type} (lt : K → K → bool) (key : A → Result K)
    (c : A) (cs : list A) : Result A :=
  k ← key c; min_loop_exn lt key c k cs.

(** *** [schedule_single_location] *)

Fixpoint scan_events_exn (location : Location) (current_schedule : list ScheduleEntry)
    (start_t end_t : datetime) (i : nat) (events : list ScheduleEntry)
  : Result (option ScheduleEntry) :=
  match events with
  | [] => Returned None
  | event :: rest =>
    event_start ← strptime_exn (start_time event);
    event_end ← strptime_exn (end_time event);
    if bool_decide (i = 0%nat) && (end_t <=? event_start)
    then Returned (Some (create_schedule_entry location start_t end_t))
    else
      let continue :=
        scan_events_exn location current_schedule start_t end_t (S i) rest in
      if bool_decide (0 < i)%nat then
        match current_schedule !! (i - 1)%nat with
        | Some prev =>
          prev_event_end ← strptime_exn (end_time prev);
          gap_end ← datetime_add prev_event_end (duration location);
          if gap_end <=? event_start
          then
            end_t' ← datetime_add prev_event_end (duration location);
            Returned (Some (create_schedule_entry location prev_event_end end_t'))
          else continue
        | None => continue
        end
      else continue
  end.

Definition schedule_single_location_exn (location : Location)
    (current_schedule : list ScheduleEntry) (daily_start daily_end : hhmm)
  : Result (option ScheduleEntry) :=
  daily_start_time ← strptime_exn daily_start;
  daily_end_time ← strptime_exn daily_end;
  opening_time ← strptime_exn (opening_hours location);
  closing_time ← strptime_exn (closing_hours location);
  let start_t := Z.max daily_start_time opening_time in
  end_t ← datetime_add start_t (duration location);
  if Z.min daily_end_time closing_time <? end_t then Returned None
  else
    found ← scan_events_exn location current_schedule start_t end_t 0 current_schedule;
    match found with
    | Some e => Returned (Some e)
    | None =>
      match last current_schedule with
      | Some last_event =>
        last_event_end ← strptime_exn (end_time last_event);
        after_end ← datetime_add last_event_end (duration location);
        if after_end <=? Z.min daily_end_time closing_time
        then
          end_t' ← datetime_add last_event_end (duration location);
          Returned (Some (create_schedule_entry location last_event_end end_t'))
        else Returned None
      | None =>
        if end_t <=? Z.min daily_end_time closing_time
        then Returned (Some (create_schedule_entry location start_t end_t))
        else Returned None
      end
    end.

(** *** [calculate_score] *)
Definition calculate_score_exn (location : Location) (last_location : ScheduleEntry)
    (current_time : datetime) : Result float :=
  proximity_score ←
    geodesic_exn (entry_coordinates last_location) (coordinates location);
  closing_time ← strptime_exn (closing_hours location);
  let time_flexibility :=
    f_max (f_div (f_of_Z ((closing_time - current_time) * 60)) (f_of_Z 3600)) (f_lit 1 10) in
  Returned (f_add proximity_score (f_div (f_of_Z 1) time_flexibility)).

(** *** [schedule_cluster_with_priorities] *)

Definition select_next_exn (st : SchedState) (c : Location) (cs : list Location)
  : Result (Location * Reason) :=
  match last (st_schedule st) with
  | None =>
    next_location ← min_exn Z.ltb (λ x, strptime_exn (opening_hours x)) c cs;
    Returned (next_location, EarliestOpening)
  | Some last_location =>
    next_location ←
      min_exn f_lt (λ loc, calculate_score_exn loc last_location (st_current_time st))
        c cs;
    distance_to_last ←
      geodesic_exn (entry_coordinates last_location) (coordinates next_location);
    Returned (next_location, Proximity distance_to_last)
  end.

Definition sched_body_exn (daily_start daily_end : hhmm) (st : SchedState)
    (c : Location) (cs : list Location) : Result SchedState :=
  '(next_location, why) ← select_next_exn st c cs;
  let cluster' := list_remove_first next_location (c :: cs) in
  result ← schedule_single_location_exn next_location (st_schedule st)
             daily_start daily_end;
  match result with
  | Some result =>
    current_time ← strptime_exn (end_time result);
    Returned {| st_cluster := cluster';
                st_schedule := st_schedule st ++ [set_reason why result];
                st_unvisitable := st_unvisitable st;
                st_current_time := current_time |}
  | None =>
    Returned {| st_cluster := cluster';
                st_schedule := st_schedule st;
                st_unvisitable := st_unvisitable st ++ [next_location];
                st_current_time := st_current_time st |}
  end.

Fixpoint sched_loop_exn (fuel : nat) (daily_start daily_end : hhmm) (st : SchedState)
  : Result SchedState :=
  match fuel with
  | O => Returned st
  | S fuel' =>
    match st_cluster st with
    | [] => Returned st
    | c :: cs =>
      st' ← sched_body_exn daily_start daily_end st c cs;
      sched_loop_exn fuel' daily_start daily_end st'
    end
  end.

Fixpoint annotate_proximity_exn (l : list ScheduleEntry) : Result (list ScheduleEntry) :=
  match l with
  | [] => Returned []
  | [e] => Returned [set_proximity NotApplicable e]
  | e :: (e' :: _) as r =>
    distance_to_next ← geodesic_exn (entry_coordinates e) (entry_coordinates e');
    r' ← annotate_proximity_exn r;
    Returned (set_proximity (KmToNext distance_to_next) e :: r')
  end.

Definition schedule_cluster_with_priorities_exn (cluster : list Location)
    (daily_start daily_end : hhmm) : Result GroupResult :=
  current_time ← strptime_exn daily_start;
  st ← sched_loop_exn (length cluster) daily_start daily_end
         {| st_cluster := cluster; st_schedule := []; st_unvisitable := [];
            st_current_time := current_time |};
  schedule ← annotate_proximity_exn (st_schedule st);
  Returned {| schedule := schedule; unvisitable := st_unvisitable st |}.

(** *** [iterative_schedule_cluster] and [parallel_schedule_clusters]

    [future.result()] raises what the task raised; the results are read in
    the order of the dictionary. *)
Fixpoint search_loop_exn (attempt : nat → Result GroupResult) (i remaining : nat)
    (best : option (Z * GroupResult)) : Result (option (Z * GroupResult)) :=
  match remaining with
  | O => Returned best
  | S remaining' =>
    result ← attempt i;
    let unvisitable_count := length (unvisitable result) in
    let score := attempt_score result in
    let best' := if improves score best then Some (score, result) else best in
    if bool_decide (unvisitable_count = 0%nat) then Returned best'
    else search_loop_exn attempt (S i) remaining' best'
  end.

Definition iterative_schedule_cluster_exn (cluster : list Location)
    (daily_start daily_end : hhmm) (max_iterations : nat) : Result (option GroupResult) :=
  match search_loop_exn
          (λ _, schedule_cluster_with_priorities_exn (slice_copy cluster)
                  daily_start daily_end)
          0 max_iterations None with
  | Returned best => Returned (snd <$> best)
  | Raised e => Raised e
  end.

Definition parallel_schedule_clusters_exn (clusters : list (nat * list Location))
    (daily_start daily_end : hhmm) : Result (list (nat * option GroupResult)) :=
  mapM (λ '(cluster_id, cluster_locations),
          r ← iterative_schedule_cluster_exn cluster_locations daily_start daily_end
                default_max_iterations;
          Returned (cluster_id, r))
       clusters.

(** *** [handle_unvisitable] *)

Fixpoint try_clusters_exn (location : Location) (clusters : list (nat * GroupResult))
    (daily_start daily_end : hhmm) : Result (option (list (nat * GroupResult))) :=
  match clusters with
  | [] => Returned None
  | (cluster_id, cluster_schedule) :: rest =>
    result ← schedule_single_location_exn location (schedule cluster_schedule)
               daily_start daily_end;
    match result with
    | Some result =>
      Returned
        (Some ((cluster_id,
                {| schedule := sort_by_start_time (schedule cluster_schedule ++ [result]);
                   unvisitable := unvisitable cluster_schedule |}) :: rest))
    | None =>
      found ← try_clusters_exn location rest daily_start daily_end;
      Returned (cons (cluster_id, cluster_schedule) <$> (found : option _))
    end
  end.

Fixpoint rescue_loop_exn (locations : list Location) (clusters : list (nat * GroupResult))
    (new_unvisitable : list Location) (daily_start daily_end : hhmm)
  : Result (list (nat * GroupResult) * list Location) :=
  match locations with
  | [] => Returned (clusters, new_unvisitable)
  | location :: rest =>
    found ← try_clusters_exn location clusters daily_start daily_end;
    match found with
    | Some clusters' =>
      rescue_loop_exn rest clusters' new_unvisitable daily_start daily_end
    | None =>
      rescue_loop_exn rest clusters (new_unvisitable ++ [location]) daily_start daily_end
    end
  end.

Definition handle_unvisitable_exn (locations : list Location)
    (clusters : list (nat * GroupResult)) (daily_start daily_end : hhmm)
  : Result (list (nat * GroupResult) * list Location) :=
  rescue_loop_exn locations clusters [] daily_start daily_end.

(** *** The scheduling stage and [cluster_data]

    Iterating over the [None] that a search without a pass leaves for
    ["unvisitable"] raises [TypeError]. *)
Definition schedule_stage_exn (best_clusters : list (nat * list Location))
    (daily_start daily_end : hhmm)
  : Result (list (nat * GroupResult) * list Location) :=
  results ← parallel_schedule_clusters_exn best_clusters daily_start daily_end;
  match mapM (λ '(cluster_id, r), (cluster_id,.) <$> r) results with
  | None => Raised TypeError
  | Some grouped_clusters =>
    let unvisitable_locations :=
      concat ((λ '(_, cluster), unvisitable cluster) <$> grouped_clusters) in
    handle_unvisitable_exn unvisitable_locations grouped_clusters daily_start daily_end
  end.

(** [cluster_data] with the exceptions of its scheduling stage; an exception
    that leaves the handler is [Crashed]. *)
Definition cluster_data_exn (results : list ClusterRun) (data : ClusteringInput)
  : Outcome :=
  let locations := locations_of (points data) in
  if num_clusters data <? 1
  then Rejected (HTTP400 "Number of clusters must be at least 1")
  else if Z.of_nat (length (points data)) <? num_clusters data
  then Rejected (HTTP400 "Number of clusters cannot exceed number of points")
  else
    let best_clusters :=
      if num_clusters data =? 1 then Some (single_cluster locations)
      else
        match parallel_find_best_clusters locations (Z.to_nat (num_clusters data)) results with
        | Some (Some (clusters, _)) => Some clusters
        | _ => None
        end in
    match best_clusters with
    | None => Crashed
    | Some clusters =>
      match schedule_stage_exn (with_ids clusters)
              (daily_start_time data) (daily_end_time data) with
      | Returned (grouped_clusters, final_unvisitable) =>
        Responded grouped_clusters final_unvisitable
      | Raised _ => Crashed
      end
    end.

(** *** Inputs on which nothing is raised *)

(** The times of an entry are times of day, as [strftime] writes them. *)
Definition timed (e : ScheduleEntry) : Prop :=
  valid_hhmm (start_time e) ∧ valid_hhmm (end_time e).

(** The visit can be added to every time of day without leaving the years 1
    to 9999. *)
Definition addable (hours : Z) : Prop :=
  in_datetime_range (0 + timedelta_hours hours)
  ∧ in_datetime_range (minutes_per_day - 1 + timedelta_hours hours).

(** A location with well-formed hours and a duration the dates can hold. *)
Definition well_formed (loc : Location) : Prop :=
  valid_location loc ∧ addable (duration loc).

(** geopy measures the distance between any two locations of the list. *)
Definition all_measurable (cluster : list Location) : Prop :=
  ∀ a b, a ∈ cluster → b ∈ cluster →
         geodesic_defined (coordinates a) (coordinates b) = true.
(** The state of a pass on which nothing is raised: the entries have times
    of day and the coordinates of locations of the input, and the candidates
    are locations of the input. *)
Definition quiet (cluster : list Location) (st : SchedState) : Prop :=
  Forall timed (st_schedule st)
  ∧ st_cluster st ⊆ cluster
  ∧ ∀ e, e ∈ st_schedule st → ∃ loc, loc ∈ cluster ∧ entry_coordinates e = coordinates loc.
End exceptions.

(** ** Concrete interfaces for the examples

    Python floats are binary64 values.  The coordinates of the examples are
    whole degrees, and [grid_km] stands in for the geodesic distance; the
    examples consult it only to annotate an entry, never to choose between
    two candidates. *)

Definition binary64_of_Z (z : Z) : PrimFloat.float :=
  if z <? 0 then PrimFloat.opp (PrimFloat.of_uint63 (Uint63.of_Z (- z)))
  else PrimFloat.of_uint63 (Uint63.of_Z z).

#[export] Instance binary64 : FloatOps := {|
  float := PrimFloat.float;
  f_of_Z := binary64_of_Z;
  f_neg_inf := PrimFloat.neg_infinity;
  f_add := PrimFloat.add;
  f_sub := PrimFloat.sub;
  f_mul := PrimFloat.mul;
  f_div := PrimFloat.div;
  f_lt := PrimFloat.ltb
|}.

Definition grid_km (a b : Z * Z) : PrimFloat.float :=
  binary64_of_Z (111 * (Z.abs (a.1 - b.1) + Z.abs (a.2 - b.2))).

#[export] Instance grid : Geodesy := {|
  Coord := Z * Z;
  geodesic_km := grid_km
|}.

Definition at_time (h m : Z) : hhmm := h * 60 + m.

Definition place (nm : string) (xy : Z * Z) (opening closing : hhmm) (hours : Z)
  : Location :=
  {| name := nm; coordinates := xy; opening_hours := opening;
     closing_hours := closing; duration := hours |}.

Definition times (e : ScheduleEntry) : string * hhmm * hhmm :=
  (entry_name e, start_time e, end_time e).

Definition stage_summary (r : list (nat * GroupResult) * list Location)
  : list (nat * list (string * hhmm * hhmm)) * list string :=
  ((λ c : nat * GroupResult, (c.1, times <$> schedule c.2)) <$> r.1, name <$> r.2).

Definition group_names (clusters : list (list Location)) : list (list string) :=
  (λ g : list Location, name <$> g) <$> clusters.

(** *** Example requests *)

Definition eight : hhmm := at_time 8 0.
Definition twenty : hhmm := at_time 20 0.

(** A one-hour visit next to a visit that takes no time. *)
Definition base_stop : Location := place "A" (0, 0) eight twenty 1.
Definition flash_stop : Location := place "Z" (0, 1) eight twenty 0.

(** A shop open in the morning and one that opens at noon. *)
Definition early_shop : Location := place "B" (0, 0) eight (at_time 12 0) 1.
Definition late_shop : Location := place "A" (0, 1) (at_time 12 0) (at_time 18 0) 1.

(** Two groups: in the first, "R" cannot follow "P" before it closes; the
    second has room for it before "Q". *)
Definition stop_p : Location := place "P" (0, 0) eight (at_time 10 0) 2.
Definition stop_r : Location := place "R" (0, 1) eight (at_time 11 0) 2.
Definition stop_q : Location := place "Q" (5, 5) (at_time 10 0) twenty 1.

Definition rescue_day : list (nat * list Location) :=
  [(0%nat, [stop_p; stop_r]); (1%nat, [stop_q])].

(** Two locations at the same point, to be split into two groups. *)
Definition twin_request : ClusteringInput :=
  {| points := [place "T1" (3, 4) eight twenty 1; place "T2" (3, 4) eight twenty 1];
     num_clusters := 2; daily_start_time := eight; daily_end_time := twenty |}.

(** One restart over three points. *)
Definition sample_run : ClusterRun :=
  {| run_centroids := []; run_labels := [0; 1; 0]%nat;
     run_silhouette := 0.5%float; run_balance := 0.25%float |}.

(** A location that cannot end its two hours before it closes. *)
Definition short_evening : Location :=
  place "C" (1, 1) (at_time 18 0) (at_time 19 0) 2.

(** The same name given to two points. *)
Definition namesake_request : ClusteringInput :=
  {| points := [place "N" (0, 0) eight twenty 1; place "M" (1, 1) eight twenty 1;
                place "N" (2, 2) eight twenty 2];
     num_clusters := 1; daily_start_time := eight; daily_end_time := twenty |}.

(** "Q" from 10:00 to 11:00, the schedule "R" is rescued into. *)
Definition morning_of_q : list ScheduleEntry := [create_schedule_entry stop_q 600 660].

(** Two attempts on one candidate: the first leaves it unvisitable, the
    second schedules it. *)
Definition two_attempts (i : nat) : GroupResult :=
  match i with
  | O => {| schedule := []; unvisitable := [stop_p] |}
  | S _ => {| schedule := [create_schedule_entry stop_p 480 600]; unvisitable := [] |}
  end.

(** Points on a line, where the Euclidean length is the absolute value. *)
Definition norm_on_line (v : list Q) : Q :=
  match v with
  | [x] => Qmax x (- x)
  | _ => 0%Q
  end.

Definition line_points : list (list Q) := [[0%Q]; [1%Q]; [10%Q]].
Definition line_shuffled : list (list Q) := [[10%Q]; [0%Q]; [1%Q]].

(** The first entry of the day of the two shops. *)
Definition first_of_shops : ScheduleEntry :=
  set_proximity (KmToNext (grid_km (0, 0) (0, 1)))
    (set_reason EarliestOpening (create_schedule_entry early_shop 480 540)).

(** The first coordinate of a grid point is its latitude in degrees: geopy
    rejects a point whose latitude lies outside [-90, 90]. *)
Definition grid_latitude_ok (a : Z * Z) : bool := (-90 <=? a.1) && (a.1 <=? 90).

#[export] Instance grid_domain : GeodesyDomain := {|
  geodesic_defined a b := grid_latitude_ok a && grid_latitude_ok b
|}.

(** A location with latitude 91, and a visit of a hundred million hours. *)
Definition polar_stop : Location := place "N" (91, 0) eight twenty 1.
Definition endless_stop : Location := place "E" (0, 0) eight twenty 100000000.

(** * Properties *)

(** ** Python list primitives *)

Section python_lists_facts.
Context {A K : Type}.
Implicit Types (l : list A) (x best : A).

Lemma min_from_elem (lt : K → K → bool) (key : A → K) best l :
  min_from lt key best l ∈ best :: l.
Proof.
  revert best. induction l as [|x r IH]; intros best; simpl.
  - apply list_elem_of_here.
  - destruct (lt (key x) (key best)).
    + apply list_elem_of_further, IH.
    + pose proof (IH best) as Hin.
      apply elem_of_cons in Hin as [->|Hin]; [apply list_elem_of_here|].
      by do 2 apply list_elem_of_further.
Qed.

(** With integer keys the chosen element has the least key. *)
Lemma min_from_least (key : A → Z) best l y :
  y ∈ best :: l → key (min_from Z.ltb key best l) <= key y.
Proof.
  revert best y. induction l as [|x r IH]; intros best y Hy; simpl.
  - apply list_elem_of_singleton in Hy as ->. lia.
  - destruct (Z.ltb_spec (key x) (key best)) as [Hlt|Hge].
    + apply elem_of_cons in Hy as [->|Hy].
      * pose proof (IH x x (list_elem_of_here _ _)). lia.
      * by apply IH.
    + apply elem_of_cons in Hy as [->|Hy]; [apply IH, list_elem_of_here|].
      apply elem_of_cons in Hy as [->|Hy].
      * pose proof (IH best best (list_elem_of_here _ _)). lia.
      * by apply IH, list_elem_of_further.
Qed.

Context `{EqDecision A}.

Lemma list_remove_first_perm x l : x ∈ l → l ≡ₚ x :: list_remove_first x l.
Proof.
  induction l as [|y r IH]; intros Hx; [set_solver|]. simpl.
  destruct (decide (y = x)) as [->|Hne]; [done|].
  apply elem_of_cons in Hx as [->|Hx]; [done|].
  rewrite (IH Hx) at 1. apply Permutation_swap.
Qed.

Lemma list_remove_first_length x l :
  x ∈ l → S (length (list_remove_first x l)) = length l.
Proof.
  intros Hx. apply list_remove_first_perm in Hx.
  apply Permutation_length in Hx. simpl in Hx. lia.
Qed.

Lemma list_remove_first_subseteq x l : list_remove_first x l ⊆ l.
Proof.
  induction l as [|y r IH]; simpl; [done|].
  destruct (decide (y = x)); intros z Hz.
  - by apply list_elem_of_further.
  - apply elem_of_cons in Hz as [->|Hz]; [apply list_elem_of_here|].
    by apply list_elem_of_further, IH.
Qed.
End python_lists_facts.

(** ** The placement procedure *)

Section placement_facts.
Context `{Geodesy}.
Implicit Types (loc location : Location) (e : ScheduleEntry)
  (s entries : list ScheduleEntry).

Lemma scan_events_from_gap location s start_t end_t rest i prev :
  s !! i = Some prev → drop (S i) s = rest →
  scan_events location s start_t end_t (S i) rest
  = (λ pe, create_schedule_entry location pe (pe + timedelta_hours (duration location)))
      <$> first_gap (timedelta_hours (duration location)) (end_time prev) rest.
Proof.
  revert i prev. induction rest as [|e r IH]; intros i prev Hprev Hdrop; [done|].
  cbn [scan_events first_gap].
  rewrite bool_decide_eq_false_2 by lia. cbn [andb].
  rewrite bool_decide_eq_true_2 by lia.
  replace (S i - 1)%nat with i by lia. rewrite Hprev. unfold strptime.
  destruct (_ <=? _); [done|].
  apply (IH (S i) e).
  - rewrite <- (Nat.add_0_r (S i)), <- lookup_drop, Hdrop. done.
  - replace (S (S i)) with (S i + 1)%nat by lia.
    rewrite <- (drop_drop s 1 (S i)), Hdrop. done.
Qed.

(** [schedule_single_location] without indices. *)
Lemma schedule_single_location_unfold location s daily_start daily_end :
  schedule_single_location location s daily_start daily_end
  = let span := timedelta_hours (duration location) in
    let start_t := Z.max daily_start (opening_hours location) in
    let end_t := start_t + span in
    let bound := Z.min daily_end (closing_hours location) in
    if bound <? end_t then None
    else
      match s with
      | [] => Some (create_schedule_entry location start_t end_t)
      | first :: rest =>
        if end_t <=? start_time first
        then Some (create_schedule_entry location start_t end_t)
        else
          match first_gap span (end_time first) rest with
          | Some pe => Some (create_schedule_entry location pe (pe + span))
          | None =>
            let last_end := end_time (default first (last rest)) in
            if last_end + span <=? bound
            then Some (create_schedule_entry location last_end (last_end + span))
            else None
          end
      end.
Proof.
  unfold schedule_single_location, strptime. cbn zeta.
  destruct (Z.ltb_spec (Z.min daily_end (closing_hours location))
              (Z.max daily_start (opening_hours location)
               + timedelta_hours (duration location))) as [Hlt|Hge]; [done|].
  destruct s as [|first rest].
  - simpl. rewrite (proj2 (Z.leb_le _ _)) by lia. done.
  - cbn [scan_events]. rewrite bool_decide_eq_true_2 by done. cbn [andb].
    unfold strptime. destruct (_ <=? start_time first); [done|].
    rewrite bool_decide_eq_false_2 by lia.
    rewrite (scan_events_from_gap location (first :: rest) _ _ rest 0 first) by done.
    destruct (first_gap _ _ rest); [done|]. simpl fmap.
    rewrite last_cons. destruct (last rest); done.
Qed.


End placement_facts.

(** ** The group scheduler: termination and bookkeeping *)

Section scheduler_facts.
Context `{Geodesy}.
Implicit Types (loc next : Location) (e : ScheduleEntry)
  (s : list ScheduleEntry) (st : SchedState) (cluster : list Location).

Lemma schedule_single_location_entry_of loc s daily_start daily_end e :
  schedule_single_location loc s daily_start daily_end = Some e → entry_of loc e.
Proof.
  rewrite schedule_single_location_unfold. cbn zeta. intros He.
  repeat case_match; simplify_eq; done.
Qed.

Lemma select_next_elem st c cs : (select_next st c cs).1 ∈ c :: cs.
Proof. unfold select_next. destruct (last _); apply min_from_elem. Qed.

Lemma select_next_earliest st c cs y :
  st_schedule st = [] → y ∈ c :: cs →
  opening_hours (select_next st c cs).1 <= opening_hours y.
Proof.
  intros Hs Hy. unfold select_next. rewrite Hs. simpl.
  apply (min_from_least (λ x, strptime (opening_hours x)) c cs y Hy).
Qed.

(** What one pass does: it takes one candidate out of the list and files
    it, either as a new last entry or as unvisitable. *)
Lemma sched_body_cases daily_start daily_end st c cs :
  let next := (select_next st c cs).1 in
  let st' := sched_body daily_start daily_end st c cs in
  st_cluster st' = list_remove_first next (c :: cs)
  ∧ ((∃ e, schedule_single_location next (st_schedule st) daily_start daily_end = Some e
         ∧ st_schedule st' = st_schedule st ++ [set_reason (select_next st c cs).2 e]
         ∧ st_unvisitable st' = st_unvisitable st)
     ∨ (schedule_single_location next (st_schedule st) daily_start daily_end = None
         ∧ st_schedule st' = st_schedule st
         ∧ st_unvisitable st' = st_unvisitable st ++ [next])).
Proof.
  unfold sched_body. destruct (select_next st c cs) as [next why]. cbn [fst snd].
  destruct (schedule_single_location next _ _ _) as [e|] eqn:He; simpl.
  - split; [done|]. left. by exists e.
  - split; [done|]. by right.
Qed.

Lemma sched_body_length daily_start daily_end st c cs :
  length (st_cluster (sched_body daily_start daily_end st c cs)) = length cs.
Proof.
  destruct (sched_body_cases daily_start daily_end st c cs) as [-> _].
  pose proof (list_remove_first_length _ _ (select_next_elem st c cs)) as Hlen.
  cbn [length] in Hlen. lia.
Qed.

(** The loop leaves through its condition: once the passes granted cover the
    candidates, the candidate list of the final state is empty. *)
Lemma sched_loop_consumes fuel daily_start daily_end st :
  (length (st_cluster st) <= fuel)%nat →
  st_cluster (sched_loop fuel daily_start daily_end st) = [].
Proof.
  revert st. induction fuel as [|fuel IH]; intros st Hlen; simpl.
  - destruct (st_cluster st); [done|simpl in Hlen; lia].
  - destruct (st_cluster st) as [|c cs] eqn:Hc; [done|].
    apply IH. rewrite sched_body_length. simpl in Hlen. lia.
Qed.

Lemma sched_loop_fuel_irrelevant fuel daily_start daily_end st :
  (length (st_cluster st) <= fuel)%nat →
  sched_loop fuel daily_start daily_end st
  = sched_loop (length (st_cluster st)) daily_start daily_end st.
Proof.
  revert st. induction fuel as [|fuel IH]; intros st Hlen.
  - by replace (length (st_cluster st)) with 0%nat by lia.
  - simpl. destruct (st_cluster st) as [|c cs] eqn:Hc; [done|].
    cbn [length sched_loop]. rewrite Hc.
    rewrite IH by (rewrite sched_body_length; simpl in Hlen; lia).
    by rewrite sched_body_length.
Qed.

(** Induction over the passes of the loop. *)
Lemma sched_loop_invariant (P : SchedState → Prop) daily_start daily_end :
  (∀ st c cs, st_cluster st = c :: cs → P st →
              P (sched_body daily_start daily_end st c cs)) →
  ∀ fuel st, P st → P (sched_loop fuel daily_start daily_end st).
Proof.
  intros Hstep. induction fuel as [|fuel IH]; intros st HP; simpl; [done|].
  destruct (st_cluster st) as [|c cs] eqn:Hc; [done|]. by apply IH, Hstep.
Qed.

Lemma annotate_proximity_same_visit s :
  Forall2 same_visit s (annotate_proximity s).
Proof.
  induction s as [|e [|e' r] IH]; simpl.
  - constructor.
  - by repeat constructor.
  - constructor; [done|]. apply IH.
Qed.

Lemma annotate_proximity_length s : length (annotate_proximity s) = length s.
Proof. symmetry. eapply Forall2_length, annotate_proximity_same_visit. Qed.

Lemma annotate_proximity_lookup s i e' :
  annotate_proximity s !! i = Some e' → ∃ e, s !! i = Some e ∧ same_visit e e'.
Proof.
  intros Hi.
  destruct (Forall2_lookup_r _ _ _ _ _ (annotate_proximity_same_visit s) Hi)
    as (e & ? & ?).
  by exists e.
Qed.

Lemma sched_body_accounts cluster daily_start daily_end st c cs :
  st_cluster st = c :: cs → accounts_for cluster st →
  accounts_for cluster (sched_body daily_start daily_end st c cs).
Proof.
  intros Hc (placed & Hplaced & Hperm).
  pose proof (select_next_elem st c cs) as Hin.
  pose proof (list_remove_first_perm _ _ Hin) as Hrem.
  destruct (sched_body_cases daily_start daily_end st c cs)
    as [Hcl [(e & He & Hs & Hu)|(He & Hs & Hu)]].
  - exists (placed ++ [(select_next st c cs).1]). rewrite Hs, Hu, Hcl. split.
    + apply Forall2_app; [done|]. constructor; [|constructor].
      apply schedule_single_location_entry_of in He. done.
    + rewrite <- Hperm, Hc. revert Hrem.
      generalize (list_remove_first (select_next st c cs).1 (c :: cs)).
      intros rem ->. rewrite <- app_assoc. apply Permutation_app_head. simpl.
      apply Permutation_middle.
  - exists placed. rewrite Hs, Hu, Hcl. split; [done|].
    rewrite <- Hperm, Hc. revert Hrem.
    generalize (list_remove_first (select_next st c cs).1 (c :: cs)).
    intros rem ->. apply Permutation_app_head. rewrite <- app_assoc. done.
Qed.

Lemma sched_run_accounts cluster daily_start daily_end :
  accounts_for cluster (sched_run cluster daily_start daily_end).
Proof.
  unfold sched_run. apply sched_loop_invariant.
  - intros st c cs. apply sched_body_accounts.
  - exists []. simpl. split; [constructor|done].
Qed.

Lemma schedule_cluster_partition cluster daily_start daily_end :
  let r := schedule_cluster_with_priorities cluster daily_start daily_end in
  ∃ placed, Forall2 entry_of placed (schedule r)
            ∧ placed ++ unvisitable r ≡ₚ cluster.
Proof.
  cbn zeta. destruct (sched_run_accounts cluster daily_start daily_end)
    as (placed & Hplaced & Hperm).
  unfold sched_run in Hperm.
  rewrite sched_loop_consumes, app_nil_r in Hperm by done.
  exists placed. split; [|done]. simpl.
  eapply Forall2_trans; [|exact Hplaced|apply annotate_proximity_same_visit].
  intros loc a b [? ?] (? & ? & _). split; congruence.
Qed.

Lemma schedule_cluster_lengths cluster daily_start daily_end :
  let r := schedule_cluster_with_priorities cluster daily_start daily_end in
  (length (schedule r) + length (unvisitable r) = length cluster)%nat.
Proof.
  cbn zeta. destruct (schedule_cluster_partition cluster daily_start daily_end)
    as (placed & Hplaced & Hperm).
  apply Forall2_length in Hplaced. apply Permutation_length in Hperm.
  rewrite length_app in Hperm. lia.
Qed.
End scheduler_facts.

(** ** The multi-start search *)

Section search_facts.
Context `{Geodesy}.
Implicit Types (attempt : nat → GroupResult) (best : option (Z * GroupResult)).

Lemma passes_run_le attempt i0 n : (passes_run attempt i0 n <= n)%nat.
Proof.
  revert i0. induction n as [|n IH]; intros i0; simpl; [done|].
  case_bool_decide; [lia|]. specialize (IH (S i0)). lia.
Qed.

(** Every pass but the last one left something unvisitable. *)
Lemma passes_run_before_last attempt i0 n i :
  (i0 <= i)%nat → (S i < i0 + passes_run attempt i0 n)%nat →
  unvisitable (attempt i) ≠ [].
Proof.
  revert i0. induction n as [|n IH]; intros i0 Hle Hlt; simpl in Hlt; [lia|].
  case_bool_decide as Hu; [lia|].
  destruct (decide (i = i0)) as [->|Hne].
  - intros Hnil. apply Hu. by rewrite Hnil.
  - apply (IH (S i0)); lia.
Qed.

(** A search that stops short does so on an attempt without unvisitable
    location. *)
Lemma passes_run_early attempt i0 n :
  (passes_run attempt i0 n < n)%nat →
  ∃ k, passes_run attempt i0 n = S k ∧ unvisitable (attempt (i0 + k)%nat) = [].
Proof.
  revert i0. induction n as [|n IH]; intros i0 Hlt; simpl in *; [lia|].
  case_bool_decide as Hu.
  - exists 0%nat. rewrite Nat.add_0_r. split; [done|]. by apply nil_length_inv.
  - destruct (IH (S i0)) as (k & -> & Hk); [lia|].
    exists (S k). split; [done|]. by rewrite <- Nat.add_succ_comm.
Qed.

Lemma search_loop_first_min attempt n i0 best :
  match search_loop attempt i0 n best with
  | None => best = None ∧ passes_run attempt i0 n = 0%nat
  | Some (sc, r) =>
    (∀ i, (i0 <= i < i0 + passes_run attempt i0 n)%nat →
          sc <= attempt_score (attempt i))
    ∧ (best = Some (sc, r)
       ∨ ∃ j, (i0 <= j < i0 + passes_run attempt i0 n)%nat
              ∧ r = attempt j ∧ sc = attempt_score (attempt j)
              ∧ (∀ i, (i0 <= i < j)%nat → sc < attempt_score (attempt i))
              ∧ improves sc best = true)
  end.
Proof.
  revert i0 best. induction n as [|n IH]; intros i0 best.
  { simpl. destruct best as [[sc r]|]; [|done]. split; [intros; lia|by left]. }
  cbn [search_loop passes_run].
  set (s0 := attempt_score (attempt i0)).
  assert (Hbest' : ∀ sb rb,
    (if improves s0 best then Some (s0, attempt i0) else best) = Some (sb, rb) →
    sb <= s0 ∧ (best = Some (sb, rb)
                ∨ (sb = s0 ∧ rb = attempt i0 ∧ improves s0 best = true))).
  { intros sb rb. destruct (improves s0 best) eqn:Himp.
    - intros [= <- <-]. split; [lia|by right].
    - intros ->. simpl in Himp. split; [lia|by left]. }
  assert (Hmono : ∀ sc sb rb,
    (if improves s0 best then Some (s0, attempt i0) else best) = Some (sb, rb) →
    sc < sb → improves sc best = true).
  { intros sc sb rb. destruct (improves s0 best) eqn:Himp.
    - intros [= <- <-] Hlt. destruct best as [[? ?]|]; simpl in *; lia.
    - intros -> Hlt. simpl. lia. }
  assert (Hsome : (if improves s0 best then Some (s0, attempt i0) else best) ≠ None).
  { destruct best as [[? ?]|]; simpl; [by destruct (_ <? _)|done]. }
  case_bool_decide as Hu.
  - destruct (if improves s0 best then _ else _) as [[sb rb]|] eqn:Hb.
    + destruct (Hbest' sb rb eq_refl) as [Hle Hcase]. split.
      * intros i Hi. replace i with i0 by lia. done.
      * destruct Hcase as [?|(-> & -> & ?)]; [by left|right].
        exists i0. repeat split; try done; try lia.
    + done.
  - specialize (IH (S i0) (if improves s0 best then Some (s0, attempt i0) else best)).
    destruct (search_loop _ _ _ _) as [[sc r]|].
    + destruct IH as [Hmin Hcase].
      assert (sc <= s0 ∧ (sc < s0 ∨ (if improves s0 best then Some (s0, attempt i0)
                                      else best) = Some (sc, r))) as [Hle0 Hlt0].
      { destruct Hcase as [Hb|(j & _ & _ & _ & _ & Himp)].
        - destruct (Hbest' _ _ Hb). split; [done|by right].
        - destruct (if improves s0 best then _ else _) as [[sb rb]|] eqn:Hb.
          + destruct (Hbest' _ _ eq_refl). simpl in Himp. lia.
          + done. }
      split.
      * intros i Hi. destruct (decide (i = i0)) as [->|Hne]; [done|].
        apply Hmin. lia.
      * destruct Hcase as [Hb|(j & Hj & -> & -> & Hfirst & Himp)].
        -- destruct (Hbest' _ _ Hb) as [_ [?|(-> & -> & ?)]]; [by left|right].
           exists i0. repeat split; try done; try lia.
        -- right. exists j. repeat split; try done; try lia.
           ++ intros i Hi. destruct (decide (i = i0)) as [->|Hne]; [|apply Hfirst; lia].
              destruct Hlt0 as [?|Hb]; [done|].
              rewrite Hb in Himp. simpl in Himp. lia.
           ++ destruct (if improves s0 best then _ else _) as [[sb rb]|] eqn:Hb.
              ** apply (Hmono _ sb rb eq_refl). simpl in Himp. lia.
              ** done.
    + by destruct IH as [Hb _].
Qed.

(** The score orders attempts on the same candidates by their number of
    unvisitable locations. *)
Lemma attempt_score_fewer_unvisitable (a b : GroupResult) :
  (length (schedule a) + length (unvisitable a)
   = length (schedule b) + length (unvisitable b))%nat →
  (length (unvisitable a) < length (unvisitable b))%nat →
  attempt_score a < attempt_score b.
Proof. unfold attempt_score. lia. Qed.

Lemma attempt_score_longer_schedule (a b : GroupResult) :
  length (unvisitable a) = length (unvisitable b) →
  (length (schedule b) < length (schedule a))%nat →
  attempt_score a < attempt_score b.
Proof. unfold attempt_score. lia. Qed.

(** When every attempt returns the same result, the loop stops after one pass
    if nothing is unvisitable and makes all its passes otherwise. *)
Lemma passes_run_constant attempt r i0 n :
  (∀ i, attempt i = r) →
  passes_run attempt i0 (S n)
  = if decide (unvisitable r = []) then 1%nat else S n.
Proof.
  intros Hconst. revert i0. induction n as [|n IH]; intros i0.
  - simpl. rewrite Hconst. case_bool_decide; by case_decide.
  - change (passes_run attempt i0 (S (S n)))
      with (if bool_decide (length (unvisitable (attempt i0)) = 0%nat) then 1%nat
            else S (passes_run attempt (S i0) (S n))).
    rewrite IH, Hconst. case_bool_decide as Hu; case_decide as Hd; try done.
    + apply nil_length_inv in Hu. done.
    + rewrite Hd in Hu. done.
Qed.

Lemma iterative_search_constant attempt r n :
  (∀ i, attempt i = r) → iterative_search attempt (S n) = Some r.
Proof.
  intros Hconst. unfold iterative_search.
  pose proof (search_loop_first_min attempt (S n) 0 None) as Hspec.
  destruct (search_loop attempt 0 (S n) None) as [[sc r']|].
  - destruct Hspec as [_ [?|(j & _ & -> & _)]]; [done|]. simpl. by rewrite Hconst.
  - destruct Hspec as [_ Hk]. simpl in Hk. case_bool_decide; done.
Qed.
End search_facts.

(** ** Where the placement procedure puts a visit *)

Section placement_position.
Context `{Geodesy}.
Implicit Types (loc location : Location) (e q x : ScheduleEntry)
  (s rest : list ScheduleEntry).

Lemma strftime_valid t : valid_hhmm t → strftime t = t.
Proof. unfold valid_hhmm, strftime. intros. by apply Z.mod_small. Qed.

Lemma first_gap_split span q rest pe :
  first_gap span (end_time q) rest = Some pe →
  ∃ s1 q' x s2, q :: rest = s1 ++ q' :: x :: s2
                ∧ end_time q' = pe ∧ pe + span <= start_time x.
Proof.
  revert q. induction rest as [|x r IH]; intros q Hgap; [done|].
  simpl in Hgap. destruct (Z.leb_spec (end_time q + span) (start_time x)) as [Hle|Hgt].
  - injection Hgap as <-. by exists [], q, x, r.
  - destruct (IH x Hgap) as (s1 & q' & x' & s2 & Heq & Hq & Hfit).
    exists (q :: s1), q', x', s2. by rewrite Heq.
Qed.

Lemma first_gap_tight span q rest :
  0 < span → Sorted meets (q :: rest) → first_gap span (end_time q) rest = None.
Proof.
  intros Hspan. revert q. induction rest as [|x r IH]; intros q Hs; [done|].
  apply Sorted_inv in Hs as [Hs Hhd]. apply HdRel_inv in Hhd. unfold meets in Hhd.
  simpl. rewrite (proj2 (Z.leb_gt _ _)) by lia. by apply IH.
Qed.

Lemma last_default_snoc q rest :
  ∃ s1, q :: rest = s1 ++ [default q (last rest)].
Proof.
  destruct (last rest) as [l|] eqn:Hl; simpl.
  - apply last_Some in Hl as [s1 ->]. by exists (q :: s1).
  - apply last_None in Hl as ->. by exists [].
Qed.

Lemma placement_position location s daily_start daily_end e :
  valid_hhmm daily_start → valid_hhmm daily_end → valid_location location →
  0 < duration location → Forall valid_entry s →
  schedule_single_location location s daily_start daily_end = Some e →
  entry_of location e
  ∧ valid_entry e
  ∧ end_time e = start_time e + timedelta_hours (duration location)
  ∧ Position location daily_start daily_end s e.
Proof.
  intros Hds Hde [Hop Hcl] Hdur Hvalid Hssl.
  pose proof (schedule_single_location_entry_of _ _ _ _ _ Hssl) as Hof.
  split; [done|]. clear Hof.
  rewrite schedule_single_location_unfold in Hssl. cbn zeta in Hssl.
  unfold valid_hhmm, timedelta_hours, minutes_per_day in *.
  set (span := duration location * 60) in *.
  set (start0 := Z.max daily_start (opening_hours location)) in *.
  set (bound := Z.min daily_end (closing_hours location)) in *.
  assert (Hmade : ∀ a, 0 <= a → a + span < 1440 →
            start_time (create_schedule_entry location a (a + span)) = a
            ∧ end_time (create_schedule_entry location a (a + span)) = a + span).
  { intros a ? ?. simpl. unfold strftime, minutes_per_day.
    rewrite !Z.mod_small by lia. done. }
  destruct (Z.ltb_spec bound (start0 + span)) as [|Hfits]; [done|].
  destruct s as [|first rest].
  { injection Hssl as <-. destruct (Hmade start0) as [Hs He]; [lia..|].
    rewrite Hs, He. unfold valid_entry, minutes_per_day.
    repeat split; try lia. apply AloneInDay; [done|done|lia]. }
  apply Forall_cons in Hvalid as Hv. destruct Hv as [Hvfirst Hvrest].
  destruct (Z.leb_spec (start0 + span) (start_time first)) as [Hbefore|_].
  { injection Hssl as <-. destruct (Hmade start0) as [Hs He]; [lia..|].
    rewrite Hs, He. unfold valid_entry, minutes_per_day.
    repeat split; try lia. eapply BeforeFirst; [done|done|lia|lia]. }
  destruct (first_gap span (end_time first) rest) as [pe|] eqn:Hgap.
  { injection Hssl as <-.
    destruct (first_gap_split _ _ _ _ Hgap) as (s1 & q & x & s2 & Heq & Hq & Hfit).
    assert (valid_entry q ∧ valid_entry x) as [Hvq Hvx].
    { rewrite Heq in Hvalid. apply Forall_app in Hvalid as [_ Hvalid].
      apply Forall_cons in Hvalid as [? Hvalid].
      by apply Forall_cons in Hvalid as [? _]. }
    unfold valid_entry, minutes_per_day in Hvq, Hvx.
    destruct (Hmade pe) as [Hs He]; [lia..|].
    rewrite Hs, He. unfold valid_entry, minutes_per_day.
    repeat split; try lia. eapply InGap; [done|lia|lia]. }
  set (q := default first (last rest)) in *.
  destruct (Z.leb_spec (end_time q + span) bound) as [Hafter|]; [|done].
  injection Hssl as <-.
  destruct (last_default_snoc first rest) as [s1 Heq]. fold q in Heq.
  assert (valid_entry q) as Hvq.
  { rewrite Heq in Hvalid. apply Forall_app in Hvalid as [_ Hvalid].
    by apply Forall_cons in Hvalid as [? _]. }
  unfold valid_entry, minutes_per_day in Hvq.
  destruct (Hmade (end_time q)) as [Hs He]; [lia..|].
  rewrite Hs, He. unfold valid_entry, minutes_per_day.
  repeat split; try lia. eapply AfterLast; [done|done|lia].
Qed.
End placement_position.

(** ** Ordered schedules *)

Section ordering_facts.
Context `{Geodesy}.
Implicit Types (e n x y : ScheduleEntry) (l s : list ScheduleEntry).

Lemma timetable_nil : timetable [].
Proof. split; constructor. Qed.

Lemma timetable_cons x l :
  timetable (x :: l) ↔ valid_entry x ∧ Forall (before x) l ∧ timetable l.
Proof.
  unfold timetable. rewrite Forall_cons, StronglySorted_cons. tauto.
Qed.

Lemma timetable_ordered l : timetable l → schedule_ordered l.
Proof.
  intros [Hv Hs] i a b Ha Hb.
  pose proof (take_drop_middle _ _ _ Ha) as Hsplit.
  rewrite (drop_S _ b (S i)) in Hsplit by done.
  rewrite <- Hsplit in Hs. apply StronglySorted_app_1_r in Hs.
  apply StronglySorted_cons in Hs as [Hab _].
  apply Forall_cons in Hab as [Hab _].
  pose proof (Forall_lookup_1 _ _ _ _ Hv Ha) as (? & ? & ?).
  unfold before in Hab. lia.
Qed.

Lemma timetable_same_visit l l' :
  Forall2 same_visit l l' → timetable l → timetable l'.
Proof.
  induction 1 as [|x x' l l' (_ & _ & Hs & He) Hl IH]; [done|].
  rewrite !timetable_cons. intros ((? & ? & ?) & Hb & Ht).
  split; [|split; [|by apply IH]].
  - unfold valid_entry. rewrite <- Hs, <- He. done.
  - clear IH Ht. induction Hl as [|y y' r r' (_ & _ & Hs' & _) _ IH]; [done|].
    apply Forall_cons in Hb as [Hxy Hb]. constructor; [|by apply IH].
    unfold before in *. by rewrite <- He, <- Hs'.
Qed.

Lemma tight_timetable l : tight l → timetable l.
Proof.
  intros [Hv Hs]. induction l as [|a l IH]; [apply timetable_nil|].
  apply Forall_cons in Hv as [Ha Hv]. apply Sorted_inv in Hs as [Hs Hhd].
  specialize (IH Hv Hs). apply timetable_cons. split; [done|]. split; [|done].
  destruct l as [|b l]; [done|].
  apply HdRel_inv in Hhd. unfold meets in Hhd.
  apply timetable_cons in IH as ((? & ? & ?) & Hb & _).
  constructor; [unfold before; lia|].
  eapply Forall_impl; [exact Hb|]. unfold before. intros z ?. lia.
Qed.

Lemma insert_by_start_perm n l : insert_by_start n l ≡ₚ n :: l.
Proof.
  induction l as [|y r IH]; simpl; [done|].
  destruct (_ <=? _); [|done]. rewrite IH. apply Permutation_swap.
Qed.

Lemma sort_by_start_time_snoc l x :
  sort_by_start_time (l ++ [x]) = insert_by_start x (sort_by_start_time l).
Proof. unfold sort_by_start_time. by rewrite fold_left_app. Qed.

Lemma sort_by_start_time_perm l : sort_by_start_time l ≡ₚ l.
Proof.
  induction l as [|x l IH] using rev_ind; [done|].
  rewrite sort_by_start_time_snoc, insert_by_start_perm, IH.
  apply Permutation_cons_append.
Qed.

Lemma insert_by_start_last x l :
  Forall (λ y, start_time y <= start_time x) l → insert_by_start x l = l ++ [x].
Proof.
  induction 1 as [|y r Hy _ IH]; simpl; [done|].
  rewrite (proj2 (Z.leb_le _ _)) by done. by rewrite IH.
Qed.

(** Sorting leaves a timetable as it is. *)
Lemma sort_by_start_time_timetable l : timetable l → sort_by_start_time l = l.
Proof.
  induction l as [|x l IH] using rev_ind; [done|].
  intros [Hv Hs]. apply Forall_app in Hv as [Hv _].
  apply StronglySorted_app in Hs as (Hlx & Hs & _).
  rewrite sort_by_start_time_snoc, IH by done.
  apply insert_by_start_last, Forall_forall. intros y Hy.
  pose proof (proj1 (Forall_forall _ _) Hv y Hy) as (? & ? & ?).
  specialize (Hlx y x Hy (list_elem_of_here _ _)). unfold before in Hlx. lia.
Qed.

Lemma insert_by_start_timetable n l :
  timetable l → valid_entry n → (∀ x, x ∈ l → before x n ∨ before n x) →
  timetable (insert_by_start n l).
Proof.
  intros Ht (? & ? & ?). induction l as [|y r IH]; intros Hfree; simpl.
  { apply timetable_cons. by repeat split; [..|constructor|apply timetable_nil]. }
  apply timetable_cons in Ht as (Hy & Hyr & Hr).
  pose proof Hy as (? & ? & ?).
  destruct (Hfree y (list_elem_of_here _ _)) as [Hyn|Hny];
    unfold before in Hyn || unfold before in Hny;
    destruct (Z.leb_spec (start_time y) (start_time n)); try lia.
  - apply timetable_cons. split; [done|]. split.
    + rewrite insert_by_start_perm. by constructor.
    + apply IH; [done|]. intros x Hx. by apply Hfree, list_elem_of_further.
  - apply timetable_cons. split; [done|]. split.
    + constructor; [done|]. eapply Forall_impl; [exact Hyr|].
      unfold before. intros z ?. lia.
    + by apply timetable_cons.
Qed.

(** A visit placed by the procedure is clear of every visit of the
    timetable it was placed into. *)
Lemma position_clear location daily_start daily_end s e :
  timetable s → valid_entry e → Position location daily_start daily_end s e →
  ∀ x, x ∈ s → before x e ∨ before e x.
Proof.
  intros [Hv Hs] (? & ? & ?) Hpos x Hx.
  pose proof (proj1 (Forall_forall _ _) Hv) as Hvalid. unfold before.
  destruct Hpos as [-> _ _|first rest -> _ Hend _|s1 q x' s2 -> Hstart Hend
                   |s1 q -> Hstart _].
  - by apply elem_of_nil in Hx.
  - right. apply StronglySorted_cons in Hs as [Hfr _].
    apply elem_of_cons in Hx as [->|Hx]; [done|].
    pose proof (proj1 (Forall_forall _ _) Hfr x Hx) as Hb.
    destruct (Hvalid first (list_elem_of_here _ _)) as (? & ? & ?).
    unfold before in Hb. lia.
  - destruct (Hvalid q) as (? & ? & ?);
      [by apply elem_of_app; right; apply list_elem_of_here|].
    destruct (Hvalid x') as (? & ? & ?);
      [by apply elem_of_app; right; apply list_elem_of_further, list_elem_of_here|].
    apply elem_of_app in Hx as [Hx|Hx].
    + left. pose proof (StronglySorted_app_1_elem_of _ _ _ x q Hs Hx
                          (list_elem_of_here _ _)) as Hb.
      unfold before in Hb. lia.
    + apply elem_of_cons in Hx as [->|Hx]; [left; lia|].
      right. apply elem_of_cons in Hx as [->|Hx]; [done|].
      apply StronglySorted_app_1_r, StronglySorted_cons in Hs as [_ Hs].
      apply StronglySorted_cons in Hs as [Hb _].
      pose proof (proj1 (Forall_forall _ _) Hb x Hx) as Hb'.
      unfold before in Hb'. lia.
  - left. destruct (Hvalid q) as (? & ? & ?);
      [by apply elem_of_app; right; apply list_elem_of_here|].
    apply elem_of_app in Hx as [Hx|Hx].
    + pose proof (StronglySorted_app_1_elem_of _ _ _ x q Hs Hx
                    (list_elem_of_here _ _)) as Hb.
      unfold before in Hb. lia.
    + apply list_elem_of_singleton in Hx as ->. lia.
Qed.

(** Appending a placed visit and sorting, as the rescue pass does, keeps a
    timetable. *)
Lemma rescued_timetable location s daily_start daily_end e :
  valid_hhmm daily_start → valid_hhmm daily_end → valid_location location →
  0 < duration location → timetable s →
  schedule_single_location location s daily_start daily_end = Some e →
  timetable (sort_by_start_time (s ++ [e])).
Proof.
  intros Hds Hde Hloc Hdur Ht Hssl.
  destruct (placement_position _ _ _ _ _ Hds Hde Hloc Hdur (proj1 Ht) Hssl)
    as (_ & Hve & _ & Hpos).
  rewrite sort_by_start_time_snoc, sort_by_start_time_timetable by done.
  apply insert_by_start_timetable; [done..|].
  by eapply position_clear.
Qed.
End ordering_facts.

(** ** The group scheduler builds a tight schedule *)

Section scheduler_order.
Context `{Geodesy}.
Implicit Types (loc next : Location) (e : ScheduleEntry)
  (s : list ScheduleEntry) (st : SchedState) (cluster : list Location).

Lemma Sorted_app_r {A} (R : relation A) (l1 l2 : list A) :
  Sorted R (l1 ++ l2) → Sorted R l2.
Proof.
  induction l1 as [|x l1 IH]; [done|]. simpl. intros Hs.
  apply Sorted_inv in Hs as [Hs _]. by apply IH.
Qed.

Lemma set_reason_same_visit why e : same_visit e (set_reason why e).
Proof. done. Qed.

Lemma sched_body_steady daily_start daily_end st c cs :
  valid_hhmm daily_start → valid_hhmm daily_end →
  st_cluster st = c :: cs → steady daily_start st →
  steady daily_start (sched_body daily_start daily_end st c cs).
Proof.
  intros Hds Hde Hc ([Hv Hs] & Hplan & Hfirst).
  pose proof (select_next_elem st c cs) as Hin.
  pose proof (@list_remove_first_subseteq _ _ (select_next st c cs).1 (c :: cs)) as Hsub.
  destruct (sched_body_cases daily_start daily_end st c cs)
    as [Hcl [(e & He & Hsched & _)|(_ & Hsched & _)]];
    rewrite Hc in Hplan, Hfirst.
  2: { unfold steady. rewrite Hsched, Hcl. split; [done|]. split.
       - apply Forall_forall. intros x Hx.
         apply (proj1 (Forall_forall _ _) Hplan), Hsub, Hx.
       - intros first x Hhd Hx. by apply Hfirst, Hsub. }
  destruct (proj1 (Forall_forall _ _) Hplan _ Hin) as [Hloc Hdur].
  destruct (placement_position _ _ _ _ _ Hds Hde Hloc Hdur Hv He)
    as (_ & Hve & Hspan & Hpos).
  pose proof Hve as (? & ? & ?).
  set (e' := set_reason (select_next st c cs).2 e) in *.
  assert (valid_entry e') as Hve' by done.
  unfold steady. rewrite Hsched, Hcl.
  assert (Forall plannable (list_remove_first (select_next st c cs).1 (c :: cs))) as Hplan'.
  { apply Forall_forall. intros x Hx.
    apply (proj1 (Forall_forall _ _) Hplan), Hsub, Hx. }
  destruct Hpos as [Hnil Hstart|first rest Heq Hstart Hend
                   |s1 q x s2 Heq Hstart Hend|s1 q Heq Hstart].
  - rewrite Hnil. simpl. split; [split; by repeat constructor|]. split; [done|].
    intros first x [= <-] Hx. change (start_time e') with (start_time e).
    rewrite Hstart.
    pose proof (select_next_earliest st c cs x Hnil (Hsub _ Hx)). lia.
  - exfalso. specialize (Hfirst first _ ltac:(by rewrite Heq) Hin). lia.
  - exfalso. rewrite Heq in Hs. apply Sorted_app_r, Sorted_inv in Hs as [_ Hhd].
    apply HdRel_inv in Hhd. unfold meets in Hhd. lia.
  - split; [split|split; [done|]].
    + apply Forall_app. split; [done|by constructor].
    + apply Sorted_snoc; [done|]. rewrite Heq. by constructor.
    + intros first x Hhd Hx. apply Hfirst; [|by apply Hsub].
      rewrite Heq in Hhd |- *. by destruct s1.
Qed.

Lemma sched_run_steady cluster daily_start daily_end :
  valid_hhmm daily_start → valid_hhmm daily_end → Forall plannable cluster →
  steady daily_start (sched_run cluster daily_start daily_end).
Proof.
  intros Hds Hde Hplan. unfold sched_run. apply sched_loop_invariant.
  - intros st c cs. by apply sched_body_steady.
  - split; [split; constructor|]. split; [done|]. by intros first c [=].
Qed.

Lemma schedule_cluster_timetable cluster daily_start daily_end :
  valid_hhmm daily_start → valid_hhmm daily_end → Forall plannable cluster →
  timetable (schedule (schedule_cluster_with_priorities cluster daily_start daily_end)).
Proof.
  intros Hds Hde Hplan.
  destruct (sched_run_steady cluster daily_start daily_end Hds Hde Hplan) as [Ht _].
  eapply timetable_same_visit; [apply annotate_proximity_same_visit|].
  by apply tight_timetable.
Qed.

(** What the group scheduler does guarantee about hours, for plannable
    locations: every entry lies in the daily window and ends by the closing
    time of its location.  (Its start may precede the opening time.) *)
Lemma schedule_cluster_within cluster daily_start daily_end :
  valid_hhmm daily_start → valid_hhmm daily_end → Forall plannable cluster →
  Forall (λ e, ∃ loc, loc ∈ cluster
                      ∧ within_day_and_closing daily_start daily_end loc e)
    (schedule (schedule_cluster_with_priorities cluster daily_start daily_end)).
Proof.
  intros Hds Hde Hplan.
  assert (steady daily_start (sched_run cluster daily_start daily_end)
          ∧ Forall (λ e, ∃ loc, loc ∈ cluster
                          ∧ within_day_and_closing daily_start daily_end loc e)
              (st_schedule (sched_run cluster daily_start daily_end))
          ∧ st_cluster (sched_run cluster daily_start daily_end) ⊆ cluster)
    as (_ & Hw & _).
  { unfold sched_run.
    apply (sched_loop_invariant (λ st,
             steady daily_start st
             ∧ Forall (λ e, ∃ loc, loc ∈ cluster
                             ∧ within_day_and_closing daily_start daily_end loc e)
                 (st_schedule st)
             ∧ st_cluster st ⊆ cluster)).
    2: { split; [|split; [constructor|done]].
         split; [split; constructor|]. split; [done|]. by intros first c [=]. }
    intros st c cs Hc (Hsteady & Hw & Hsub).
    split; [by apply sched_body_steady|].
    destruct Hsteady as ([Hv Hs] & Hplan' & _).
    pose proof (select_next_elem st c cs) as Hin.
    pose proof (@list_remove_first_subseteq _ _ (select_next st c cs).1 (c :: cs)) as Hrem.
    rewrite Hc in Hsub, Hplan'.
    destruct (sched_body_cases daily_start daily_end st c cs)
      as [Hcl [(e & He & Hsched & _)|(_ & Hsched & _)]]; rewrite Hsched, Hcl.
    2: { split; [done|]. intros x Hx. by apply Hsub, Hrem. }
    split; [|intros x Hx; by apply Hsub, Hrem].
    apply Forall_app. split; [done|]. constructor; [|constructor].
    exists (select_next st c cs).1. split; [by apply Hsub|].
    destruct (proj1 (Forall_forall _ _) Hplan' _ Hin) as [Hloc Hdur].
    destruct (placement_position _ _ _ _ _ Hds Hde Hloc Hdur Hv He)
      as (Hof & (? & ? & ?) & Hspan & Hpos).
    unfold within_day_and_closing.
    change (start_time (set_reason _ e)) with (start_time e).
    change (end_time (set_reason _ e)) with (end_time e).
    split; [done|]. split; [done|].
    destruct Hpos as [_ Hstart Hend|first rest _ Hstart _ Hend
                     |s1 q x s2 Heq Hstart Hend|s1 q Heq Hstart Hend].
    - split; [lia|done].
    - split; [lia|done].
    - exfalso. rewrite Heq in Hs. apply Sorted_app_r, Sorted_inv in Hs as [_ Hhd].
      apply HdRel_inv in Hhd. unfold meets in Hhd. lia.
    - split; [|done].
      assert (q ∈ st_schedule st) as Hq.
      { rewrite Heq. apply elem_of_app. right. apply list_elem_of_here. }
      destruct (proj1 (Forall_forall _ _) Hw q Hq) as (loc & _ & _ & _ & Hqs & _).
      destruct (proj1 (Forall_forall _ _) Hv q Hq) as (_ & ? & _). lia. }
  apply Forall_lookup. intros i e' Hi. simpl in Hi.
  apply annotate_proximity_lookup in Hi as (e & Hi & (Hn & Hc & Hs & He)).
  destruct (Forall_lookup_1 _ _ _ _ Hw Hi) as (loc & Hloc & [Hn' Hc'] & ? & ? & ?).
  exists loc. split; [done|]. unfold within_day_and_closing, entry_of.
  rewrite <- Hn, <- Hc, <- Hs, <- He. done.
Qed.

Lemma schedule_cluster_unvisitable_subseteq cluster daily_start daily_end :
  unvisitable (schedule_cluster_with_priorities cluster daily_start daily_end) ⊆ cluster.
Proof.
  destruct (schedule_cluster_partition cluster daily_start daily_end)
    as (placed & _ & Hperm).
  intros x Hx. rewrite <- Hperm. apply elem_of_app. by right.
Qed.
End scheduler_order.

(** ** The rescue pass *)

Section rescue_facts.
Context `{Geodesy}.
Implicit Types (loc location : Location) (e : ScheduleEntry)
  (clusters : list (nat * GroupResult)) (locations : list Location).

#[local] Instance grown_refl : Reflexive grown.
Proof. by intros [cid g]. Qed.

#[local] Instance grown_trans : Transitive grown.
Proof. intros a b c [? ?] [? ?]. split; [congruence|by etrans]. Qed.

(** The first cluster that takes the location gets one more entry; the
    others stay as they are. *)
Lemma try_clusters_Some location clusters daily_start daily_end clusters' :
  try_clusters location clusters daily_start daily_end = Some clusters' →
  ∃ pre cluster_id g post e,
    clusters = pre ++ (cluster_id, g) :: post
    ∧ Forall (λ c, schedule_single_location location (schedule c.2)
                     daily_start daily_end = None) pre
    ∧ schedule_single_location location (schedule g) daily_start daily_end = Some e
    ∧ clusters' = pre ++ (cluster_id,
                          {| schedule := sort_by_start_time (schedule g ++ [e]);
                             unvisitable := unvisitable g |}) :: post.
Proof.
  revert clusters'. induction clusters as [|[cid g] rest IH]; intros clusters' Htry; [done|].
  simpl in Htry.
  destruct (schedule_single_location location (schedule g) daily_start daily_end)
    as [e|] eqn:He.
  - injection Htry as <-. by exists [], cid, g, rest, e.
  - destruct (try_clusters location rest daily_start daily_end) as [rest'|]; [|done].
    injection Htry as <-.
    destruct (IH rest' eq_refl) as (pre & cid' & g' & post & e & -> & Hpre & He' & ->).
    exists ((cid, g) :: pre), cid', g', post, e. repeat split; try done.
    by constructor.
Qed.

Lemma try_clusters_None location clusters daily_start daily_end :
  try_clusters location clusters daily_start daily_end = None →
  Forall (λ c, schedule_single_location location (schedule c.2)
                 daily_start daily_end = None) clusters.
Proof.
  induction clusters as [|[cid g] rest IH]; intros Htry; [done|]. simpl in Htry.
  destruct (schedule_single_location location (schedule g) daily_start daily_end)
    eqn:He; [done|].
  destruct (try_clusters location rest daily_start daily_end); [done|].
  constructor; [done|by apply IH].
Qed.

Lemma total_scheduled_app clusters1 clusters2 :
  total_scheduled (clusters1 ++ clusters2)
  = (total_scheduled clusters1 + total_scheduled clusters2)%nat.
Proof. unfold total_scheduled. by rewrite sum_list_with_app. Qed.

Lemma try_clusters_grown location clusters daily_start daily_end clusters' :
  try_clusters location clusters daily_start daily_end = Some clusters' →
  Forall2 grown clusters clusters'
  ∧ total_scheduled clusters' = S (total_scheduled clusters).
Proof.
  intros Htry.
  destruct (try_clusters_Some _ _ _ _ _ Htry)
    as (pre & cid & g & post & e & -> & _ & _ & ->).
  split.
  - apply Forall2_app; [by apply Forall_Forall2_diag, Forall_forall|].
    constructor; [|by apply Forall_Forall2_diag, Forall_forall].
    split; [done|]. simpl. rewrite sort_by_start_time_perm.
    by apply submseteq_inserts_r.
  - rewrite !total_scheduled_app. unfold total_scheduled. simpl.
    rewrite (Permutation_length (sort_by_start_time_perm _)), length_app. simpl. lia.
Qed.

Lemma try_clusters_timetables location clusters daily_start daily_end clusters' :
  valid_hhmm daily_start → valid_hhmm daily_end → plannable location →
  all_timetables clusters →
  try_clusters location clusters daily_start daily_end = Some clusters' →
  all_timetables clusters'.
Proof.
  intros Hds Hde [Hloc Hdur] Hall Htry.
  destruct (try_clusters_Some _ _ _ _ _ Htry)
    as (pre & cid & g & post & e & -> & _ & He & ->).
  unfold all_timetables in *.
  apply Forall_app in Hall as [Hpre Hall]. apply Forall_cons in Hall as [Hg Hpost].
  apply Forall_app. split; [done|]. constructor; [|done]. simpl in *.
  exact (rescued_timetable location _ daily_start daily_end e Hds Hde Hloc Hdur Hg He).
Qed.

(** The loop over the leftover locations. *)
Lemma rescue_loop_spec locations clusters acc daily_start daily_end :
  let '(clusters', unv') := rescue_loop locations clusters acc daily_start daily_end in
  Forall2 grown clusters clusters'
  ∧ ∃ kept, unv' = acc ++ kept ∧ sublist kept locations
            ∧ (total_scheduled clusters' + length kept
               = total_scheduled clusters + length locations)%nat.
Proof.
  revert clusters acc. induction locations as [|location rest IH]; intros clusters acc.
  { simpl. split; [by apply Forall_Forall2_diag, Forall_forall|].
    exists []. by rewrite app_nil_r. }
  simpl. destruct (try_clusters location clusters daily_start daily_end)
    as [clusters1|] eqn:Htry.
  - destruct (try_clusters_grown _ _ _ _ _ Htry) as [Hgrown Htotal].
    specialize (IH clusters1 acc).
    destruct (rescue_loop rest clusters1 acc daily_start daily_end) as [clusters' unv'].
    destruct IH as [Hgrown' (kept & -> & Hsub & Hcount)]. split.
    + eapply Forall2_trans; [|exact Hgrown|exact Hgrown']. intros ???. apply grown_trans.
    + exists kept. split; [done|]. split; [by apply sublist_cons|]. lia.
  - specialize (IH clusters (acc ++ [location])).
    destruct (rescue_loop rest clusters (acc ++ [location]) daily_start daily_end)
      as [clusters' unv'].
    destruct IH as [Hgrown' (kept & -> & Hsub & Hcount)]. split; [done|].
    exists (location :: kept). split; [by rewrite <- app_assoc|].
    split; [by apply sublist_skip|]. simpl. lia.
Qed.

Lemma rescue_loop_timetables locations clusters acc daily_start daily_end :
  valid_hhmm daily_start → valid_hhmm daily_end → Forall plannable locations →
  all_timetables clusters →
  all_timetables (rescue_loop locations clusters acc daily_start daily_end).1.
Proof.
  intros Hds Hde Hplan. revert clusters acc.
  induction Hplan as [|location rest Hloc _ IH]; intros clusters acc Hall; [done|].
  simpl. destruct (try_clusters location clusters daily_start daily_end)
    as [clusters1|] eqn:Htry.
  - apply IH.
    exact (try_clusters_timetables location clusters daily_start daily_end clusters1
             Hds Hde Hloc Hall Htry).
  - by apply IH.
Qed.

(** With the default number of passes every search returns its first
    attempt, and the scheduling stage hands these to the rescue pass. *)
Lemma schedule_stage_unfold (best_clusters : list (nat * list Location))
    daily_start daily_end :
  let grouped :=
    (λ c : nat * list Location,
       (c.1, schedule_cluster_with_priorities c.2 daily_start daily_end))
      <$> best_clusters in
  schedule_stage best_clusters daily_start daily_end
  = Some (handle_unvisitable (concat ((λ g, unvisitable g.2) <$> grouped)) grouped
            daily_start daily_end).
Proof.
  cbn zeta. unfold schedule_stage.
  assert (mapM (λ '(cluster_id, r), (cluster_id,.) <$> r)
            (parallel_schedule_clusters best_clusters daily_start daily_end)
          = Some ((λ c : nat * list Location,
                     (c.1, schedule_cluster_with_priorities c.2 daily_start daily_end))
                    <$> best_clusters)) as ->.
  { apply mapM_Some. unfold parallel_schedule_clusters.
    apply Forall2_fmap. apply Forall_Forall2_diag, Forall_forall.
    intros [cid locs] _. simpl. unfold iterative_schedule_cluster, default_max_iterations.
    by rewrite (iterative_search_constant _
                 (schedule_cluster_with_priorities (slice_copy locs) daily_start daily_end)). }
  simpl. do 3 f_equal. apply list_fmap_ext. by intros ? [? ?].
Qed.
End rescue_facts.

(** ** Grouping the locations by label *)

Section routes_facts.
Context `{Geodesy}.
Implicit Types (loc : Location) (pts : list Location) (d : list (string * Location))
  (bc clusters : list (list Location)).

Lemma dict_set_fresh k v d : k ∉ d.*1 → dict_set k v d = d ++ [(k, v)].
Proof.
  induction d as [|[k' v'] r IH]; intros Hk; simpl; [done|].
  simpl in Hk. apply not_elem_of_cons in Hk as [Hne Hk].
  rewrite decide_False by done. by rewrite IH.
Qed.

Lemma fold_dict_set_fresh pts d :
  NoDup (d.*1 ++ (name <$> pts)) →
  fold_left (λ d loc, dict_set (name loc) loc d) pts d
  = d ++ ((λ loc, (name loc, loc)) <$> pts).
Proof.
  revert d. induction pts as [|loc pts IH]; intros d Hnd; simpl.
  { by rewrite app_nil_r. }
  simpl in Hnd. apply NoDup_app in Hnd as Hnd'. destruct Hnd' as (Hd & Hdisj & Hpts).
  rewrite dict_set_fresh.
  - rewrite IH; [by rewrite <- app_assoc|].
    rewrite fmap_app, <- app_assoc. done.
  - intros Hin. apply (Hdisj _ Hin), list_elem_of_here.
Qed.

(** With unique names the dictionary lists the points in their order. *)
Lemma locations_of_unique pts :
  NoDup (name <$> pts) → locations_of pts = (λ loc, (name loc, loc)) <$> pts.
Proof. intros Hnd. unfold locations_of. by rewrite fold_dict_set_fresh. Qed.

Lemma dict_get_unique k v d : NoDup d.*1 → (k, v) ∈ d → dict_get k d = Some v.
Proof.
  induction d as [|[k' v'] r IH]; intros Hnd Hin; [by apply elem_of_nil in Hin|].
  simpl in *. apply NoDup_cons in Hnd as [Hk' Hnd].
  apply elem_of_cons in Hin as [[= -> ->]|Hin].
  - by rewrite decide_True.
  - rewrite decide_False; [by apply IH|].
    intros ->. apply Hk'. apply list_elem_of_fmap. by exists (k, v).
Qed.

Lemma concat_insert_snoc bc c g x :
  bc !! c = Some g → concat (<[c := g ++ [x]]> bc) ≡ₚ x :: concat bc.
Proof.
  intros Hc. rewrite insert_take_drop by (by eapply lookup_lt_Some).
  rewrite <- (take_drop_middle bc c g Hc) at 3.
  rewrite !concat_app, !concat_cons.
  rewrite (Permutation_middle (concat (take c bc)) (g ++ concat (drop (S c) bc)) x).
  apply Permutation_app_head. rewrite <- app_assoc. simpl.
  symmetry. apply Permutation_middle.
Qed.

(** The grouping loop, for pairs that name entries of the dictionary and
    carry labels in range. *)
Lemma fill_clusters_spec d pairs bc (vals : list Location) :
  Forall2 (λ p v, dict_get p.1 d = Some v ∧ (p.2 < length bc)%nat) pairs vals →
  ∃ bc', fill_clusters d pairs bc = Some bc'
         ∧ length bc' = length bc
         ∧ concat bc' ≡ₚ concat bc ++ vals.
Proof.
  intros Hpairs. revert bc Hpairs.
  induction pairs as [|[nm c] rest IH] in vals |- *; intros bc Hpairs.
  { apply Forall2_nil_inv_l in Hpairs as ->. exists bc. by rewrite app_nil_r. }
  apply Forall2_cons_inv_l in Hpairs as (v & vals' & [Hget Hlt] & Hrest & ->).
  simpl in *. rewrite Hget. simpl.
  destruct (lookup_lt_is_Some_2 bc c Hlt) as [g Hg]. rewrite Hg. simpl.
  destruct (IH vals' (<[c := g ++ [v]]> bc)) as (bc' & -> & Hlen & Hperm).
  { eapply Forall2_impl; [exact Hrest|]. intros p w [? ?].
    by rewrite length_insert. }
  exists bc'. split; [done|]. rewrite length_insert in Hlen. split; [done|].
  rewrite Hperm, concat_insert_snoc by done. apply Permutation_middle.
Qed.

Lemma concat_replicate_nil {A} (k : nat) : concat (replicate k (@nil A)) = [].
Proof. induction k; simpl; done. Qed.

Lemma group_by_labels_spec pts labels k :
  NoDup (name <$> pts) → length labels = length pts →
  Forall (λ c, (c < k)%nat) labels →
  ∃ clusters, group_by_labels (locations_of pts) labels k = Some clusters
              ∧ length clusters = k ∧ concat clusters ≡ₚ pts.
Proof.
  intros Hnd Hlen Hrange. unfold group_by_labels.
  rewrite locations_of_unique by done.
  set (d := (λ loc, (name loc, loc)) <$> pts).
  assert (d.*1 = name <$> pts) as Hkeys.
  { unfold d. rewrite <- list_fmap_compose. done. }
  rewrite Hkeys.
  destruct (fill_clusters_spec d (zip (name <$> pts) labels) (replicate k []) pts)
    as (clusters & -> & Hl & Hperm).
  - apply Forall2_same_length_lookup_2.
    { rewrite length_zip_with, length_fmap. lia. }
    intros i [nm c] loc Hi Hloc.
    apply lookup_zip_with_Some in Hi as (nm' & c' & [= <- <-] & Hnm & Hc).
    rewrite list_lookup_fmap, Hloc in Hnm. injection Hnm as <-. simpl. split.
    + apply dict_get_unique; [by rewrite Hkeys|].
      unfold d. apply list_elem_of_fmap. exists loc. split; [done|].
      by eapply list_elem_of_lookup_2.
    + rewrite length_replicate.
      by apply (proj1 (Forall_lookup _ _) Hrange i).
  - exists clusters. split; [done|]. rewrite length_replicate in Hl. split; [done|].
    by rewrite Hperm, concat_replicate_nil.
Qed.

Lemma elem_of_concat_2 {A} (x : A) (g : list A) (ls : list (list A)) :
  g ∈ ls → x ∈ g → x ∈ concat ls.
Proof.
  induction ls as [|g0 rest IH]; intros Hg Hx; [by apply elem_of_nil in Hg|].
  simpl. apply elem_of_app. apply elem_of_cons in Hg as [->|Hg]; [by left|].
  right. by apply IH.
Qed.

Lemma elem_of_concat_1 {A} (x : A) (ls : list (list A)) :
  x ∈ concat ls → ∃ g, g ∈ ls ∧ x ∈ g.
Proof.
  induction ls as [|g0 rest IH]; intros Hx; [by apply elem_of_nil in Hx|].
  simpl in Hx. apply elem_of_app in Hx as [Hx|Hx].
  - exists g0. split; [apply list_elem_of_here|done].
  - destruct (IH Hx) as (g & Hg & Hxg). exists g.
    split; [by apply list_elem_of_further|done].
Qed.

(** Groups whose contents are, together, the points without repetition
    split them. *)
Lemma concat_partition pts clusters :
  NoDup pts → concat clusters ≡ₚ pts → partition_of pts clusters.
Proof.
  intros Hnd Hperm. split; [done|]. intros loc Hloc.
  rewrite <- Hperm in Hloc, Hnd. clear Hperm pts.
  induction clusters as [|g0 rest IH]; [by apply elem_of_nil in Hloc|].
  simpl in Hloc, Hnd. apply NoDup_app in Hnd as (Hg0 & Hdisj & Hrest).
  apply elem_of_app in Hloc as [Hloc|Hloc].
  - exists 0%nat. split; [by exists g0|]. intros [|j] g Hj Hin; [done|]. exfalso.
    apply (Hdisj _ Hloc). apply (elem_of_concat_2 _ g); [|done].
    by eapply list_elem_of_lookup_2.
  - destruct (IH Hrest Hloc) as (i & (g & Hg & Hin) & Huniq).
    exists (S i). split; [by exists g|]. intros [|j] g' Hj Hin'.
    + injection Hj as <-. exfalso. by apply (Hdisj _ Hin').
    + f_equal. by eapply Huniq.
Qed.

Lemma NoDup_names pts : NoDup (name <$> pts) → NoDup pts.
Proof. apply NoDup_fmap_1. Qed.

Lemma select_best_accepted d k results score best clusters run :
  select_best d k results score best = Some (Some (clusters, run)) →
  best = Some (clusters, run)
  ∨ (run ∈ results ∧ group_by_labels d (run_labels run) k = Some clusters).
Proof.
  revert score best. induction results as [|r rest IH]; intros score best Hsel; simpl in Hsel.
  { left. congruence. }
  destruct (f_lt score (composite_score r)).
  - destruct (group_by_labels d (run_labels r) k) as [cl|] eqn:Hg; [|done]. simpl in Hsel.
    destruct (IH _ _ Hsel) as [[= <- <-]|[Hin Hgr]]; right.
    + split; [apply list_elem_of_here|done].
    + split; [by apply list_elem_of_further|done].
  - destruct (IH _ _ Hsel) as [?|[Hin Hgr]]; [by left|right].
    split; [by apply list_elem_of_further|done].
Qed.

Lemma select_best_total d k results score best :
  Forall (λ run, is_Some (group_by_labels d (run_labels run) k)) results →
  is_Some (select_best d k results score best).
Proof.
  intros Hall. revert score best.
  induction Hall as [|r rest [cl Hcl] _ IH]; intros score best; simpl; [done|].
  destruct (f_lt score (composite_score r)); [|apply IH].
  rewrite Hcl. simpl. apply IH.
Qed.

(** The validation of [cluster_data]. *)
Lemma cluster_data_rejected results data :
  (∃ e, cluster_data results data = Rejected e)
  ↔ num_clusters data < 1 ∨ Z.of_nat (length (points data)) < num_clusters data.
Proof.
  unfold cluster_data.
  destruct (Z.ltb_spec (num_clusters data) 1) as [Hlow|Hlow].
  { split; [by left|]. intros _. by eexists. }
  destruct (Z.ltb_spec (Z.of_nat (length (points data))) (num_clusters data)) as [Hhigh|Hhigh].
  { split; [by right|]. intros _. by eexists. }
  split; [|lia]. intros [e He]. repeat case_match; done.
Qed.
End routes_facts.

(** ** The centroid update *)

Section clustering_facts.
Local Open Scope Q_scope.
Variable norm : list Q → Q.
Implicit Types (data centroids : list (list Q)) (ws : list Q).

Lemma penalty_weight_floor penalty_threshold penalty_factor distance :
  1 # 100 <= penalty_weight penalty_threshold penalty_factor distance.
Proof. unfold penalty_weight. apply Q.le_max_r. Qed.

Lemma cluster_weights_floor penalty_threshold penalty_factor cluster_points centroid :
  Forall (λ w, 1 # 100 <= w)
    (cluster_weights norm penalty_threshold penalty_factor cluster_points centroid).
Proof.
  unfold cluster_weights. apply Forall_fmap, Forall_forall. intros p _.
  apply penalty_weight_floor.
Qed.

Lemma sum_weights_nonneg ws : Forall (λ w, 1 # 100 <= w) ws → 0 <= sum_weights ws.
Proof.
  induction 1 as [|w ws Hw _ IH]; [done|].
  change (sum_weights (w :: ws)) with (w + sum_weights ws). lra.
Qed.

Lemma sum_weights_positive ws :
  ws ≠ [] → Forall (λ w, 1 # 100 <= w) ws → 0 < sum_weights ws.
Proof.
  intros Hne Hall. destruct Hall as [|w ws Hw Hall]; [done|].
  pose proof (sum_weights_nonneg ws Hall).
  change (sum_weights (w :: ws)) with (w + sum_weights ws). lra.
Qed.

Lemma checked_div_positive x y : 0 < y → checked_div x y = Some (x / y).
Proof.
  intros Hy. unfold checked_div.
  destruct (Qeq_bool y 0) eqn:Hz; [|done].
  apply Qeq_bool_iff in Hz. rewrite Hz in Hy. by apply Qlt_irrefl in Hy.
Qed.

Lemma cluster_weights_length penalty_threshold penalty_factor cluster_points centroid :
  length (cluster_weights norm penalty_threshold penalty_factor cluster_points centroid)
  = length cluster_points.
Proof. unfold cluster_weights. by rewrite length_fmap. Qed.

Lemma new_centroid_total data (cluster_assignments : list nat)
    penalty_threshold penalty_factor c centroid :
  is_Some (new_centroid norm data cluster_assignments penalty_threshold penalty_factor
             c centroid).
Proof.
  unfold new_centroid.
  destruct (cluster_members data cluster_assignments c) as [|p ps] eqn:Hm; [done|].
  apply mapM_is_Some, Forall_forall. intros x _. unfold compose.
  rewrite checked_div_positive; [done|].
  apply sum_weights_positive; [|apply cluster_weights_floor].
  intros Hnil. apply (f_equal length) in Hnil.
  by rewrite cluster_weights_length in Hnil.
Qed.

Lemma new_centroid_empty data (cluster_assignments : list nat)
    penalty_threshold penalty_factor c centroid :
  cluster_members data cluster_assignments c = [] →
  new_centroid norm data cluster_assignments penalty_threshold penalty_factor c centroid
  = Some centroid.
Proof. unfold new_centroid. by intros ->. Qed.

Lemma compute_new_centroids_spec data (cluster_assignments : list nat) centroids
    penalty_threshold penalty_factor :
  ∃ new, compute_new_centroids norm data cluster_assignments centroids
           penalty_threshold penalty_factor = Some new
         ∧ length new = length centroids
         ∧ ∀ c centroid, centroids !! c = Some centroid →
             cluster_members data cluster_assignments c = [] →
             new !! c = Some centroid.
Proof.
  unfold compute_new_centroids.
  destruct (mapM _ _) as [new|] eqn:Hnew.
  - exists new. split; [done|]. apply mapM_Some in Hnew.
    split. { apply Forall2_length in Hnew. by rewrite length_imap in Hnew. }
    intros c centroid Hc Hempty.
    destruct (Forall2_lookup_l _ _ _ c (c, centroid) Hnew) as (y & Hy & Hf).
    { rewrite list_lookup_imap, Hc. done. }
    simpl in Hf. rewrite new_centroid_empty in Hf by done. congruence.
  - exfalso. apply mapM_None in Hnew. apply Exists_exists in Hnew as ([c centroid] & _ & Hf).
    pose proof (new_centroid_total data cluster_assignments penalty_threshold
                  penalty_factor c centroid) as [? Hs].
    simpl in Hf. congruence.
Qed.

Lemma argmin_from_bound best_i best i l :
  (best_i < i)%nat → (argmin_from best_i best i l < i + length l)%nat.
Proof.
  revert best_i best i. induction l as [|x r IH]; intros best_i best i Hlt; simpl; [lia|].
  destruct (Qlt_le_dec x best).
  - specialize (IH i x (S i)). lia.
  - specialize (IH best_i best (S i)). lia.
Qed.

(** The labels of an assignment step: one per point, each below the number of
    centroids. *)
Lemma assign_clusters_range data centroids :
  centroids ≠ [] →
  ∃ labels, assign_clusters norm data centroids = Some labels
            ∧ length labels = length data
            ∧ Forall (λ c, (c < length centroids)%nat) labels.
Proof.
  intros Hne. unfold assign_clusters.
  destruct centroids as [|c0 cs]; [done|]. eexists. split; [done|].
  rewrite length_fmap. split; [done|].
  apply Forall_fmap, Forall_forall. intros p _. unfold compose.
  rewrite fmap_cons. unfold argmin.
  cbn [length].
  pose proof (argmin_from_bound 0 (norm (vsub p c0)) 1
                ((λ c, norm (vsub p c)) <$> cs)) as Hb.
  rewrite length_fmap in Hb. lia.
Qed.
End clustering_facts.

(** ** Exceptions: what is returned is what the first embedding gives *)

Lemma agrees_returned {A : Type} (a : A) : agrees (Returned a) a.
Proof. by intros r [= <-]. Qed.

Lemma agrees_raised {A : Type} (e : Exception) (a : A) : agrees (Raised e) a.
Proof. by intros r. Qed.

Lemma bind_of_returned {A B : Type} (a : A) (f : A → Result B) :
  Returned a ≫= f = f a.
Proof. done. Qed.

Lemma bind_returned {A B : Type} (m : Result A) (f : A → Result B) (r : B) :
  m ≫= f = Returned r → ∃ x, m = Returned x ∧ f x = Returned r.
Proof. destruct m as [x|e]; [|done]. intros Hf. by exists x. Qed.

Lemma agrees_bind {A B : Type} (m : Result A) (f : A → Result B) (a : A) (b : B) :
  agrees m a → agrees (f a) b → agrees (m ≫= f) b.
Proof.
  intros Hm Hf r Hr. apply bind_returned in Hr as (x & Hx & Hr).
  apply Hm in Hx as ->. by apply Hf.
Qed.

Lemma mapM_agrees {A B : Type} (f : A → Result B) (g : A → B) (l : list A) :
  (∀ x, agrees (f x) (g x)) → agrees (mapM f l) (g <$> l).
Proof.
  intros Hf. induction l as [|x l IH]; [apply agrees_returned|].
  cbn [mapM]. apply agrees_bind with (g x); [apply Hf|].
  apply agrees_bind with (g <$> l); [apply IH|]. apply agrees_returned.
Qed.

Lemma mapM_returns {A B : Type} (f : A → Result B) (g : A → B) (l : list A) :
  (∀ x, x ∈ l → f x = Returned (g x)) → mapM f l = Returned (g <$> l).
Proof.
  induction l as [|x l IH]; intros Hf; [done|].
  cbn [mapM]. rewrite (Hf x) by apply list_elem_of_here.
  cbn. rewrite IH; [done|]. intros y Hy. by apply Hf, list_elem_of_further.
Qed.

Lemma strptime_exn_agrees (s : hhmm) : agrees (strptime_exn s) (strptime s).
Proof. unfold strptime_exn. case_decide; [apply agrees_returned|apply agrees_raised]. Qed.

Lemma strptime_exn_valid (s : hhmm) : valid_hhmm s → strptime_exn s = Returned s.
Proof. intros Hs. unfold strptime_exn. by rewrite decide_True. Qed.

Lemma datetime_add_agrees (t : datetime) (h : Z) :
  agrees (datetime_add t h) (t + timedelta_hours h).
Proof. unfold datetime_add. case_decide; [apply agrees_returned|apply agrees_raised]. Qed.

Lemma datetime_add_in_range (t : datetime) (h : Z) :
  in_datetime_range (t + timedelta_hours h) →
  datetime_add t h = Returned (t + timedelta_hours h).
Proof. intros Hr. unfold datetime_add. by rewrite decide_True. Qed.

(** A duration that can be added to 00:00 and to 23:59 can be added to
    every time of day. *)
Lemma addable_in_range (t : hhmm) (h : Z) :
  addable h → valid_hhmm t → in_datetime_range (t + timedelta_hours h).
Proof.
  unfold addable, in_datetime_range, valid_hhmm, minutes_per_day.
  intros [[? ?] [? ?]] [? ?]. lia.
Qed.

Lemma datetime_add_addable (t : hhmm) (h : Z) :
  addable h → valid_hhmm t → datetime_add t h = Returned (t + timedelta_hours h).
Proof. intros. by apply datetime_add_in_range, addable_in_range. Qed.

Lemma strftime_is_valid (t : datetime) : valid_hhmm (strftime t).
Proof. unfold valid_hhmm, strftime, minutes_per_day. apply Z.mod_pos_bound. lia. Qed.

Section exception_facts.
Context `{GeodesyDomain}.
Implicit Types (loc location next : Location) (e : ScheduleEntry)
  (s : list ScheduleEntry) (st : SchedState) (cluster : list Location).

Lemma geodesic_exn_agrees (a b : Coord) : agrees (geodesic_exn a b) (geodesic_km a b).
Proof. unfold geodesic_exn. destruct (geodesic_defined a b); [apply agrees_returned|apply agrees_raised]. Qed.

Lemma geodesic_exn_defined (a b : Coord) :
  geodesic_defined a b = true → geodesic_exn a b = Returned (geodesic_km a b).
Proof. intros Hd. unfold geodesic_exn. by rewrite Hd. Qed.

(** *** [min] *)

Lemma min_loop_exn_agrees {A K : Type} (lt : K → K → bool) (key : A → Result K)
    (key' : A → K) (best : A) (l : list A) :
  (∀ x, agrees (key x) (key' x)) →
  agrees (min_loop_exn lt key best (key' best) l) (min_from lt key' best l).
Proof.
  intros Hkey. revert best. induction l as [|x r IH]; intros best.
  - apply agrees_returned.
  - cbn [min_loop_exn min_from]. apply agrees_bind with (key' x); [apply Hkey|].
    destruct (lt (key' x) (key' best)); apply IH.
Qed.

Lemma min_exn_agrees {A K : Type} (lt : K → K → bool) (key : A → Result K)
    (key' : A → K) (c : A) (cs : list A) :
  (∀ x, agrees (key x) (key' x)) →
  agrees (min_exn lt key c cs) (min_from lt key' c cs).
Proof.
  intros Hkey. unfold min_exn. apply agrees_bind with (key' c); [apply Hkey|].
  by apply min_loop_exn_agrees.
Qed.

Lemma min_loop_exn_returns {A K : Type} (lt : K → K → bool) (key : A → Result K)
    (key' : A → K) (best : A) (l : list A) :
  (∀ x, x ∈ l → key x = Returned (key' x)) →
  min_loop_exn lt key best (key' best) l = Returned (min_from lt key' best l).
Proof.
  revert best. induction l as [|x r IH]; intros best Hkey; [done|].
  cbn [min_loop_exn min_from]. rewrite (Hkey x) by apply list_elem_of_here. cbn.
  destruct (lt (key' x) (key' best)); apply IH; intros y Hy;
    by apply Hkey, list_elem_of_further.
Qed.

Lemma min_exn_returns {A K : Type} (lt : K → K → bool) (key : A → Result K)
    (key' : A → K) (c : A) (cs : list A) :
  (∀ x, x ∈ c :: cs → key x = Returned (key' x)) →
  min_exn lt key c cs = Returned (min_from lt key' c cs).
Proof.
  intros Hkey. unfold min_exn. rewrite (Hkey c) by apply list_elem_of_here. cbn.
  apply min_loop_exn_returns. intros y Hy. by apply Hkey, list_elem_of_further.
Qed.

(** *** The placement procedure *)

Lemma scan_events_exn_agrees location s start_t end_t i events :
  agrees (scan_events_exn location s start_t end_t i events)
         (scan_events location s start_t end_t i events).
Proof.
  revert i. induction events as [|event rest IH]; intros i.
  - apply agrees_returned.
  - cbn [scan_events_exn scan_events].
    apply agrees_bind with (strptime (start_time event)); [apply strptime_exn_agrees|].
    apply agrees_bind with (strptime (end_time event)); [apply strptime_exn_agrees|].
    destruct (_ && _); [apply agrees_returned|].
    cbn zeta. case_bool_decide; [|apply IH].
    destruct (s !! (i - 1)%nat) as [prev|]; [|apply IH].
    apply agrees_bind with (strptime (end_time prev)); [apply strptime_exn_agrees|].
    apply agrees_bind
      with (strptime (end_time prev) + timedelta_hours (duration location));
      [apply datetime_add_agrees|].
    destruct (_ <=? _); [|apply IH].
    apply agrees_bind
      with (strptime (end_time prev) + timedelta_hours (duration location));
      [apply datetime_add_agrees|].
    apply agrees_returned.
Qed.

Lemma schedule_single_location_exn_agrees location s daily_start daily_end :
  agrees (schedule_single_location_exn location s daily_start daily_end)
         (schedule_single_location location s daily_start daily_end).
Proof.
  unfold schedule_single_location_exn, schedule_single_location.
  apply agrees_bind with (strptime daily_start); [apply strptime_exn_agrees|].
  apply agrees_bind with (strptime daily_end); [apply strptime_exn_agrees|].
  apply agrees_bind with (strptime (opening_hours location)); [apply strptime_exn_agrees|].
  apply agrees_bind with (strptime (closing_hours location)); [apply strptime_exn_agrees|].
  cbn zeta.
  apply agrees_bind
    with (Z.max (strptime daily_start) (strptime (opening_hours location))
          + timedelta_hours (duration location)); [apply datetime_add_agrees|].
  destruct (_ <? _); [apply agrees_returned|].
  eapply agrees_bind; [apply scan_events_exn_agrees|].
  destruct (scan_events _ _ _ _ _ _); [apply agrees_returned|].
  destruct (last s) as [last_event|].
  - apply agrees_bind with (strptime (end_time last_event)); [apply strptime_exn_agrees|].
    apply agrees_bind
      with (strptime (end_time last_event) + timedelta_hours (duration location));
      [apply datetime_add_agrees|].
    destruct (_ <=? _); [|apply agrees_returned].
    apply agrees_bind
      with (strptime (end_time last_event) + timedelta_hours (duration location));
      [apply datetime_add_agrees|].
    apply agrees_returned.
  - destruct (_ <=? _); apply agrees_returned.
Qed.

Lemma scan_events_exn_returns location s start_t end_t i events :
  addable (duration location) → Forall timed s → Forall timed events →
  scan_events_exn location s start_t end_t i events
  = Returned (scan_events location s start_t end_t i events).
Proof.
  intros Hadd Hs. revert i. induction events as [|event rest IH]; intros i Hev; [done|].
  apply Forall_cons in Hev as [[Hes Hee] Hrest].
  cbn [scan_events_exn scan_events].
  rewrite !strptime_exn_valid by done. cbn. unfold strptime at 1 2.
  destruct (_ && _); [done|].
  case_bool_decide; [|by apply IH].
  destruct (s !! (i - 1)%nat) as [prev|] eqn:Hprev; [|by apply IH].
  pose proof (Forall_lookup_1 _ _ _ _ Hs Hprev) as [_ Hpe].
  rewrite strptime_exn_valid by done. cbn.
  rewrite !datetime_add_addable by done. cbn. unfold strptime.
  destruct (_ <=? _); [done|by apply IH].
Qed.

Lemma schedule_single_location_exn_returns location s daily_start daily_end :
  valid_hhmm daily_start → valid_hhmm daily_end → well_formed location →
  Forall timed s →
  schedule_single_location_exn location s daily_start daily_end
  = Returned (schedule_single_location location s daily_start daily_end).
Proof.
  intros Hds Hde [[Hop Hcl] Hadd] Hs.
  unfold schedule_single_location_exn, schedule_single_location.
  rewrite !strptime_exn_valid by done. cbn. unfold strptime at 1 2 3 4 5 6.
  assert (valid_hhmm (Z.max daily_start (opening_hours location))) as Hstart.
  { unfold valid_hhmm in *. lia. }
  rewrite datetime_add_addable by done. cbn.
  destruct (_ <? _); [done|].
  rewrite scan_events_exn_returns by done. cbn. unfold strptime.
  destruct (scan_events _ _ _ _ _ _); [done|].
  destruct (last s) as [last_event|] eqn:Hlast; [|by destruct (_ <=? _)].
  assert (timed last_event) as [_ Hle].
  { apply (proj1 (Forall_forall _ _) Hs). by apply last_Some_elem_of. }
  rewrite strptime_exn_valid by done. cbn.
  rewrite !datetime_add_addable by done. cbn. by destruct (_ <=? _).
Qed.

(** Every entry the placement procedure returns has times of day. *)
Lemma schedule_single_location_timed location s daily_start daily_end e :
  schedule_single_location location s daily_start daily_end = Some e → timed e.
Proof.
  rewrite schedule_single_location_unfold. cbn zeta. intros He.
  repeat case_match; simplify_eq; split; apply strftime_is_valid.
Qed.

(** *** The group scheduler *)

Lemma calculate_score_exn_agrees location last_location current_time :
  agrees (calculate_score_exn location last_location current_time)
         (calculate_score location last_location current_time).
Proof.
  unfold calculate_score_exn, calculate_score.
  eapply agrees_bind; [apply geodesic_exn_agrees|].
  eapply agrees_bind; [apply strptime_exn_agrees|]. apply agrees_returned.
Qed.

Lemma select_next_exn_agrees st c cs :
  agrees (select_next_exn st c cs) (select_next st c cs).
Proof.
  unfold select_next_exn, select_next. destruct (last (st_schedule st)) as [l|].
  - eapply agrees_bind.
    { apply (min_exn_agrees f_lt _
               (λ loc, calculate_score loc l (st_current_time st))).
      intros x. apply calculate_score_exn_agrees. }
    eapply agrees_bind; [apply geodesic_exn_agrees|]. apply agrees_returned.
  - eapply agrees_bind.
    { apply (min_exn_agrees Z.ltb _ (λ x, strptime (opening_hours x))).
      intros x. apply strptime_exn_agrees. }
    apply agrees_returned.
Qed.

Lemma sched_body_exn_agrees daily_start daily_end st c cs :
  agrees (sched_body_exn daily_start daily_end st c cs)
         (sched_body daily_start daily_end st c cs).
Proof.
  unfold sched_body_exn, sched_body.
  eapply agrees_bind; [apply select_next_exn_agrees|].
  destruct (select_next st c cs) as [next why].
  eapply agrees_bind; [apply schedule_single_location_exn_agrees|].
  destruct (schedule_single_location next _ _ _) as [result|]; [|apply agrees_returned].
  eapply agrees_bind; [apply strptime_exn_agrees|]. apply agrees_returned.
Qed.

Lemma sched_loop_exn_agrees fuel daily_start daily_end st :
  agrees (sched_loop_exn fuel daily_start daily_end st)
         (sched_loop fuel daily_start daily_end st).
Proof.
  revert st. induction fuel as [|fuel IH]; intros st; [apply agrees_returned|].
  cbn [sched_loop_exn sched_loop].
  destruct (st_cluster st) as [|c cs]; [apply agrees_returned|].
  eapply agrees_bind; [apply sched_body_exn_agrees|]. apply IH.
Qed.

Lemma annotate_proximity_exn_agrees s :
  agrees (annotate_proximity_exn s) (annotate_proximity s).
Proof.
  induction s as [|e [|e' r] IH]; [apply agrees_returned..|].
  cbn [annotate_proximity_exn annotate_proximity].
  eapply agrees_bind; [apply geodesic_exn_agrees|].
  eapply agrees_bind; [apply IH|]. apply agrees_returned.
Qed.

(** What the group scheduler returns is the result of the first
    embedding. *)
Lemma schedule_cluster_exn_agrees cluster daily_start daily_end :
  agrees (schedule_cluster_with_priorities_exn cluster daily_start daily_end)
         (schedule_cluster_with_priorities cluster daily_start daily_end).
Proof.
  unfold schedule_cluster_with_priorities_exn, schedule_cluster_with_priorities.
  eapply agrees_bind; [apply strptime_exn_agrees|].
  eapply agrees_bind; [apply sched_loop_exn_agrees|].
  eapply agrees_bind; [apply annotate_proximity_exn_agrees|]. apply agrees_returned.
Qed.

(** The loop leaves with no candidate left. *)
Lemma sched_loop_exn_consumes fuel daily_start daily_end st st' :
  (length (st_cluster st) <= fuel)%nat →
  sched_loop_exn fuel daily_start daily_end st = Returned st' → st_cluster st' = [].
Proof.
  intros Hlen Hr. apply sched_loop_exn_agrees in Hr as ->.
  by apply sched_loop_consumes.
Qed.

Lemma calculate_score_exn_returns location last_location current_time :
  geodesic_defined (entry_coordinates last_location) (coordinates location) = true →
  valid_hhmm (closing_hours location) →
  calculate_score_exn location last_location current_time
  = Returned (calculate_score location last_location current_time).
Proof.
  intros Hd Hcl. unfold calculate_score_exn, calculate_score.
  rewrite geodesic_exn_defined by done. cbn.
  rewrite strptime_exn_valid by done. done.
Qed.

Lemma select_next_exn_returns cluster st c cs :
  Forall well_formed cluster → all_measurable cluster →
  quiet cluster st → st_cluster st = c :: cs →
  select_next_exn st c cs = Returned (select_next st c cs).
Proof.
  intros Hwf Hm (Ht & Hsub & Hco) Hc. rewrite Hc in Hsub.
  unfold select_next_exn, select_next.
  destruct (last (st_schedule st)) as [l|] eqn:Hlast.
  - apply last_Some_elem_of in Hlast. destruct (Hco l Hlast) as (loc0 & Hloc0 & Hl).
    rewrite (min_exn_returns f_lt _
               (λ loc, calculate_score loc l (st_current_time st))).
    + cbn. rewrite geodesic_exn_defined; [done|]. rewrite Hl. apply Hm; [done|].
      apply Hsub, min_from_elem.
    + intros x Hx. apply calculate_score_exn_returns.
      * rewrite Hl. apply Hm; [done|]. by apply Hsub.
      * apply (proj1 (Forall_forall _ _) Hwf x). by apply Hsub.
  - rewrite (min_exn_returns Z.ltb _ (λ x, strptime (opening_hours x))); [done|].
    intros x Hx. apply strptime_exn_valid.
    apply (proj1 (Forall_forall _ _) Hwf x). by apply Hsub.
Qed.

Lemma sched_body_exn_returns cluster daily_start daily_end st c cs :
  valid_hhmm daily_start → valid_hhmm daily_end →
  Forall well_formed cluster → all_measurable cluster →
  quiet cluster st → st_cluster st = c :: cs →
  sched_body_exn daily_start daily_end st c cs
  = Returned (sched_body daily_start daily_end st c cs)
  ∧ quiet cluster (sched_body daily_start daily_end st c cs).
Proof.
  intros Hds Hde Hwf Hm Hq Hc.
  pose proof (select_next_elem st c cs) as Hin.
  unfold sched_body_exn, sched_body.
  rewrite (select_next_exn_returns cluster) by done. cbn.
  destruct (select_next st c cs) as [next why]. cbn [fst snd] in *.
  destruct Hq as (Ht & Hsub & Hco).
  assert (next ∈ cluster) as Hnext by (apply Hsub; by rewrite Hc).
  rewrite schedule_single_location_exn_returns;
    [|done|done|by apply (proj1 (Forall_forall _ _) Hwf)|done]. cbn.
  assert (list_remove_first next (c :: cs) ⊆ cluster) as Hsub'.
  { intros x Hx. apply Hsub. rewrite Hc. by eapply list_remove_first_subseteq. }
  destruct (schedule_single_location next _ _ _) as [result|] eqn:Hres.
  - pose proof (schedule_single_location_timed _ _ _ _ _ Hres) as [Hrs Hre].
    rewrite strptime_exn_valid by done. cbn. split; [done|].
    split; [|split]; cbn.
    + apply Forall_app. split; [done|].
      constructor; [split; [exact Hrs|exact Hre]|constructor].
    + done.
    + intros e [He|He]%elem_of_app; [by apply Hco|].
      apply list_elem_of_singleton in He as ->. exists next. split; [done|].
      by apply schedule_single_location_entry_of in Hres as [_ ?].
  - split; [done|]. by split; [|split].
Qed.

Lemma sched_loop_exn_returns cluster fuel daily_start daily_end st :
  valid_hhmm daily_start → valid_hhmm daily_end →
  Forall well_formed cluster → all_measurable cluster → quiet cluster st →
  sched_loop_exn fuel daily_start daily_end st
  = Returned (sched_loop fuel daily_start daily_end st)
  ∧ quiet cluster (sched_loop fuel daily_start daily_end st).
Proof.
  intros Hds Hde Hwf Hm. revert st. induction fuel as [|fuel IH]; intros st Hq; [done|].
  cbn [sched_loop_exn sched_loop].
  destruct (st_cluster st) as [|c cs] eqn:Hc; [done|].
  destruct (sched_body_exn_returns cluster daily_start daily_end st c cs)
    as [-> Hq']; try done.
  cbn. by apply IH.
Qed.

Lemma annotate_proximity_exn_cons e e' s :
  annotate_proximity_exn (e :: e' :: s)
  = (distance_to_next ← geodesic_exn (entry_coordinates e) (entry_coordinates e');
     r' ← annotate_proximity_exn (e' :: s);
     Returned (set_proximity (KmToNext distance_to_next) e :: r')).
Proof. done. Qed.

Lemma annotate_proximity_cons e e' s :
  annotate_proximity (e :: e' :: s)
  = set_proximity (KmToNext (geodesic_km (entry_coordinates e) (entry_coordinates e'))) e
      :: annotate_proximity (e' :: s).
Proof. done. Qed.

Lemma annotate_proximity_exn_returns s :
  (∀ a b, a ∈ s → b ∈ s →
          geodesic_defined (entry_coordinates a) (entry_coordinates b) = true) →
  annotate_proximity_exn s = Returned (annotate_proximity s).
Proof.
  induction s as [|e [|e' r] IH]; intros Hd; [done..|].
  rewrite annotate_proximity_exn_cons, annotate_proximity_cons.
  rewrite geodesic_exn_defined
    by (apply Hd; [apply list_elem_of_here|apply list_elem_of_further, list_elem_of_here]).
  rewrite bind_of_returned, IH; [done|].
  intros a b Ha Hb. apply Hd; by apply list_elem_of_further.
Qed.

(** On well-formed times and locations that geopy measures, the group
    scheduler raises nothing. *)
Lemma schedule_cluster_exn_returns cluster daily_start daily_end :
  valid_hhmm daily_start → valid_hhmm daily_end →
  Forall well_formed cluster → all_measurable cluster →
  schedule_cluster_with_priorities_exn cluster daily_start daily_end
  = Returned (schedule_cluster_with_priorities cluster daily_start daily_end).
Proof.
  intros Hds Hde Hwf Hm.
  unfold schedule_cluster_with_priorities_exn, schedule_cluster_with_priorities, sched_run.
  rewrite strptime_exn_valid by done. cbn.
  destruct (sched_loop_exn_returns cluster (length cluster) daily_start daily_end
              (sched_init cluster daily_start)) as [Hloop (_ & _ & Hco)]; try done.
  { split; [constructor|]. split; [done|]. intros e He. by apply elem_of_nil in He. }
  unfold sched_init, strptime in *. rewrite Hloop. cbn.
  rewrite annotate_proximity_exn_returns; [done|].
  intros a b Ha Hb. destruct (Hco a Ha) as (la & ? & ->).
  destruct (Hco b Hb) as (lb & ? & ->). by apply Hm.
Qed.

(** Every entry of a schedule of the group scheduler has times of day. *)
Lemma schedule_cluster_timed cluster daily_start daily_end :
  Forall timed (schedule (schedule_cluster_with_priorities cluster daily_start daily_end)).
Proof.
  assert (Forall timed (st_schedule (sched_run cluster daily_start daily_end))) as Ht.
  { unfold sched_run. apply (sched_loop_invariant (λ st, Forall timed (st_schedule st))).
    - intros st c cs _ Hst.
      destruct (sched_body_cases daily_start daily_end st c cs)
        as [_ [(e & He & -> & _)|(_ & -> & _)]]; [|done].
      apply Forall_app. split; [done|].
      apply schedule_single_location_timed in He as [? ?].
      constructor; [by split|constructor].
    - constructor. }
  simpl. pose proof (annotate_proximity_same_visit
                       (st_schedule (sched_run cluster daily_start daily_end))) as Hsame.
  revert Ht. induction Hsame as [|a b l l' (_ & _ & Hs & He) _ IH]; [done|].
  intros [[? ?] ?]%Forall_cons. constructor; [|by apply IH].
  split; congruence.
Qed.

(** *** The search, the rescue pass and the scheduling stage *)

Lemma search_loop_exn_agrees (attempt : nat → Result GroupResult)
    (attempt' : nat → GroupResult) i n best :
  (∀ j, agrees (attempt j) (attempt' j)) →
  agrees (search_loop_exn attempt i n best) (search_loop attempt' i n best).
Proof.
  intros Ha. revert i best. induction n as [|n IH]; intros i best;
    [apply agrees_returned|].
  cbn [search_loop_exn search_loop]. eapply agrees_bind; [apply Ha|]. cbn zeta.
  case_bool_decide; [apply agrees_returned|apply IH].
Qed.

Lemma search_loop_exn_returns (attempt : nat → Result GroupResult)
    (attempt' : nat → GroupResult) i n best :
  (∀ j, attempt j = Returned (attempt' j)) →
  search_loop_exn attempt i n best = Returned (search_loop attempt' i n best).
Proof.
  intros Ha. revert i best. induction n as [|n IH]; intros i best; [done|].
  cbn [search_loop_exn search_loop]. rewrite Ha, bind_of_returned. cbn zeta.
  case_bool_decide; [done|apply IH].
Qed.

Lemma iterative_schedule_cluster_exn_agrees cluster daily_start daily_end n :
  agrees (iterative_schedule_cluster_exn cluster daily_start daily_end n)
         (iterative_schedule_cluster cluster daily_start daily_end n).
Proof.
  unfold iterative_schedule_cluster_exn, iterative_schedule_cluster, iterative_search.
  pose proof (search_loop_exn_agrees
                (λ _, schedule_cluster_with_priorities_exn (slice_copy cluster)
                        daily_start daily_end)
                (λ _, schedule_cluster_with_priorities (slice_copy cluster)
                        daily_start daily_end) 0 n None
                (λ _, schedule_cluster_exn_agrees _ _ _)) as Hs.
  destruct (search_loop_exn _ _ _ _) as [best|e]; [|apply agrees_raised].
  rewrite (Hs best eq_refl). apply agrees_returned.
Qed.

Lemma iterative_schedule_cluster_exn_returns cluster daily_start daily_end n :
  valid_hhmm daily_start → valid_hhmm daily_end →
  Forall well_formed cluster → all_measurable cluster →
  iterative_schedule_cluster_exn cluster daily_start daily_end n
  = Returned (iterative_schedule_cluster cluster daily_start daily_end n).
Proof.
  intros Hds Hde Hwf Hm.
  unfold iterative_schedule_cluster_exn, iterative_schedule_cluster, iterative_search.
  rewrite (search_loop_exn_returns _
             (λ _, schedule_cluster_with_priorities (slice_copy cluster)
                     daily_start daily_end)); [done|].
  intros _. by apply schedule_cluster_exn_returns.
Qed.

Lemma parallel_schedule_clusters_exn_agrees (clusters : list (nat * list Location))
    daily_start daily_end :
  agrees (parallel_schedule_clusters_exn clusters daily_start daily_end)
         (parallel_schedule_clusters clusters daily_start daily_end).
Proof.
  unfold parallel_schedule_clusters_exn, parallel_schedule_clusters.
  apply mapM_agrees. intros [cluster_id locs].
  eapply agrees_bind; [apply iterative_schedule_cluster_exn_agrees|].
  apply agrees_returned.
Qed.

Lemma parallel_schedule_clusters_exn_returns (clusters : list (nat * list Location))
    daily_start daily_end :
  valid_hhmm daily_start → valid_hhmm daily_end →
  Forall (λ c, Forall well_formed c.2 ∧ all_measurable c.2) clusters →
  parallel_schedule_clusters_exn clusters daily_start daily_end
  = Returned (parallel_schedule_clusters clusters daily_start daily_end).
Proof.
  intros Hds Hde Hall.
  unfold parallel_schedule_clusters_exn, parallel_schedule_clusters.
  apply mapM_returns. intros [cluster_id locs] Hin.
  destruct (proj1 (Forall_forall _ _) Hall _ Hin) as [Hwf Hm].
  by rewrite iterative_schedule_cluster_exn_returns.
Qed.

Lemma try_clusters_exn_agrees location (clusters : list (nat * GroupResult))
    daily_start daily_end :
  agrees (try_clusters_exn location clusters daily_start daily_end)
         (try_clusters location clusters daily_start daily_end).
Proof.
  induction clusters as [|[cluster_id g] rest IH]; [apply agrees_returned|].
  cbn [try_clusters_exn try_clusters].
  eapply agrees_bind; [apply schedule_single_location_exn_agrees|].
  destruct (schedule_single_location _ _ _ _); [apply agrees_returned|].
  eapply agrees_bind; [apply IH|]. apply agrees_returned.
Qed.

Lemma rescue_loop_exn_agrees locations (clusters : list (nat * GroupResult)) acc
    daily_start daily_end :
  agrees (rescue_loop_exn locations clusters acc daily_start daily_end)
         (rescue_loop locations clusters acc daily_start daily_end).
Proof.
  revert clusters acc. induction locations as [|location rest IH]; intros clusters acc;
    [apply agrees_returned|].
  cbn [rescue_loop_exn rescue_loop].
  eapply agrees_bind; [apply try_clusters_exn_agrees|].
  destruct (try_clusters _ _ _ _); apply IH.
Qed.

(** The groups of a rescue pass on which nothing is raised: every entry has
    times of day. *)
Lemma try_clusters_exn_returns location (clusters : list (nat * GroupResult))
    daily_start daily_end :
  valid_hhmm daily_start → valid_hhmm daily_end → well_formed location →
  Forall (λ c, Forall timed (schedule c.2)) clusters →
  try_clusters_exn location clusters daily_start daily_end
  = Returned (try_clusters location clusters daily_start daily_end).
Proof.
  intros Hds Hde Hwf. induction clusters as [|[cluster_id g] rest IH]; intros Hall; [done|].
  apply Forall_cons in Hall as [Hg Hrest]. cbn [fst snd] in Hg.
  cbn [try_clusters_exn try_clusters].
  rewrite schedule_single_location_exn_returns, bind_of_returned by done.
  destruct (schedule_single_location _ _ _ _); [done|].
  by rewrite IH.
Qed.

Lemma try_clusters_timed location (clusters clusters' : list (nat * GroupResult))
    daily_start daily_end :
  Forall (λ c, Forall timed (schedule c.2)) clusters →
  try_clusters location clusters daily_start daily_end = Some clusters' →
  Forall (λ c, Forall timed (schedule c.2)) clusters'.
Proof.
  intros Hall Htry.
  destruct (try_clusters_Some _ _ _ _ _ Htry)
    as (pre & cid & g & post & e & -> & _ & He & ->).
  apply Forall_app in Hall as [Hpre [Hg Hpost]%Forall_cons].
  apply Forall_app. split; [done|]. constructor; [|done]. cbn [fst snd schedule] in *.
  apply Forall_forall. intros x Hx. rewrite sort_by_start_time_perm in Hx.
  apply elem_of_app in Hx as [Hx|Hx]; [by apply (proj1 (Forall_forall _ _) Hg)|].
  apply list_elem_of_singleton in Hx as ->. by eapply schedule_single_location_timed.
Qed.

Lemma rescue_loop_exn_returns locations (clusters : list (nat * GroupResult)) acc
    daily_start daily_end :
  valid_hhmm daily_start → valid_hhmm daily_end → Forall well_formed locations →
  Forall (λ c, Forall timed (schedule c.2)) clusters →
  rescue_loop_exn locations clusters acc daily_start daily_end
  = Returned (rescue_loop locations clusters acc daily_start daily_end).
Proof.
  intros Hds Hde Hwf. revert clusters acc.
  induction Hwf as [|location rest Hloc _ IH]; intros clusters acc Hall; [done|].
  cbn [rescue_loop_exn rescue_loop].
  rewrite try_clusters_exn_returns, bind_of_returned by done.
  destruct (try_clusters _ _ _ _) as [clusters'|] eqn:Htry; [|by apply IH].
  apply IH. by eapply try_clusters_timed.
Qed.

(** What the scheduling stage returns is the result of the first
    embedding. *)
Lemma schedule_stage_exn_agrees (best_clusters : list (nat * list Location))
    daily_start daily_end r :
  schedule_stage_exn best_clusters daily_start daily_end = Returned r →
  schedule_stage best_clusters daily_start daily_end = Some r.
Proof.
  unfold schedule_stage_exn, schedule_stage. intros Hr.
  apply bind_returned in Hr as (results & Hres & Hr).
  apply parallel_schedule_clusters_exn_agrees in Hres as ->.
  destruct (mapM _ _) as [grouped|]; [|done]. cbn.
  apply rescue_loop_exn_agrees in Hr as ->. done.
Qed.

Lemma parallel_results_grouped (best_clusters : list (nat * list Location))
    daily_start daily_end :
  mapM (λ '(cluster_id, r), (cluster_id,.) <$> r)
    (parallel_schedule_clusters best_clusters daily_start daily_end)
  = Some ((λ c : nat * list Location,
             (c.1, schedule_cluster_with_priorities c.2 daily_start daily_end))
            <$> best_clusters).
Proof.
  apply mapM_Some. unfold parallel_schedule_clusters.
  apply Forall2_fmap. apply Forall_Forall2_diag, Forall_forall.
  intros [cid locs] _. simpl. unfold iterative_schedule_cluster, default_max_iterations.
  by rewrite (iterative_search_constant _
               (schedule_cluster_with_priorities (slice_copy locs) daily_start daily_end)).
Qed.

Lemma schedule_stage_exn_returns (best_clusters : list (nat * list Location))
    daily_start daily_end :
  valid_hhmm daily_start → valid_hhmm daily_end →
  Forall (λ c, Forall well_formed c.2 ∧ all_measurable c.2) best_clusters →
  ∃ r, schedule_stage_exn best_clusters daily_start daily_end = Returned r.
Proof.
  intros Hds Hde Hall. unfold schedule_stage_exn.
  rewrite parallel_schedule_clusters_exn_returns, bind_of_returned by done.
  rewrite parallel_results_grouped.
  unfold handle_unvisitable_exn. rewrite rescue_loop_exn_returns; [by eexists|done|done| |].
  - apply Forall_forall. intros loc Hloc.
    apply elem_of_concat_1 in Hloc as (l & Hl & Hloc).
    apply list_elem_of_fmap in Hl as ([cid g] & -> & Hgin).
    apply list_elem_of_fmap in Hgin as ([cid' cluster] & [= -> ->] & Hc).
    cbn [snd] in Hloc. apply schedule_cluster_unvisitable_subseteq in Hloc.
    destruct (proj1 (Forall_forall _ _) Hall _ Hc) as [Hwf _].
    by apply (proj1 (Forall_forall _ _) Hwf).
  - apply Forall_fmap, Forall_forall. intros [cid cluster] _. cbn [snd compose].
    apply schedule_cluster_timed.
Qed.

Lemma sched_loop_exn_fuel_irrelevant fuel daily_start daily_end st :
  (length (st_cluster st) <= fuel)%nat →
  sched_loop_exn fuel daily_start daily_end st
  = sched_loop_exn (length (st_cluster st)) daily_start daily_end st.
Proof.
  revert st. induction fuel as [|fuel IH]; intros st Hlen.
  - by replace (length (st_cluster st)) with 0%nat by lia.
  - cbn [sched_loop_exn]. destruct (st_cluster st) as [|c cs] eqn:Hc; [done|].
    cbn [length sched_loop_exn]. rewrite Hc.
    destruct (sched_body_exn daily_start daily_end st c cs) as [st'|e] eqn:Hb; [|done].
    rewrite !bind_of_returned.
    apply sched_body_exn_agrees in Hb as ->.
    rewrite IH by (rewrite sched_body_length; simpl in Hlen; lia).
    by rewrite sched_body_length.
Qed.
End exception_facts.

(** * The claims *)

Section claims.
Context `{Geodesy}.

(** C1 (amended).  With well-formed times of day and locations whose visit
    takes a positive time, every finalized schedule is sorted ascending by
    start time and no entry ends after its successor starts: the schedule the
    group scheduler returns for each group, and each group's schedule after
    the rescue pass of the scheduling stage. *)
Theorem finalized_schedules_ordered
    (best_clusters : list (nat * list Location)) (daily_start daily_end : hhmm) :
  valid_hhmm daily_start → valid_hhmm daily_end →
  Forall (λ c, Forall plannable c.2) best_clusters →
  Forall (λ c, schedule_ordered
                 (schedule (schedule_cluster_with_priorities c.2 daily_start daily_end)))
         best_clusters
  ∧ ∃ grouped_clusters final_unvisitable,
      schedule_stage best_clusters daily_start daily_end
      = Some (grouped_clusters, final_unvisitable)
      ∧ Forall (λ g, schedule_ordered (schedule g.2)) grouped_clusters.
Proof.
  intros Hds Hde Hplan. split.
  - eapply Forall_impl; [exact Hplan|]. intros [cid cluster] Hc. simpl in *.
    by apply timetable_ordered, schedule_cluster_timetable.
  - rewrite schedule_stage_unfold. cbn zeta.
    set (grouped := (λ c : nat * list Location,
                       (c.1, schedule_cluster_with_priorities c.2 daily_start daily_end))
                      <$> best_clusters).
    destruct (handle_unvisitable _ grouped daily_start daily_end)
      as [grouped' final] eqn:Hres.
    exists grouped', final. split; [done|].
    assert (all_timetables grouped') as Hall.
    { change grouped' with (grouped', final).1. rewrite <- Hres.
      apply rescue_loop_timetables; [done|done| |].
      - apply Forall_forall. intros loc Hloc.
        apply elem_of_concat_1 in Hloc as (l & Hl & Hloc).
        apply list_elem_of_fmap in Hl as ([cid g] & -> & Hg).
        apply list_elem_of_fmap in Hg as ([cid' cluster] & [= -> ->] & Hc).
        simpl in Hloc. apply schedule_cluster_unvisitable_subseteq in Hloc.
        pose proof (proj1 (Forall_forall _ _) Hplan _ Hc) as Hpc. simpl in Hpc.
        by apply (proj1 (Forall_forall _ _) Hpc).
      - apply Forall_fmap, Forall_forall. intros [cid cluster] Hc. simpl.
        apply schedule_cluster_timetable; [done|done|].
        by apply (proj1 (Forall_forall _ _) Hplan (cid, cluster)). }
    eapply Forall_impl; [exact Hall|]. intros g. apply timetable_ordered.
Qed.


(** C4.  The multi-start search makes at most [max_iterations] passes (20 by
    default), leaves at the first attempt without unvisitable location, scores
    an attempt by [unvisitable_count * 1000 - schedule_length] and returns the
    first attempt of least score among those it ran; on the same candidates
    fewer unvisitable locations give a lower score, and at equal counts the
    longer schedule does. *)
Theorem search_keeps_first_best (attempt : nat → GroupResult) (n : nat) :
  let passes := passes_run attempt 0 (S n) in
  (passes <= S n)%nat
  ∧ (passes_run attempt 0 default_max_iterations <= 20)%nat
  ∧ (∀ i, (S i < passes)%nat → unvisitable (attempt i) ≠ [])
  ∧ (passes = S n ∨ ∃ k, passes = S k ∧ unvisitable (attempt k) = [])
  ∧ iterative_search attempt 0 = None
  ∧ (∃ j, (j < passes)%nat
          ∧ iterative_search attempt (S n) = Some (attempt j)
          ∧ (∀ i, (i < passes)%nat →
                  attempt_score (attempt j) <= attempt_score (attempt i))
          ∧ (∀ i, (i < j)%nat → attempt_score (attempt j) < attempt_score (attempt i)))
  ∧ (∀ a b : GroupResult,
       ((length (schedule a) + length (unvisitable a)
         = length (schedule b) + length (unvisitable b))%nat →
        (length (unvisitable a) < length (unvisitable b))%nat →
        attempt_score a < attempt_score b)
       ∧ (length (unvisitable a) = length (unvisitable b) →
          (length (schedule b) < length (schedule a))%nat →
          attempt_score a < attempt_score b))
  ∧ (∀ cluster cluster' daily_start daily_end,
       cluster ≡ₚ cluster' →
       let a := schedule_cluster_with_priorities cluster daily_start daily_end in
       let b := schedule_cluster_with_priorities cluster' daily_start daily_end in
       (length (schedule a) + length (unvisitable a)
        = length (schedule b) + length (unvisitable b))%nat).
Proof.
  cbn zeta. split; [apply passes_run_le|]. split; [apply passes_run_le|].
  split. { intros i Hi. apply (passes_run_before_last attempt 0 (S n)); lia. }
  split.
  { destruct (decide (passes_run attempt 0 (S n) = S n)) as [|Hne]; [by left|right].
    pose proof (passes_run_le attempt 0 (S n)).
    destruct (passes_run_early attempt 0 (S n)) as (k & Hk & Hu); [lia|].
    by exists k. }
  split; [done|]. split.
  { pose proof (search_loop_first_min attempt (S n) 0 None) as Hspec.
    unfold iterative_search.
    destruct (search_loop attempt 0 (S n) None) as [[sc r]|].
    - destruct Hspec as [Hmin [?|(j & Hj & -> & -> & Hfirst & _)]]; [done|].
      exists j. split; [lia|]. split; [done|]. split.
      + intros i Hi. apply Hmin. lia.
      + intros i Hi. apply Hfirst. lia.
    - destruct Hspec as [_ Hk]. simpl in Hk. by case_bool_decide. }
  split.
  { intros a b. split;
      [apply attempt_score_fewer_unvisitable|apply attempt_score_longer_schedule]. }
  intros cluster cluster' daily_start daily_end Hperm.
  rewrite !schedule_cluster_lengths. by apply Permutation_length.
Qed.

(** C5.  The rescue pass is monotone: every group keeps its id and every
    entry it had, the total number of scheduled entries does not decrease, and
    the unvisitable list it returns is a sublist, in the original order, of
    the leftover list it was given. *)
Theorem rescue_pass_monotone (locations : list Location)
    (clusters : list (nat * GroupResult)) (daily_start daily_end : hhmm) :
  let result := handle_unvisitable locations clusters daily_start daily_end in
  (total_scheduled clusters <= total_scheduled result.1)%nat
  ∧ Forall2 (λ before_pass after_pass,
               before_pass.1 = after_pass.1
               ∧ schedule before_pass.2 ⊆+ schedule after_pass.2
               ∧ ∀ e, e ∈ schedule before_pass.2 → e ∈ schedule after_pass.2)
            clusters result.1
  ∧ sublist result.2 locations
  ∧ (total_scheduled result.1 + length result.2
     = total_scheduled clusters + length locations)%nat.
Proof.
  cbn zeta. unfold handle_unvisitable.
  pose proof (rescue_loop_spec locations clusters [] daily_start daily_end) as Hspec.
  destruct (rescue_loop locations clusters [] daily_start daily_end) as [clusters' unv'].
  destruct Hspec as [Hgrown (kept & -> & Hsub & Hcount)]. simpl.
  pose proof (sublist_length _ _ Hsub). split; [lia|]. split; [|done].
  eapply Forall2_impl; [exact Hgrown|]. intros a b [Hid Hsubm].
  split; [done|]. split; [done|]. intros e He. by eapply elem_of_submseteq.
Qed.

(** C6 (amended).  The request is rejected with a configuration error, before
    any clustering or scheduling and whatever the clusterer would return,
    exactly when the group count is below 1 or exceeds the number of
    locations; the number of distinct points is not examined. *)
Theorem configuration_rejected_iff (results : list ClusterRun) (data : ClusteringInput) :
  ((∃ e, cluster_data results data = Rejected e)
   ↔ num_clusters data < 1 ∨ num_clusters data > Z.of_nat (length (points data)))
  ∧ ∀ results' e, cluster_data results data = Rejected e →
                  cluster_data results' data = Rejected e.
Proof.
  split.
  - rewrite cluster_data_rejected. lia.
  - intros results' e. unfold cluster_data. repeat case_match; done.
Qed.

(** C7.  With unique location names, and restarts whose labels are one per
    point and below the group count, the cluster search raises no error and
    every clustering it accepts splits the input: each input location lies in
    exactly one group and the groups hold, together, the input locations.  So
    does the single group formed when one group is requested. *)
Theorem accepted_clustering_partitions (pts : list Location) (k : nat)
    (results : list ClusterRun) :
  NoDup (name <$> pts) →
  Forall (λ run, length (run_labels run) = length pts
                 ∧ Forall (λ c, (c < k)%nat) (run_labels run)) results →
  partition_of pts (single_cluster (locations_of pts))
  ∧ is_Some (parallel_find_best_clusters (locations_of pts) k results)
  ∧ ∀ clusters run,
      parallel_find_best_clusters (locations_of pts) k results
      = Some (Some (clusters, run)) →
      length clusters = k ∧ partition_of pts clusters.
Proof.
  intros Hnd Hruns.
  pose proof (NoDup_names pts Hnd) as Hnd'.
  assert (Forall (λ run, ∃ clusters,
            group_by_labels (locations_of pts) (run_labels run) k = Some clusters
            ∧ length clusters = k ∧ concat clusters ≡ₚ pts) results) as Hgroups.
  { eapply Forall_impl; [exact Hruns|]. intros run [Hlen Hrange].
    by apply group_by_labels_spec. }
  split; [|split].
  - apply concat_partition; [done|]. unfold single_cluster.
    rewrite locations_of_unique by done. simpl. rewrite app_nil_r.
    rewrite <- list_fmap_compose. by rewrite list_fmap_id.
  - apply select_best_total. eapply Forall_impl; [exact Hgroups|].
    intros run (clusters & -> & _). done.
  - intros clusters run Hsel.
    apply select_best_accepted in Hsel as [?|[Hin Hgr]]; [done|].
    destruct (proj1 (Forall_forall _ _) Hgroups run Hin) as (clusters' & Hgr' & Hlen & Hperm).
    rewrite Hgr in Hgr'. injection Hgr' as <-.
    split; [done|]. by apply concat_partition.
Qed.

(** C9.  Every restart schedules a fresh copy of the same list and consumes
    that copy alone, so every restart returns the result of one run of the
    greedy scheduler; the loop repeats that run until its passes are spent
    (once, when nothing is unvisitable), and the multi-start search returns
    the result of the single run. *)
Theorem restarts_repeat_single_run (cluster : list Location)
    (daily_start daily_end : hhmm) (n : nat) :
  let single := schedule_cluster_with_priorities cluster daily_start daily_end in
  let attempt :=
    λ _ : nat, schedule_cluster_with_priorities (slice_copy cluster)
                 daily_start daily_end in
  st_cluster (sched_run (slice_copy cluster) daily_start daily_end) = []
  ∧ (∀ i, attempt i = single)
  ∧ passes_run attempt 0 (S n)
    = (if decide (unvisitable single = []) then 1%nat else S n)
  ∧ iterative_schedule_cluster cluster daily_start daily_end (S n) = Some single
  ∧ iterative_schedule_cluster cluster daily_start daily_end default_max_iterations
    = Some single
  ∧ (∀ attempts r, (∀ i, attempts i = r) → iterative_search attempts (S n) = Some r).
Proof.
  cbn zeta. split; [by apply sched_loop_consumes|]. split; [done|].
  split; [by apply passes_run_constant|].
  split; [by apply iterative_search_constant|].
  split; [by apply iterative_search_constant|].
  intros attempts r. apply iterative_search_constant.
Qed.
End claims.

Section claim_clustering.
Local Open Scope Q_scope.
Variable norm : list Q → Q.

(** C8.  In the centroid update every weight is at least 0.01, the weights of
    a non-empty cluster have a positive sum, so no quotient of the update has
    a zero divisor, and an empty cluster keeps its previous centroid without
    any division. *)
Theorem weight_floor_no_zero_division (data : list (list Q))
    (cluster_assignments : list nat) (centroids : list (list Q))
    (penalty_threshold penalty_factor : Q) :
  (∀ distance, 1 # 100 <= penalty_weight penalty_threshold penalty_factor distance)
  ∧ (∀ c centroid,
       cluster_members data cluster_assignments c ≠ [] →
       0 < sum_weights (cluster_weights norm penalty_threshold penalty_factor
                          (cluster_members data cluster_assignments c) centroid))
  ∧ (∀ c centroid,
       cluster_members data cluster_assignments c = [] →
       new_centroid norm data cluster_assignments penalty_threshold penalty_factor
         c centroid = Some centroid)
  ∧ ∃ new, compute_new_centroids norm data cluster_assignments centroids
             penalty_threshold penalty_factor = Some new
           ∧ length new = length centroids
           ∧ ∀ c centroid, centroids !! c = Some centroid →
               cluster_members data cluster_assignments c = [] →
               new !! c = Some centroid.
Proof.
  split; [apply penalty_weight_floor|]. split.
  { intros c centroid Hne. apply sum_weights_positive; [|apply cluster_weights_floor].
    intros Hnil. apply (f_equal length) in Hnil.
    rewrite cluster_weights_length in Hnil. by destruct (cluster_members _ _ _). }
  split; [intros c centroid; apply new_centroid_empty|].
  apply compute_new_centroids_spec.
Qed.
End claim_clustering.

Section claim_scheduler.
Context `{GeodesyDomain}.

(** C10 (amended).  Whenever the group scheduler returns, it has split its
    input: the scheduled locations, one per entry of the schedule, and the
    unvisitable ones are together the input locations, so the two lengths add
    up to the length of the input and a location of an input without
    repetition is never in both.  Its loop ends within as many passes as
    there are candidates, and a loop that is not left by an exception is left
    with no candidate.  The scheduler returns whenever the times of day are
    well-formed, every duration can be added to a time of day, and geopy
    measures the distance between any two locations of the input. *)
Theorem group_scheduler_partitions (cluster : list Location)
    (daily_start daily_end : hhmm) :
  (∀ r, schedule_cluster_with_priorities_exn cluster daily_start daily_end = Returned r →
        (∃ placed, Forall2 entry_of placed (schedule r)
                   ∧ placed ++ unvisitable r ≡ₚ cluster
                   ∧ (NoDup cluster → ∀ loc, loc ∈ placed → loc ∉ unvisitable r))
        ∧ (length (schedule r) + length (unvisitable r) = length cluster)%nat)
  ∧ (∀ fuel st,
       (length (st_cluster st) <= fuel)%nat →
       sched_loop_exn fuel daily_start daily_end st
       = sched_loop_exn (length (st_cluster st)) daily_start daily_end st
       ∧ ∀ st', sched_loop_exn fuel daily_start daily_end st = Returned st' →
                st_cluster st' = [])
  ∧ (valid_hhmm daily_start → valid_hhmm daily_end →
     Forall well_formed cluster → all_measurable cluster →
     ∃ r, schedule_cluster_with_priorities_exn cluster daily_start daily_end
          = Returned r).
Proof.
  split; [|split].
  - intros r Hr. apply schedule_cluster_exn_agrees in Hr as ->.
    split; [|apply schedule_cluster_lengths].
    destruct (schedule_cluster_partition cluster daily_start daily_end)
      as (placed & Hplaced & Hperm).
    exists placed. split; [done|]. split; [done|].
    intros Hnd loc Hin Hun. rewrite <- Hperm in Hnd.
    apply NoDup_app in Hnd as (_ & Hdisj & _). by apply (Hdisj loc).
  - intros fuel st Hfuel. split; [by apply sched_loop_exn_fuel_irrelevant|].
    intros st'. by apply sched_loop_exn_consumes.
  - intros Hds Hde Hwf Hm. eexists. by apply schedule_cluster_exn_returns.
Qed.
End claim_scheduler.

(** * The claims on concrete requests *)

Lemma finalized_schedules_ordered_witness :
  valid_hhmm eight ∧ valid_hhmm twenty
  ∧ Forall (λ c : nat * list Location, Forall plannable c.2) rescue_day
  ∧ Forall (λ c : nat * list Location,
              schedule_ordered
                (schedule (schedule_cluster_with_priorities c.2 eight twenty)))
           rescue_day
  ∧ ∃ grouped_clusters final_unvisitable,
      schedule_stage rescue_day eight twenty = Some (grouped_clusters, final_unvisitable)
      ∧ Forall (λ g : nat * GroupResult, schedule_ordered (schedule g.2)) grouped_clusters.
Proof.
  assert (valid_hhmm eight) as H1 by (vm_compute; split; [discriminate|reflexivity]).
  assert (valid_hhmm twenty) as H2 by (vm_compute; split; [discriminate|reflexivity]).
  assert (Forall (λ c : nat * list Location, Forall plannable c.2) rescue_day) as H3.
  { repeat constructor; vm_compute; (discriminate || reflexivity). }
  split; [exact H1|]. split; [exact H2|]. split; [exact H3|].
  exact (finalized_schedules_ordered rescue_day eight twenty H1 H2 H3).
Defined.

(** The rescue pass of that day moves "R" into the second group, ahead of
    "Q". *)
Example rescue_day_outcome :
  stage_summary <$> schedule_stage rescue_day eight twenty
  = Some ([(0%nat, [("P", 480, 600)]);
           (1%nat, [("R", 480, 600); ("Q", 600, 660)])], []).
Proof. vm_compute. reflexivity. Qed.

(** C1, as stated, fails on a visit that takes no time: it is placed "before
    the first entry" and appended after it, so the first entry ends after its
    successor starts. *)
Lemma zero_length_visit_breaks_order :
  times <$> schedule (schedule_cluster_with_priorities [base_stop; flash_stop] eight twenty)
  = [("A", 480, 540); ("Z", 480, 480)]
  ∧ ¬ schedule_ordered
        (schedule (schedule_cluster_with_priorities [base_stop; flash_stop] eight twenty)).
Proof.
  split; [vm_compute; reflexivity|]. intros Hord.
  destruct (Hord 0%nat _ _ eq_refl eq_refl) as [_ Hle].
  vm_compute in Hle. by apply Hle.
Qed.

(** C2.  The shop that opens at noon is scheduled from 09:00 to 10:00, right
    after the morning shop: a placement after the last entry starts when that
    entry ends, whatever the opening time of the location. *)
Lemma placement_before_opening :
  let r := schedule_cluster_with_priorities [early_shop; late_shop] eight twenty in
  times <$> schedule r = [("B", 480, 540); ("A", 540, 600)]
  ∧ unvisitable r = []
  ∧ opening_hours late_shop = 720
  ∧ ∃ e, schedule_single_location late_shop
           [create_schedule_entry early_shop 480 540] eight twenty = Some e
         ∧ start_time e = 540 ∧ start_time e < opening_hours late_shop.
Proof.
  cbn zeta. split; [vm_compute; reflexivity|]. split; [vm_compute; reflexivity|].
  split; [reflexivity|]. eexists. split; [vm_compute; reflexivity|].
  split; reflexivity.
Qed.

(** C6, as stated, fails on two locations at one point split into two groups:
    there are fewer distinct points than groups, and the request is not
    rejected, whatever the clusterer returns. *)
Lemma twin_points_pass_validation :
  invalid_configuration twin_request
  ∧ ∀ results e, cluster_data results twin_request ≠ Rejected e.
Proof.
  split.
  - right. right. vm_compute. reflexivity.
  - intros results e Hrej.
    assert (∃ e', cluster_data results twin_request = Rejected e') as Hex by (by exists e).
    apply cluster_data_rejected in Hex. vm_compute in Hex.
    destruct Hex as [Hlow|Hhigh]; discriminate.
Qed.

Lemma accepted_clustering_partitions_witness :
  NoDup (name <$> [stop_p; stop_r; stop_q])
  ∧ Forall (λ run, length (run_labels run) = length [stop_p; stop_r; stop_q]
                   ∧ Forall (λ c, (c < 2)%nat) (run_labels run)) [sample_run]
  ∧ partition_of [stop_p; stop_r; stop_q]
      (single_cluster (locations_of [stop_p; stop_r; stop_q]))
  ∧ is_Some (parallel_find_best_clusters (locations_of [stop_p; stop_r; stop_q]) 2
               [sample_run])
  ∧ ∀ clusters run,
      parallel_find_best_clusters (locations_of [stop_p; stop_r; stop_q]) 2 [sample_run]
      = Some (Some (clusters, run)) →
      length clusters = 2%nat ∧ partition_of [stop_p; stop_r; stop_q] clusters.
Proof.
  assert (NoDup (name <$> [stop_p; stop_r; stop_q])) as H1.
  { apply (bool_decide_unpack (NoDup (name <$> [stop_p; stop_r; stop_q]))).
    vm_compute. exact I. }
  assert (Forall (λ run, length (run_labels run) = length [stop_p; stop_r; stop_q]
                         ∧ Forall (λ c, (c < 2)%nat) (run_labels run)) [sample_run]) as H2.
  { repeat constructor. }
  split; [exact H1|]. split; [exact H2|].
  exact (accepted_clustering_partitions [stop_p; stop_r; stop_q] 2 [sample_run] H1 H2).
Defined.

(** The restart of the example is accepted and puts "P" and "Q" in group 0,
    "R" in group 1. *)
Example sample_run_accepted :
  (λ best : option (list (list Location) * ClusterRun),
     (λ accepted : list (list Location) * ClusterRun, group_names accepted.1) <$> best)
    <$> parallel_find_best_clusters (locations_of [stop_p; stop_r; stop_q]) 2 [sample_run]
  = Some (Some [["P"; "Q"]; ["R"]]).
Proof. vm_compute. reflexivity. Qed.

Lemma shops_well_formed : Forall well_formed [early_shop; late_shop].
Proof. repeat constructor; vm_compute; (discriminate || reflexivity). Defined.

(** On the grid, geopy measures between locations whose latitudes are all in
    range. *)
Lemma grid_all_measurable (cluster : list Location) :
  Forall (λ loc, grid_latitude_ok (coordinates loc) = true) cluster →
  all_measurable cluster.
Proof.
  intros Hall a b Ha Hb. cbn [geodesic_defined grid_domain].
  rewrite (proj1 (Forall_forall _ _) Hall a Ha).
  rewrite (proj1 (Forall_forall _ _) Hall b Hb). reflexivity.
Defined.

Lemma shops_measurable : all_measurable [early_shop; late_shop].
Proof. apply grid_all_measurable. repeat constructor. Defined.

Lemma group_scheduler_partitions_witness :
  valid_hhmm eight ∧ valid_hhmm twenty ∧ Forall well_formed [early_shop; late_shop]
  ∧ all_measurable [early_shop; late_shop]
  ∧ ∃ r, schedule_cluster_with_priorities_exn [early_shop; late_shop] eight twenty
         = Returned r.
Proof.
  assert (valid_hhmm eight) as H1 by (vm_compute; split; [discriminate|reflexivity]).
  assert (valid_hhmm twenty) as H2 by (vm_compute; split; [discriminate|reflexivity]).
  split; [exact H1|]. split; [exact H2|].
  split; [exact shops_well_formed|]. split; [exact shops_measurable|].
  exact (proj2 (proj2 (group_scheduler_partitions [early_shop; late_shop] eight twenty))
           H1 H2 shops_well_formed shops_measurable).
Defined.

(** C10, as stated, fails on inputs that the data model accepts: with a
    second location of latitude 91 the scheduler raises [ValueError] when it
    scores that location, and on a visit of a hundred million hours it raises
    [OverflowError] when it adds the duration to 08:00.  Nothing is returned,
    so no location is in a returned list. *)
Lemma scheduler_raises_on_unchecked_input :
  schedule_cluster_with_priorities_exn [base_stop; polar_stop] eight twenty
  = Raised ValueError
  ∧ schedule_cluster_with_priorities_exn [endless_stop] eight twenty
    = Raised OverflowError
  ∧ ¬ ∃ r, schedule_cluster_with_priorities_exn [base_stop; polar_stop] eight twenty
           = Returned r.
Proof.
  split; [vm_compute; reflexivity|]. split; [vm_compute; reflexivity|].
  intros [r Hr]. vm_compute in Hr. discriminate.
Qed.

(** Alone in its group the location of latitude 91 is scheduled: no distance
    is measured. *)
Example lone_polar_stop_scheduled :
  (λ r : GroupResult, (times <$> schedule r, name <$> unvisitable r))
    <$> (match schedule_cluster_with_priorities_exn [polar_stop] eight twenty with
         | Returned r => Some r
         | Raised _ => None
         end)
  = Some ([("N", 480, 540)], []).
Proof. vm_compute. reflexivity. Qed.

(** * Further properties of the code *)

(** ** Placement and the group scheduler *)

Section scheduling_more.
Context `{Geodesy}.
Implicit Types (loc location : Location) (e : ScheduleEntry)
  (s : list ScheduleEntry) (st : SchedState) (cluster : list Location).

Lemma Sorted_lookup_adjacent {A} (R : relation A) (l : list A) (i : nat) (a b : A) :
  Sorted R l → l !! i = Some a → l !! S i = Some b → R a b.
Proof.
  intros Hs. revert i. induction Hs as [|x l Hs IH Hhd]; intros i Ha Hb; [done|].
  destruct i as [|i].
  - injection Ha as ->. destruct l as [|y l]; [done|]. injection Hb as ->.
    by apply HdRel_inv in Hhd.
  - by apply (IH i).
Qed.

Lemma schedule_single_location_infeasible loc s daily_start daily_end :
  infeasible daily_start daily_end loc →
  schedule_single_location loc s daily_start daily_end = None.
Proof.
  unfold infeasible. intros Hinf. rewrite schedule_single_location_unfold. cbn zeta.
  by rewrite (proj2 (Z.ltb_lt _ _)) by done.
Qed.



(** The first entry of a schedule, while the loop runs: it is the entry of an
    input location, placed at the earliest start the day and that location
    allow, and over by the time the day or the location closes. *)
Lemma sched_run_first_entry cluster daily_start daily_end first :
  valid_hhmm daily_start → valid_hhmm daily_end → Forall plannable cluster →
  head (st_schedule (sched_run cluster daily_start daily_end)) = Some first →
  ∃ loc, loc ∈ cluster ∧ entry_of loc first
         ∧ start_time first = Z.max daily_start (opening_hours loc)
         ∧ end_time first <= Z.min daily_end (closing_hours loc).
Proof.
  intros Hds Hde Hplan.
  set (good := λ e : ScheduleEntry,
         ∃ loc, loc ∈ cluster ∧ entry_of loc e
                ∧ start_time e = Z.max daily_start (opening_hours loc)
                ∧ end_time e <= Z.min daily_end (closing_hours loc)).
  assert (steady daily_start (sched_run cluster daily_start daily_end)
          ∧ (∀ e, head (st_schedule (sched_run cluster daily_start daily_end)) = Some e
                  → good e)
          ∧ st_cluster (sched_run cluster daily_start daily_end) ⊆ cluster)
    as (_ & Hhead & _); [|by apply Hhead].
  unfold sched_run.
  apply (sched_loop_invariant (λ st,
           steady daily_start st
           ∧ (∀ e, head (st_schedule st) = Some e → good e)
           ∧ st_cluster st ⊆ cluster)).
  2: { split; [|split; [by intros e [=]|done]].
       split; [split; constructor|]. split; [done|]. by intros e c [=]. }
  intros st c cs Hc (Hsteady & Hhead & Hsub).
  split; [by apply sched_body_steady|].
  destruct Hsteady as ([Hv _] & Hplan' & _).
  pose proof (select_next_elem st c cs) as Hin.
  pose proof (@list_remove_first_subseteq _ _ (select_next st c cs).1 (c :: cs)) as Hrem.
  rewrite Hc in Hsub, Hplan'.
  destruct (sched_body_cases daily_start daily_end st c cs)
    as [Hcl [(e & He & Hsched & _)|(_ & Hsched & _)]]; rewrite Hsched, Hcl.
  2: { split; [done|]. intros x Hx. by apply Hsub, Hrem. }
  split; [|intros x Hx; by apply Hsub, Hrem].
  destruct (proj1 (Forall_forall _ _) Hplan' _ Hin) as [Hloc Hdur].
  destruct (placement_position _ _ _ _ _ Hds Hde Hloc Hdur Hv He)
    as (Hof & _ & _ & Hpos).
  intros e0 He0. destruct (st_schedule st) as [|x s] eqn:Hs.
  - simpl in He0. injection He0 as <-.
    exists (select_next st c cs).1. split; [by apply Hsub|]. split; [done|].
    change (start_time (set_reason _ e)) with (start_time e).
    change (end_time (set_reason _ e)) with (end_time e).
    destruct Hpos as [_ Hstart Hend|first' rest Heq _ _ _
                     |s1 q x s2 Heq _ _|s1 q Heq _ _]; [done|done|..].
    + by destruct s1.
    + by destruct s1.
  - simpl in He0. by apply Hhead.
Qed.
End scheduling_more.

(** ** The rescue pass and the scheduling stage *)

Section rescue_more.
Context `{Geodesy}.
Implicit Types (loc location : Location) (e x y : ScheduleEntry)
  (clusters : list (nat * GroupResult)) (locations : list Location).

Lemma insert_by_start_HdRel y x (l : list ScheduleEntry) :
  HdRel starts_no_later y l → starts_no_later y x →
  HdRel starts_no_later y (insert_by_start x l).
Proof.
  intros Hhd Hyx. destruct l as [|z r]; simpl; [by constructor|].
  apply HdRel_inv in Hhd. destruct (_ <=? _); by constructor.
Qed.

Lemma insert_by_start_sorted x (l : list ScheduleEntry) :
  Sorted starts_no_later l → Sorted starts_no_later (insert_by_start x l).
Proof.
  induction 1 as [|y r Hs IH Hhd]; simpl; [by repeat constructor|].
  destruct (Z.leb_spec (start_time y) (start_time x)) as [Hle|Hgt].
  - constructor; [done|]. by apply insert_by_start_HdRel.
  - constructor; [by constructor|]. constructor. unfold starts_no_later. lia.
Qed.

(** Whatever the list, the sort returns it sorted by start time. *)
Lemma sort_by_start_time_sorted (l : list ScheduleEntry) :
  Sorted starts_no_later (sort_by_start_time l).
Proof.
  induction l as [|x l IH] using rev_ind; [constructor|].
  rewrite sort_by_start_time_snoc. by apply insert_by_start_sorted.
Qed.

Lemma rescued_refl (a : nat * GroupResult) : rescued a a.
Proof. split; [done|]. split; [done|]. by left. Qed.

Lemma rescued_trans (a b c : nat * GroupResult) : rescued a b → rescued b c → rescued a c.
Proof.
  intros (Hid & Hun & Hs) (Hid' & Hun' & Hs').
  split; [congruence|]. split; [congruence|].
  destruct Hs' as [Heq|?]; [|by right]. rewrite Heq. done.
Qed.

Lemma try_clusters_rescued location clusters daily_start daily_end clusters' :
  try_clusters location clusters daily_start daily_end = Some clusters' →
  Forall2 rescued clusters clusters'.
Proof.
  intros Htry.
  destruct (try_clusters_Some _ _ _ _ _ Htry)
    as (pre & cid & g & post & e & -> & _ & _ & ->).
  apply Forall2_app; [apply Forall_Forall2_diag, Forall_forall; intros; apply rescued_refl|].
  constructor; [|apply Forall_Forall2_diag, Forall_forall; intros; apply rescued_refl].
  split; [done|]. split; [done|]. right. simpl. apply sort_by_start_time_sorted.
Qed.

Lemma rescue_loop_rescued locations clusters acc daily_start daily_end :
  Forall2 rescued clusters (rescue_loop locations clusters acc daily_start daily_end).1.
Proof.
  revert clusters acc. induction locations as [|location rest IH]; intros clusters acc.
  { simpl. apply Forall_Forall2_diag, Forall_forall. intros. apply rescued_refl. }
  simpl. destruct (try_clusters location clusters daily_start daily_end)
    as [clusters1|] eqn:Htry; [|apply IH].
  eapply Forall2_trans; [|by eapply try_clusters_rescued|apply IH].
  apply rescued_trans.
Qed.

Lemma try_clusters_infeasible location clusters daily_start daily_end :
  infeasible daily_start daily_end location →
  try_clusters location clusters daily_start daily_end = None.
Proof.
  intros Hinf. induction clusters as [|[cid g] rest IH]; [done|]. simpl.
  rewrite schedule_single_location_infeasible by done. by rewrite IH.
Qed.

Lemma rescue_loop_infeasible locations clusters acc daily_start daily_end loc :
  loc ∈ locations → infeasible daily_start daily_end loc →
  loc ∈ (rescue_loop locations clusters acc daily_start daily_end).2.
Proof.
  intros Hloc Hinf. revert clusters acc.
  induction locations as [|location rest IH]; intros clusters acc;
    [by apply elem_of_nil in Hloc|].
  apply elem_of_cons in Hloc as [<-|Hloc].
  - simpl. rewrite try_clusters_infeasible by done.
    pose proof (rescue_loop_spec rest clusters (acc ++ [loc]) daily_start daily_end) as Hs.
    destruct (rescue_loop rest clusters (acc ++ [loc]) daily_start daily_end)
      as [clusters' unv'].
    destruct Hs as [_ (kept & -> & _)]. simpl.
    apply elem_of_app. left. apply elem_of_app. right. apply list_elem_of_here.
  - simpl. destruct (try_clusters location clusters daily_start daily_end); by apply IH.
Qed.

Lemma grouped_sizes (best_clusters : list (nat * list Location)) daily_start daily_end :
  let grouped :=
    (λ c : nat * list Location,
       (c.1, schedule_cluster_with_priorities c.2 daily_start daily_end))
      <$> best_clusters in
  (total_scheduled grouped + length (concat ((λ g, unvisitable g.2) <$> grouped))
   = total_locations best_clusters)%nat.
Proof.
  cbn zeta. induction best_clusters as [|[cid cluster] rest IH]; [done|].
  rewrite !fmap_cons. unfold total_scheduled, total_locations in *.
  cbn [sum_list_with concat fst snd]. rewrite length_app.
  pose proof (schedule_cluster_lengths cluster daily_start daily_end) as Hlen.
  cbn zeta in Hlen. lia.
Qed.

Lemma Forall2_grown_ids clusters clusters' :
  Forall2 grown clusters clusters' → clusters'.*1 = clusters.*1.
Proof.
  induction 1 as [|a b l l' [Hid _] _ IH]; [done|].
  rewrite !fmap_cons. by rewrite IH, Hid.
Qed.

Lemma schedule_stage_conserves (best_clusters : list (nat * list Location))
    daily_start daily_end :
  ∃ grouped_clusters final_unvisitable,
    schedule_stage best_clusters daily_start daily_end
    = Some (grouped_clusters, final_unvisitable)
    ∧ grouped_clusters.*1 = best_clusters.*1
    ∧ (total_scheduled grouped_clusters + length final_unvisitable
       = total_locations best_clusters)%nat.
Proof.
  rewrite schedule_stage_unfold. cbn zeta. unfold handle_unvisitable.
  set (grouped := (λ c : nat * list Location,
                     (c.1, schedule_cluster_with_priorities c.2 daily_start daily_end))
                    <$> best_clusters).
  pose proof (rescue_loop_spec (concat ((λ g, unvisitable g.2) <$> grouped)) grouped []
                daily_start daily_end) as Hspec.
  destruct (rescue_loop _ grouped [] daily_start daily_end) as [clusters' unv'].
  destruct Hspec as [Hgrown (kept & -> & _ & Hcount)].
  exists clusters', kept. split; [done|]. split.
  - rewrite (Forall2_grown_ids _ _ Hgrown). unfold grouped.
    rewrite <- list_fmap_compose. by apply list_fmap_ext.
  - rewrite Hcount. apply grouped_sizes.
Qed.

End rescue_more.

(** ** The dictionary of locations and the handler *)

Section routes_more.
Context `{Geodesy}.
Implicit Types (loc : Location) (pts : list Location) (d : list (string * Location))
  (bc : list (list Location)).

Lemma dict_get_set_eq k v d : dict_get k (dict_set k v d) = Some v.
Proof.
  induction d as [|[k' v'] r IH]; simpl; [by rewrite decide_True|].
  destruct (decide (k' = k)) as [->|Hne]; simpl.
  - by rewrite decide_True.
  - by rewrite decide_False.
Qed.

Lemma dict_get_set_ne k k' v d : k' ≠ k → dict_get k' (dict_set k v d) = dict_get k' d.
Proof.
  intros Hne. induction d as [|[k0 v0] r IH]; simpl; [by rewrite decide_False|].
  destruct (decide (k0 = k)) as [->|Hne0]; simpl.
  - rewrite !decide_False by done. done.
  - destruct (decide (k0 = k')); [done|apply IH].
Qed.

Lemma dict_set_keys k v d :
  (dict_set k v d).*1 = if decide (k ∈ d.*1) then d.*1 else d.*1 ++ [k].
Proof.
  induction d as [|[k0 v0] r IH].
  { cbn [dict_set fmap list_fmap fst app]. case_decide as Hin; [|done].
    by apply elem_of_nil in Hin. }
  cbn [dict_set]. destruct (decide (k0 = k)) as [->|Hne0].
  - clear IH. rewrite !fmap_cons. cbn [fst].
    destruct (decide (k ∈ k :: r.*1)) as [Hin|Hin]; [done|].
    exfalso. apply Hin, list_elem_of_here.
  - rewrite !fmap_cons, IH. cbn [fst].
    destruct (decide (k ∈ r.*1)) as [Hin|Hnin];
      destruct (decide (k ∈ k0 :: r.*1)) as [Hin'|Hin']; try done.
    + exfalso. by apply Hin', list_elem_of_further.
    + apply elem_of_cons in Hin' as [?|?]; [by subst|done].
Qed.

Lemma fold_dict_set_keys pts d :
  NoDup d.*1 →
  let d' := fold_left (λ d loc, dict_set (name loc) loc d) pts d in
  NoDup d'.*1 ∧ ∀ k, k ∈ d'.*1 ↔ k ∈ d.*1 ∨ k ∈ name <$> pts.
Proof.
  cbn zeta. revert d. induction pts as [|loc pts IH]; intros d Hnd; simpl.
  { split; [done|]. intros k. rewrite elem_of_nil. tauto. }
  assert (NoDup (dict_set (name loc) loc d).*1
          ∧ ∀ k, k ∈ (dict_set (name loc) loc d).*1 ↔ k ∈ d.*1 ∨ k = name loc) as [Hnd' Hk].
  { rewrite dict_set_keys. destruct (decide (name loc ∈ d.*1)) as [Hin|Hnin].
    - split; [done|]. intros k. split; [tauto|]. intros [?| ->]; done.
    - split.
      + apply NoDup_app. split; [done|]. split; [|apply NoDup_singleton].
        intros x Hx Hx'. apply list_elem_of_singleton in Hx' as ->. done.
      + intros k. rewrite elem_of_app, list_elem_of_singleton. done. }
  destruct (IH _ Hnd') as [Hnd'' Hk']. split; [done|].
  intros k. rewrite Hk', Hk, elem_of_cons. tauto.
Qed.

Lemma fold_dict_get pts d k :
  dict_get k (fold_left (λ d loc, dict_set (name loc) loc d) pts d)
  = match last (filter (λ loc, name loc = k) pts) with
    | Some v => Some v
    | None => dict_get k d
    end.
Proof.
  revert d. induction pts as [|loc pts IH]; intros d; [done|].
  cbn [fold_left]. rewrite IH. rewrite filter_cons.
  destruct (decide (name loc = k)) as [<-|Hne].
  - rewrite last_cons, dict_get_set_eq. by destruct (last _).
  - rewrite dict_get_set_ne by done. done.
Qed.

Lemma locations_of_size pts :
  length (locations_of pts) = length (remove_dups (name <$> pts)).
Proof.
  destruct (fold_dict_set_keys pts [] (NoDup_nil_2)) as [Hnd Hk].
  fold (locations_of pts) in Hnd, Hk.
  rewrite <- (length_fmap fst (locations_of pts)).
  apply Permutation_length, NoDup_Permutation; [done|apply NoDup_remove_dups|].
  intros k. rewrite Hk, elem_of_remove_dups, elem_of_nil. tauto.
Qed.

Lemma fill_clusters_out_of_range d (pairs : list (string * nat)) bc :
  Forall (λ p, is_Some (dict_get p.1 d)) pairs →
  Exists (λ p, (length bc <= p.2)%nat) pairs →
  fill_clusters d pairs bc = None.
Proof.
  intros Hres. revert bc. induction Hres as [|[nm c] rest [v Hv] _ IH]; intros bc Hex.
  { by apply Exists_nil in Hex. }
  simpl in *. rewrite Hv. simpl.
  destruct (bc !! c) as [g|] eqn:Hc; [|done]. simpl.
  apply lookup_lt_Some in Hc. apply IH.
  apply Exists_cons in Hex as [Hbad|Hex]; [simpl in Hbad; lia|].
  by rewrite length_insert.
Qed.
End routes_more.

Section routes_exceptions.
Context `{Geodesy}.

End routes_exceptions.

(** ** Counting labels *)

Section counting.
Implicit Types (d : list (nat * nat)) (labels : list nat).

Lemma counter_get_add x y d :
  counter_get y (counter_add x d)
  = (counter_get y d + if decide (y = x) then 1 else 0)%nat.
Proof.
  induction d as [|[k n] r IH]; simpl.
  - destruct (decide (x = y)), (decide (y = x)); congruence || lia.
  - destruct (decide (k = x)) as [->|Hkx]; simpl.
    + destruct (decide (x = y)), (decide (y = x)); congruence || lia.
    + destruct (decide (k = y)) as [->|Hky]; [|apply IH].
      rewrite decide_False by done. lia.
Qed.

Lemma counter_add_keys x d :
  (counter_add x d).*1 = if decide (x ∈ d.*1) then d.*1 else d.*1 ++ [x].
Proof.
  induction d as [|[k n] r IH].
  { cbn [counter_add fmap list_fmap fst app].
    destruct (decide (x ∈ [])) as [Hin|_]; [by apply elem_of_nil in Hin|done]. }
  cbn [counter_add]. destruct (decide (k = x)) as [->|Hne].
  - clear IH. rewrite !fmap_cons. cbn [fst].
    destruct (decide (x ∈ x :: r.*1)) as [Hin|Hin]; [done|].
    exfalso. apply Hin, list_elem_of_here.
  - rewrite !fmap_cons, IH. cbn [fst].
    destruct (decide (x ∈ r.*1)) as [Hin|Hnin];
      destruct (decide (x ∈ k :: r.*1)) as [Hin'|Hin']; try done.
    + exfalso. by apply Hin', list_elem_of_further.
    + apply elem_of_cons in Hin' as [?|?]; [by subst|done].
Qed.

Lemma counter_add_positive x d :
  Forall (λ p, (0 < p.2)%nat) d → Forall (λ p, (0 < p.2)%nat) (counter_add x d).
Proof.
  induction 1 as [|[k n] r Hn Hr IH]; simpl; [repeat constructor|].
  destruct (decide (k = x)); constructor; simpl in *; done || lia.
Qed.

Lemma counter_add_wf x d : counter_wf d → counter_wf (counter_add x d).
Proof.
  intros [Hnd Hpos]. split; [|by apply counter_add_positive].
  rewrite counter_add_keys. destruct (decide (x ∈ d.*1)); [done|].
  apply NoDup_app. split; [done|]. split; [|apply NoDup_singleton].
  intros y Hy Hy'. apply list_elem_of_singleton in Hy' as ->. done.
Qed.

Lemma counter_add_total x d :
  sum_list_with snd (counter_add x d) = S (sum_list_with snd d).
Proof.
  induction d as [|[k n] r IH]; simpl; [done|].
  destruct (decide (k = x)); simpl; [done|]. rewrite IH. lia.
Qed.

Lemma Counter_fold labels d :
  counter_wf d →
  let d' := fold_left (λ d x, counter_add x d) labels d in
  counter_wf d'
  ∧ (∀ y, counter_get y d' = (counter_get y d + occurrences y labels)%nat)
  ∧ sum_list_with snd d' = (sum_list_with snd d + length labels)%nat.
Proof.
  cbn zeta. revert d. induction labels as [|x labels IH]; intros d Hwf; simpl.
  { split; [done|]. split; [intros y; unfold occurrences; simpl; lia|lia]. }
  destruct (IH _ (counter_add_wf x d Hwf)) as (Hwf' & Hget & Hsum).
  split; [done|]. split.
  - intros y. rewrite Hget, counter_get_add. unfold occurrences.
    rewrite filter_cons. destruct (decide (x = y)), (decide (y = x));
      try congruence; simpl; lia.
  - rewrite Hsum, counter_add_total. lia.
Qed.

Lemma counter_wf_elem d k n :
  counter_wf d → ((k, n) ∈ d ↔ counter_get k d = n ∧ (0 < n)%nat).
Proof.
  intros [Hnd Hpos]. induction d as [|[k0 n0] r IH]; simpl.
  { rewrite elem_of_nil. split; [done|lia]. }
  simpl in Hnd. apply NoDup_cons in Hnd as [Hk0 Hnd].
  apply Forall_cons in Hpos as [Hn0 Hpos]. simpl in Hn0.
  rewrite elem_of_cons, (IH Hnd Hpos). destruct (decide (k0 = k)) as [->|Hne].
  - split.
    + intros [[= ->]|[Hget ?]]; [done|]. exfalso. apply Hk0.
      assert ((k, n) ∈ r) as Hin by (by apply (IH Hnd Hpos)).
      apply list_elem_of_fmap. by exists (k, n).
    + intros [-> ?]. by left.
  - split.
    + intros [[= -> ->]|?]; done.
    + intros ?. by right.
Qed.

Lemma occurrences_le labels x : (occurrences x labels <= length labels)%nat.
Proof. unfold occurrences. apply length_filter. Qed.

Lemma indicator_sum (x k : nat) :
  sum_list_with (λ i, if decide (x = i) then 1%nat else 0%nat) (seq 0 k)
  = if decide (x < k)%nat then 1%nat else 0%nat.
Proof.
  induction k as [|k IH]; [done|].
  rewrite seq_S, sum_list_with_app, IH. simpl.
  destruct (decide (x < k)%nat), (decide (x = k)), (decide (x < S k)%nat); lia.
Qed.

Lemma cluster_counts_total labels k :
  sum_list (cluster_counts labels k)
  = length (filter (λ l, (l < k)%nat) labels).
Proof.
  unfold cluster_counts.
  assert (∀ (f : nat → nat) (l : list nat), sum_list (f <$> l) = sum_list_with f l) as Hmap.
  { intros f l. induction l as [|a l IH]; [done|].
    rewrite fmap_cons. simpl. f_equal. exact IH. }
  rewrite Hmap. induction labels as [|x labels IH].
  { simpl. induction (seq 0 k) as [|a l IHl]; simpl; [done|]. by rewrite IHl. }
  rewrite filter_cons.
  transitivity (sum_list_with (λ i, if decide (x = i) then 1%nat else 0%nat) (seq 0 k)
                + sum_list_with (λ i, length (filter (λ l, l = i) labels)) (seq 0 k))%nat.
  - clear IH. induction (seq 0 k) as [|a l IHl]; simpl; [done|].
    rewrite IHl, filter_cons. destruct (decide (x = a)); simpl; lia.
  - rewrite IH, indicator_sum. destruct (decide (x < k)%nat); simpl; lia.
Qed.
End counting.

(** ** The weighted clusterer, continued *)

Section clustering_more.
Local Open Scope Q_scope.
Variable norm : list Q → Q.
Implicit Types (data centroids : list (list Q)).

Lemma penalty_weight_within penalty_threshold penalty_factor distance :
  distance <= penalty_threshold →
  penalty_weight penalty_threshold penalty_factor distance == 1.
Proof.
  intros Hd. unfold penalty_weight.
  assert (Qmax (distance - penalty_threshold) 0 == 0) as Hm by (apply Q.max_r; lra).
  assert (1 - penalty_factor * Qmax (distance - penalty_threshold) 0 == 1) as Hw.
  { rewrite Hm. ring. }
  rewrite Q.max_l; [done|]. rewrite Hw. lra.
Qed.

Lemma penalty_weight_le_1 penalty_threshold penalty_factor distance :
  0 <= penalty_factor →
  penalty_weight penalty_threshold penalty_factor distance <= 1.
Proof.
  intros Hpf. unfold penalty_weight. apply Q.max_lub; [|lra].
  pose proof (Q.le_max_r (distance - penalty_threshold) 0) as Hm.
  pose proof (Qmult_le_0_compat _ _ Hpf Hm). lra.
Qed.

Lemma penalty_weight_antitone penalty_threshold penalty_factor d1 d2 :
  0 <= penalty_factor → d1 <= d2 →
  penalty_weight penalty_threshold penalty_factor d2
  <= penalty_weight penalty_threshold penalty_factor d1.
Proof.
  intros Hpf Hd. unfold penalty_weight. apply Q.max_le_compat_r.
  assert (Qmax (d1 - penalty_threshold) 0 <= Qmax (d2 - penalty_threshold) 0) as Hm.
  { apply Q.max_le_compat_r. lra. }
  assert (penalty_factor * Qmax (d1 - penalty_threshold) 0
          <= penalty_factor * Qmax (d2 - penalty_threshold) 0) as Hp.
  { rewrite !(Qmult_comm penalty_factor). by apply Qmult_le_compat_r. }
  lra.
Qed.

(** The loop keeps the number of centroids, and the labels it has bound are
    one per point, each the index of a centroid. *)
Lemma kmeans_loop_shape (n : nat) data centroids (last : option (list nat))
    penalty_threshold penalty_factor :
  centroids ≠ [] →
  (∀ l, last = Some l →
        length l = length data ∧ Forall (λ c, (c < length centroids)%nat) l) →
  ∃ centroids' last',
    kmeans_loop norm n data centroids last penalty_threshold penalty_factor
    = Some (centroids', last')
    ∧ length centroids' = length centroids
    ∧ (∀ l, last' = Some l →
            length l = length data ∧ Forall (λ c, (c < length centroids)%nat) l)
    ∧ (is_Some last ∨ (0 < n)%nat → is_Some last').
Proof.
  revert centroids last. induction n as [|n IH]; intros centroids last Hne Hlast.
  { exists centroids, last. simpl. split; [done|]. split; [done|].
    split; [exact Hlast|]. intros [?|?]; [done|lia]. }
  cbn [kmeans_loop].
  destruct (assign_clusters_range norm data centroids Hne)
    as (labels & -> & Hlabels & Hrange).
  cbn [mbind option_bind].
  destruct (compute_new_centroids_spec norm data labels
              centroids penalty_threshold penalty_factor) as (new & -> & Hlen & _).
  cbn [mbind option_bind].
  destruct (IH new (Some labels))
    as (centroids' & last' & -> & Hlen' & Hgood & Hsome).
  - intros ->. destruct centroids; done.
  - intros l [= <-]. by rewrite Hlen.
  - exists centroids', last'. split; [done|]. split; [congruence|].
    split; [by rewrite <- Hlen|].
    intros _. apply Hsome. left. by eexists.
Qed.
End clustering_more.

(** ** The balance score *)

Section balance_facts.
Local Open Scope Q_scope.
Implicit Types (xs : list Q) (counts : list nat).

Lemma np_sum_counts counts :
  np_sum (count_values counts) == inject_Z (Z.of_nat (sum_list counts)).
Proof.
  induction counts as [|c counts IH]; [done|].
  change (np_sum (count_values (c :: counts)))
    with (inject_Z (Z.of_nat c) + np_sum (count_values counts)).
  rewrite IH. simpl sum_list_with. rewrite Nat2Z.inj_add, inject_Z_plus. done.
Qed.

Lemma np_sum_nonneg xs : Forall (λ x, 0 <= x) xs → 0 <= np_sum xs.
Proof.
  induction 1 as [|x xs Hx _ IH]; [done|].
  change (np_sum (x :: xs)) with (x + np_sum xs). lra.
Qed.

Lemma np_sum_zero xs : Forall (λ x, x == 0) xs → np_sum xs == 0.
Proof.
  induction 1 as [|x xs Hx _ IH]; [done|].
  change (np_sum (x :: xs)) with (x + np_sum xs). lra.
Qed.

Lemma length_positive {A} (l : list A) :
  l ≠ [] → 0 < inject_Z (Z.of_nat (length l)).
Proof.
  intros Hne. change 0 with (inject_Z 0). rewrite <- Zlt_Qlt.
  destruct l; [done|]. simpl. lia.
Qed.

Lemma np_mean_defined xs :
  xs ≠ [] → np_mean xs = Some (np_sum xs / inject_Z (Z.of_nat (length xs))).
Proof. intros Hne. unfold np_mean. by apply checked_div_positive, length_positive. Qed.

Lemma checked_div_zero x y : y == 0 → checked_div x y = None.
Proof. intros Hy. unfold checked_div. by rewrite (proj2 (Qeq_bool_iff _ _) Hy). Qed.

Lemma Qsquare_nonneg (y : Q) : 0 <= y * y.
Proof.
  destruct (Qlt_le_dec y 0).
  - assert (y * y == (- y) * (- y)) as -> by ring.
    apply Qmult_le_0_compat; lra.
  - apply Qmult_le_0_compat; lra.
Qed.

Lemma sum_list_constant (l : list nat) (c : nat) :
  Forall (λ n, n = c) l → sum_list l = (length l * c)%nat.
Proof. induction 1 as [|n l -> _ IH]; simpl; [done|]. rewrite IH. lia. Qed.

Lemma cluster_counts_length labels k : length (cluster_counts labels k) = k.
Proof. unfold cluster_counts. by rewrite length_fmap, length_seq. Qed.

(** The score unfolded, for at least one cluster. *)
Lemma balance_score_unfold (labels : list nat) (k : nat) :
  (0 < k)%nat →
  let xs := count_values (cluster_counts labels k) in
  let len := inject_Z (Z.of_nat k) in
  let mean := np_sum xs / len in
  0 < len
  ∧ np_sum xs == inject_Z (Z.of_nat (length (filter (λ l, (l < k)%nat) labels)))
  ∧ compute_cluster_balance_score labels k
    = checked_div (np_sum ((λ x, (x - mean) * (x - mean)) <$> xs) / len) mean.
Proof.
  intros Hk. cbn zeta.
  assert (count_values (cluster_counts labels k) ≠ []) as Hne.
  { intros Hnil. apply (f_equal length) in Hnil. unfold count_values in Hnil.
    rewrite length_fmap, cluster_counts_length in Hnil. simpl in Hnil. lia. }
  assert (length (count_values (cluster_counts labels k)) = k) as Hlen.
  { unfold count_values. by rewrite length_fmap, cluster_counts_length. }
  split. { rewrite <- Hlen. by apply length_positive. }
  split. { by rewrite np_sum_counts, cluster_counts_total. }
  unfold compute_cluster_balance_score, np_var.
  fold (count_values (cluster_counts labels k)).
  rewrite (np_mean_defined _ Hne), Hlen. cbn [mbind option_bind].
  rewrite np_mean_defined, length_fmap, Hlen; [done|].
  intros Hnil. apply (f_equal length) in Hnil. rewrite length_fmap, Hlen in Hnil.
  simpl in Hnil. lia.
Qed.

Lemma balance_score_nonneg (labels : list nat) (k : nat) :
  Exists (λ l, (l < k)%nat) labels →
  ∃ b, compute_cluster_balance_score labels k = Some b ∧ 0 <= b.
Proof.
  intros Hex.
  assert (0 < k)%nat as Hk.
  { apply Exists_exists in Hex as (l & _ & ?). lia. }
  destruct (balance_score_unfold labels k Hk) as (Hlen & Hsum & ->).
  set (xs := count_values (cluster_counts labels k)) in *.
  set (len := inject_Z (Z.of_nat k)) in *.
  assert (0 < np_sum xs) as Hpos.
  { rewrite Hsum. change 0 with (inject_Z 0). rewrite <- Zlt_Qlt.
    apply Exists_exists in Hex as (l & Hl & Hlt).
    assert (l ∈ filter (λ l, (l < k)%nat) labels) as Hin by (by apply list_elem_of_filter).
    destruct (filter _ labels); [by apply elem_of_nil in Hin|simpl; lia]. }
  assert (0 < np_sum xs / len) as Hmean.
  { apply Qlt_shift_div_l; [done|]. lra. }
  rewrite checked_div_positive by done. eexists. split; [done|].
  apply Qle_shift_div_l; [done|]. rewrite Qmult_0_l.
  apply Qle_shift_div_l; [done|]. rewrite Qmult_0_l.
  apply np_sum_nonneg, Forall_fmap, Forall_forall. intros x _. simpl.
  apply Qsquare_nonneg.
Qed.

Lemma balance_score_balanced (labels : list nat) (k c : nat) :
  (0 < k)%nat → (0 < c)%nat → Forall (λ n, n = c) (cluster_counts labels k) →
  ∃ b, compute_cluster_balance_score labels k = Some b ∧ b == 0.
Proof.
  intros Hk Hc Hall.
  destruct (balance_score_unfold labels k Hk) as (Hlen & _ & ->).
  set (xs := count_values (cluster_counts labels k)) in *.
  set (len := inject_Z (Z.of_nat k)) in *.
  assert (Forall (λ x, x = inject_Z (Z.of_nat c)) xs) as Hxs.
  { unfold xs, count_values. apply Forall_fmap. eapply Forall_impl; [exact Hall|].
    by intros n ->. }
  assert (np_sum xs == len * inject_Z (Z.of_nat c)) as Hsum.
  { unfold xs. rewrite np_sum_counts.
    assert (sum_list (cluster_counts labels k) = (k * c)%nat) as ->.
    { rewrite <- (cluster_counts_length labels k) at 2.
      by apply sum_list_constant. }
    unfold len. by rewrite Nat2Z.inj_mul, inject_Z_mult. }
  assert (np_sum xs / len == inject_Z (Z.of_nat c)) as Hmean.
  { rewrite Hsum. field. lra. }
  assert (0 < inject_Z (Z.of_nat c)) as Hcpos.
  { change 0 with (inject_Z 0). rewrite <- Zlt_Qlt. lia. }
  rewrite checked_div_positive by (rewrite Hmean; done).
  eexists. split; [done|].
  assert (np_sum ((λ x, (x - np_sum xs / len) * (x - np_sum xs / len)) <$> xs) == 0) as ->.
  { apply np_sum_zero, Forall_fmap. eapply Forall_impl; [exact Hxs|].
    intros x ->. simpl. rewrite Hmean. ring. }
  assert (0 < len * inject_Z (Z.of_nat c)) as Hprod by (by apply Qmult_lt_0_compat).
  field. rewrite Hsum. split; lra.
Qed.

Lemma balance_score_undefined (labels : list nat) (k : nat) :
  Forall (λ l, (k <= l)%nat) labels → compute_cluster_balance_score labels k = None.
Proof.
  intros Hout. destruct k as [|k]; [reflexivity|].
  assert (filter (λ l, (l < S k)%nat) labels = []) as Hnone.
  { induction Hout as [|l ls Hl _ IH]; [done|].
    rewrite filter_cons, decide_False by lia. done. }
  destruct (balance_score_unfold labels (S k) ltac:(lia)) as (Hlen & Hsum & ->).
  apply checked_div_zero. rewrite Hsum, Hnone. simpl. field. lra.
Qed.
End balance_facts.

(** * Further properties, stated *)

Section extras.
Context `{Geodesy}.

(** X1.  Placed into a timetable, a plannable location gets an entry of its
    own name and coordinates that lasts exactly its duration, lies within one
    day, and is clear of every entry already there: the procedure never
    double-books. *)
Theorem placement_never_double_books (location : Location)
    (entries : list ScheduleEntry) (daily_start daily_end : hhmm) (e : ScheduleEntry) :
  valid_hhmm daily_start → valid_hhmm daily_end → plannable location →
  timetable entries →
  schedule_single_location location entries daily_start daily_end = Some e →
  entry_of location e
  ∧ valid_entry e
  ∧ end_time e = start_time e + timedelta_hours (duration location)
  ∧ ∀ x, x ∈ entries → before x e ∨ before e x.
Proof.
  intros Hds Hde [Hloc Hdur] Ht Hssl.
  destruct (placement_position _ _ _ _ _ Hds Hde Hloc Hdur (proj1 Ht) Hssl)
    as (Hof & Hve & Hspan & Hpos).
  split; [done|]. split; [done|]. split; [done|]. by eapply position_clear.
Qed.

(** X2.  The group scheduler never waits: with plannable locations, every
    entry of the schedule it returns starts at the minute its predecessor
    ends. *)
Theorem group_schedule_has_no_idle_time (cluster : list Location)
    (daily_start daily_end : hhmm) :
  valid_hhmm daily_start → valid_hhmm daily_end → Forall plannable cluster →
  ∀ (i : nat) (a b : ScheduleEntry),
    schedule (schedule_cluster_with_priorities cluster daily_start daily_end) !! i = Some a →
    schedule (schedule_cluster_with_priorities cluster daily_start daily_end) !! S i = Some b →
    end_time a = start_time b.
Proof.
  intros Hds Hde Hplan i a b Ha Hb. simpl in Ha, Hb.
  apply annotate_proximity_lookup in Ha as (a' & Ha' & (_ & _ & _ & <-)).
  apply annotate_proximity_lookup in Hb as (b' & Hb' & (_ & _ & <- & _)).
  destruct (sched_run_steady cluster daily_start daily_end Hds Hde Hplan) as [[_ Hs] _].
  exact (Sorted_lookup_adjacent meets _ i a' b' Hs Ha' Hb').
Qed.

(** X3.  With plannable locations, every entry of a group schedule belongs to
    a location of the group, lasts its duration, starts no earlier than the
    day and ends no later than the day and than the location closes. *)
Theorem group_schedule_within_day_and_closing (cluster : list Location)
    (daily_start daily_end : hhmm) :
  valid_hhmm daily_start → valid_hhmm daily_end → Forall plannable cluster →
  Forall (λ e, ∃ loc, loc ∈ cluster
                      ∧ within_day_and_closing daily_start daily_end loc e)
    (schedule (schedule_cluster_with_priorities cluster daily_start daily_end)).
Proof. apply schedule_cluster_within. Qed.

(** X4.  With well-formed times of day and locations whose hours are
    well-formed and whose visit takes a positive time, the first entry of a
    group schedule is placed at the earliest start the day and its location
    allow, so it lies wholly inside the opening hours of its location and
    inside the daily window. *)
Theorem first_entry_within_opening_hours (cluster : list Location)
    (daily_start daily_end : hhmm) (first : ScheduleEntry) :
  valid_hhmm daily_start → valid_hhmm daily_end → Forall plannable cluster →
  head (schedule (schedule_cluster_with_priorities cluster daily_start daily_end))
  = Some first →
  ∃ loc, loc ∈ cluster ∧ entry_of loc first
         ∧ start_time first = Z.max daily_start (opening_hours loc)
         ∧ opening_hours loc <= start_time first
         ∧ daily_start <= start_time first
         ∧ end_time first <= closing_hours loc
         ∧ end_time first <= daily_end.
Proof.
  intros Hds Hde Hplan Hhead. rewrite head_lookup in Hhead. simpl in Hhead.
  apply annotate_proximity_lookup in Hhead as (e & He & (Hn & Hc & Hs & Hend)).
  rewrite <- head_lookup in He.
  destruct (sched_run_first_entry cluster daily_start daily_end e Hds Hde Hplan He)
    as (loc & Hloc & [Hn' Hc'] & Hstart & Hbound).
  exists loc. split; [done|]. split; [split; congruence|].
  rewrite <- Hs, <- Hend. split; [done|]. lia.
Qed.


(** X6.  The rescue pass keeps the groups, their ids and their order, never
    updates a group's own unvisitable list, and leaves every schedule either
    untouched or sorted by start time, whatever the durations. *)
Theorem rescue_pass_leaves_groups_sorted (locations : list Location)
    (clusters : list (nat * GroupResult)) (daily_start daily_end : hhmm) :
  Forall2 rescued clusters
    (handle_unvisitable locations clusters daily_start daily_end).1.
Proof. apply rescue_loop_rescued. Qed.

(** X7.  A leftover location that fails the first test of the placement
    procedure is returned unvisitable by the rescue pass, whatever the
    groups. *)
Theorem rescue_pass_returns_infeasible (locations : list Location)
    (clusters : list (nat * GroupResult)) (daily_start daily_end : hhmm)
    (loc : Location) :
  loc ∈ locations → infeasible daily_start daily_end loc →
  loc ∈ (handle_unvisitable locations clusters daily_start daily_end).2.
Proof. apply rescue_loop_infeasible. Qed.


(** X10.  The dictionary of locations holds one entry per name: its keys are
    the names of the points without repetition, and the entry of a name is
    the last point given with that name. *)
Theorem locations_dict_last_wins (pts : list Location) :
  NoDup (locations_of pts).*1
  ∧ (∀ k, k ∈ (locations_of pts).*1 ↔ k ∈ name <$> pts)
  ∧ (∀ k, dict_get k (locations_of pts) = last (filter (λ loc, name loc = k) pts))
  ∧ length (locations_of pts) = length (remove_dups (name <$> pts)).
Proof.
  destruct (fold_dict_set_keys pts [] (NoDup_nil_2)) as [Hnd Hk].
  split; [exact Hnd|]. split.
  - intros k. unfold locations_of. rewrite Hk, elem_of_nil. tauto.
  - split; [|apply locations_of_size].
    intros k. unfold locations_of. rewrite fold_dict_get. by destruct (last _).
Qed.

(** X19.  For one leftover location the rescue pass has two outcomes: every
    group's schedule rejects it, and it is returned with the groups as they
    were; or it goes to the first group, in the order of the dictionary, whose
    schedule accepts it: that group's schedule gets the new entry and is
    sorted, and no other group changes. *)
Theorem rescue_takes_first_fitting_group (location : Location)
    (clusters : list (nat * GroupResult)) (daily_start daily_end : hhmm) :
  (handle_unvisitable [location] clusters daily_start daily_end = (clusters, [location])
   ∧ Forall (λ c, schedule_single_location location (schedule c.2)
                    daily_start daily_end = None) clusters)
  ∨ ∃ pre cluster_id g post e,
      clusters = pre ++ (cluster_id, g) :: post
      ∧ Forall (λ c, schedule_single_location location (schedule c.2)
                       daily_start daily_end = None) pre
      ∧ schedule_single_location location (schedule g) daily_start daily_end = Some e
      ∧ handle_unvisitable [location] clusters daily_start daily_end
        = (pre ++ (cluster_id,
                   {| schedule := sort_by_start_time (schedule g ++ [e]);
                      unvisitable := unvisitable g |}) :: post, []).
Proof.
  unfold handle_unvisitable. cbn [rescue_loop].
  destruct (try_clusters location clusters daily_start daily_end) as [clusters'|] eqn:Htry.
  - right. destruct (try_clusters_Some _ _ _ _ _ Htry)
      as (pre & cid & g & post & e & Heq & Hpre & He & ->).
    by exists pre, cid, g, post, e.
  - left. split; [done|]. by apply try_clusters_None.
Qed.

(** X17.  With unique names and one label per point, the grouping by labels
    succeeds exactly when every label is below the group count; a label that
    is no key of the group dictionary makes it fail. *)
Theorem grouping_succeeds_iff_labels_in_range (pts : list Location)
    (labels : list nat) (k : nat) :
  NoDup (name <$> pts) → length labels = length pts →
  (is_Some (group_by_labels (locations_of pts) labels k)
   ↔ Forall (λ c, (c < k)%nat) labels).
Proof.
  intros Hnd Hlen. split.
  - intros Hsome. apply Forall_forall. intros c Hc.
    destruct (decide (c < k)%nat) as [|Hge]; [done|]. exfalso.
    assert (group_by_labels (locations_of pts) labels k = None) as Hnone;
      [|rewrite Hnone in Hsome; by destruct Hsome].
    unfold group_by_labels. rewrite locations_of_unique by done.
    set (d := (λ loc, (name loc, loc)) <$> pts).
    assert (d.*1 = name <$> pts) as Hkeys.
    { unfold d. rewrite <- list_fmap_compose. done. }
    rewrite Hkeys. apply fill_clusters_out_of_range.
    + apply Forall_forall. intros [nm c'] Hin.
      apply list_elem_of_lookup in Hin as [i Hi].
      apply lookup_zip_with_Some in Hi as (nm' & c'' & [= <- <-] & Hnm & _).
      rewrite list_lookup_fmap in Hnm.
      destruct (pts !! i) as [loc|] eqn:Hloc; [|done]. injection Hnm as <-.
      exists loc. simpl. apply dict_get_unique; [by rewrite Hkeys|].
      unfold d. apply list_elem_of_fmap. exists loc. split; [done|].
      by eapply list_elem_of_lookup_2.
    + apply Exists_exists. apply list_elem_of_lookup in Hc as [i Hi].
      destruct (lookup_lt_is_Some_2 pts i) as [loc Hloc].
      { rewrite <- Hlen. by eapply lookup_lt_Some. }
      exists (name loc, c). split; [|rewrite length_replicate; simpl; lia].
      apply list_elem_of_lookup. exists i. apply lookup_zip_with_Some.
      exists (name loc), c. split; [done|]. split; [|done].
      by rewrite list_lookup_fmap, Hloc.
  - intros Hrange. destruct (group_by_labels_spec pts labels k Hnd Hlen Hrange)
      as (clusters & -> & _). done.
Qed.

(** X18.  When every attempt accounts for the same number of locations, the
    multi-start search returns an attempt with the fewest unvisitable
    locations among those it ran. *)
Theorem search_returns_fewest_unvisitable (attempt : nat → GroupResult)
    (n total : nat) :
  (∀ i, (length (schedule (attempt i)) + length (unvisitable (attempt i)) = total)%nat) →
  ∃ j, (j < passes_run attempt 0 (S n))%nat
       ∧ iterative_search attempt (S n) = Some (attempt j)
       ∧ ∀ i, (i < passes_run attempt 0 (S n))%nat →
              (length (unvisitable (attempt j)) <= length (unvisitable (attempt i)))%nat.
Proof.
  intros Htotal.
  pose proof (search_loop_first_min attempt (S n) 0 None) as Hspec.
  unfold iterative_search.
  destruct (search_loop attempt 0 (S n) None) as [[sc r]|].
  - destruct Hspec as [Hmin [?|(j & Hj & -> & -> & _)]]; [done|].
    exists j. split; [lia|]. split; [done|]. intros i Hi.
    specialize (Hmin i ltac:(lia)). unfold attempt_score in Hmin.
    pose proof (Htotal i). pose proof (Htotal j). lia.
  - destruct Hspec as [_ Hk]. simpl in Hk. by case_bool_decide.
Qed.
End extras.

Section extras_exceptions.
Context `{GeodesyDomain}.

(** X8.  Whenever the scheduling stage returns, it has kept the group ids in
    their order and has neither lost nor duplicated a location: the entries of
    all final schedules and the final unvisitable locations are as many as the
    locations of all groups.  The stage returns whenever the times of day are
    well-formed, every duration can be added to a time of day, and geopy
    measures the distance between any two locations of a group. *)
Theorem scheduling_stage_conserves_locations
    (best_clusters : list (nat * list Location)) (daily_start daily_end : hhmm) :
  (∀ grouped_clusters final_unvisitable,
     schedule_stage_exn best_clusters daily_start daily_end
     = Returned (grouped_clusters, final_unvisitable) →
     grouped_clusters.*1 = best_clusters.*1
     ∧ (total_scheduled grouped_clusters + length final_unvisitable
        = total_locations best_clusters)%nat)
  ∧ (valid_hhmm daily_start → valid_hhmm daily_end →
     Forall (λ c, Forall well_formed c.2 ∧ all_measurable c.2) best_clusters →
     ∃ grouped_clusters final_unvisitable,
       schedule_stage_exn best_clusters daily_start daily_end
       = Returned (grouped_clusters, final_unvisitable)).
Proof.
  split.
  - intros grouped_clusters final_unvisitable Hr.
    apply schedule_stage_exn_agrees in Hr.
    destruct (schedule_stage_conserves best_clusters daily_start daily_end)
      as (g & u & Hres & Hids & Hcount).
    rewrite Hres in Hr. by injection Hr as -> ->.
  - intros Hds Hde Hall.
    destruct (schedule_stage_exn_returns best_clusters daily_start daily_end)
      as [[g u] Hr]; try done.
    by exists g, u.
Qed.

End extras_exceptions.

Section extras_sizes.
Local Open Scope Q_scope.

Lemma NoDup_filter_keys (P : nat * nat → Prop) `{∀ p, Decision (P p)}
    (d : list (nat * nat)) :
  NoDup d.*1 → NoDup (filter P d).*1.
Proof.
  induction d as [|[k n] r IH]; [done|]. rewrite fmap_cons. cbn [fst].
  intros [Hk Hnd]%NoDup_cons. rewrite filter_cons.
  destruct (decide (P (k, n))); [|by apply IH].
  rewrite fmap_cons. apply NoDup_cons. split; [|by apply IH]. cbn [fst].
  intros Hin. apply Hk. apply list_elem_of_fmap in Hin as ([k' n'] & -> & Hin).
  apply list_elem_of_filter in Hin as [_ Hin].
  apply list_elem_of_fmap. by exists (k', n').
Qed.

(** X12.  [check_cluster_balance] counts every label once: the counter has one
    entry per distinct label, holding its number of occurrences, and the
    counts add up to the number of labels.  The overloaded clusters are,
    without repetition, exactly the labels occurring more often than the
    limit; there is none when the labels are no more than the limit. *)
Theorem check_cluster_balance_counts (labels : list nat) (max_locations_per_day : nat) :
  let r := check_cluster_balance labels max_locations_per_day in
  NoDup r.1.*1
  ∧ (∀ i n, (i, n) ∈ r.1 ↔ n = occurrences i labels ∧ (0 < n)%nat)
  ∧ sum_list_with snd r.1 = length labels
  ∧ NoDup r.2
  ∧ (∀ i, i ∈ r.2 ↔ (max_locations_per_day < occurrences i labels)%nat)
  ∧ ((length labels <= max_locations_per_day)%nat → r.2 = []).
Proof.
  cbn zeta. unfold check_cluster_balance. cbn [fst snd].
  destruct (Counter_fold labels []) as (Hwf & Hget & Hsum).
  { split; [apply NoDup_nil_2|constructor]. }
  fold (Counter labels) in Hwf, Hget, Hsum. simpl in Hget, Hsum.
  assert (∀ i n, (i, n) ∈ Counter labels ↔ n = occurrences i labels ∧ (0 < n)%nat) as Hin.
  { intros i n. rewrite (counter_wf_elem _ i n Hwf), Hget. split; intros [? ?]; done. }
  assert (∀ i, i ∈ (filter (λ ic : nat * nat, (max_locations_per_day < ic.2)%nat)
                      (Counter labels)).*1
               ↔ (max_locations_per_day < occurrences i labels)%nat) as Hover.
  { intros i. rewrite list_elem_of_fmap. split.
    - intros ([i' n] & -> & Hf). apply list_elem_of_filter in Hf as [Hlt Hmem].
      apply Hin in Hmem as [-> _]. done.
    - intros Hlt. exists (i, occurrences i labels). split; [done|].
      apply list_elem_of_filter. split; [done|]. apply Hin. split; [done|lia]. }
  split; [apply Hwf|]. split; [exact Hin|]. split; [exact Hsum|].
  split; [apply NoDup_filter_keys, Hwf|]. split; [exact Hover|].
  intros Hfew.
  destruct (filter _ (Counter labels)).*1 as [|i over] eqn:Heq; [done|]. exfalso.
  assert (max_locations_per_day < occurrences i labels)%nat as Hlt.
  { apply Hover. apply list_elem_of_here. }
  pose proof (occurrences_le labels i). lia.
Qed.

(** X13.  The cluster sizes of the balance score are one per group id, and
    together they count exactly the labels that are group ids; labels outside
    [0, num_clusters) are counted nowhere. *)
Theorem cluster_counts_cover_labels_in_range (labels : list nat) (num_clusters : nat) :
  length (cluster_counts labels num_clusters) = num_clusters
  ∧ sum_list (cluster_counts labels num_clusters)
    = length (filter (λ l, (l < num_clusters)%nat) labels)
  ∧ (Forall (λ l, (l < num_clusters)%nat) labels →
     sum_list (cluster_counts labels num_clusters) = length labels).
Proof.
  split; [apply cluster_counts_length|]. split; [apply cluster_counts_total|].
  intros Hall. rewrite cluster_counts_total. f_equal.
  induction Hall as [|l ls Hl _ IH]; [done|].
  rewrite filter_cons, decide_True by done. by rewrite IH.
Qed.

(** X14.  Over the rationals, the balance score has a value exactly when some
    label is a group id (otherwise the mean size is zero and the quotient
    undefined); the value is never negative, and it is zero when all groups
    have the same positive size. *)
Theorem balance_score_range (labels : list nat) (num_clusters : nat) :
  (is_Some (compute_cluster_balance_score labels num_clusters)
   ↔ Exists (λ l, (l < num_clusters)%nat) labels)
  ∧ (∀ b, compute_cluster_balance_score labels num_clusters = Some b → 0 <= b)
  ∧ (∀ c, (0 < num_clusters)%nat → (0 < c)%nat →
          Forall (λ n, n = c) (cluster_counts labels num_clusters) →
          ∃ b, compute_cluster_balance_score labels num_clusters = Some b ∧ b == 0).
Proof.
  assert (Exists (λ l, (l < num_clusters)%nat) labels
          ∨ Forall (λ l, (num_clusters <= l)%nat) labels) as Hcases.
  { destruct (decide (Exists (λ l, (l < num_clusters)%nat) labels)) as [|Hno]; [by left|].
    right. apply Forall_forall. intros l Hl.
    destruct (decide (num_clusters <= l)%nat); [done|]. exfalso. apply Hno.
    apply Exists_exists. exists l. split; [done|lia]. }
  split; [|split].
  - split.
    + intros [b Hb]. destruct Hcases as [|Hout]; [done|].
      by rewrite (balance_score_undefined _ _ Hout) in Hb.
    + intros Hex. destruct (balance_score_nonneg _ _ Hex) as (b & -> & _). done.
  - intros b Hb. destruct Hcases as [Hex|Hout].
    + destruct (balance_score_nonneg _ _ Hex) as (b' & Hb' & Hpos). congruence.
    + by rewrite (balance_score_undefined _ _ Hout) in Hb.
  - intros c. apply balance_score_balanced.
Qed.

(** Two of three labels in group 0, one in group 1: the sizes are 2 and 1,
    their variance 1/4, their mean 3/2. *)
Example balance_score_of_two_and_one :
  ∃ b, compute_cluster_balance_score [0; 0; 1]%nat 2 = Some b ∧ b == 1 # 6.
Proof. eexists. split; [vm_compute; reflexivity|reflexivity]. Qed.

(** X16.  The soft-penalty weight is 1 for a point within the threshold of
    its centroid; with a non-negative penalty factor it never exceeds 1 and
    does not grow with the distance. *)
Theorem penalty_weight_profile (penalty_threshold penalty_factor : Q) :
  (∀ distance, distance <= penalty_threshold →
               penalty_weight penalty_threshold penalty_factor distance == 1)
  ∧ (0 <= penalty_factor →
     ∀ distance, penalty_weight penalty_threshold penalty_factor distance <= 1)
  ∧ (0 <= penalty_factor →
     ∀ d1 d2, d1 <= d2 →
              penalty_weight penalty_threshold penalty_factor d2
              <= penalty_weight penalty_threshold penalty_factor d1).
Proof.
  split; [intros d; apply penalty_weight_within|].
  split; [intros Hpf d; by apply penalty_weight_le_1|].
  intros Hpf d1 d2. by apply penalty_weight_antitone.
Qed.

(** With the default threshold 0.3 and factor 0.5, a point at distance 1.3
    weighs 1/2 and a point at distance 10 weighs the floor 1/100. *)
Example penalty_weight_defaults :
  penalty_weight (3 # 10) (1 # 2) (13 # 10) == 1 # 2
  ∧ penalty_weight (3 # 10) (1 # 2) 10 == 1 # 100.
Proof. split; reflexivity. Qed.

Variable norm : list Q → Q.

(** X15.  The clusterer of [app/clustering.py] returns exactly when it is
    asked for at least one cluster, for no more clusters than there are
    points, and for at least one iteration.  It then returns as many centroids
    as asked and one label per point, each label the index of a centroid, and
    none of its divisions meets a zero divisor.  Asked for more clusters than
    there are points it raises in [tf.slice]; asked for no cluster it raises
    in [tf.argmin]; without an iteration it has no labels to return. *)
Theorem kmeans_returns_k_centroids_and_labels (data shuffled : list (list Q))
    (num_clusters n : nat) (penalty_threshold penalty_factor : Q) :
  ((length shuffled < num_clusters)%nat →
   tensorflow_kmeans norm data shuffled num_clusters n penalty_threshold penalty_factor
   = None)
  ∧ tensorflow_kmeans norm data shuffled num_clusters 0 penalty_threshold penalty_factor
    = None
  ∧ tensorflow_kmeans norm data shuffled 0 n penalty_threshold penalty_factor = None
  ∧ ((0 < num_clusters)%nat → (num_clusters <= length shuffled)%nat →
     ∃ centroids labels,
       tensorflow_kmeans norm data shuffled num_clusters (S n)
         penalty_threshold penalty_factor = Some (centroids, labels)
       ∧ length centroids = num_clusters
       ∧ length labels = length data
       ∧ Forall (λ c, (c < num_clusters)%nat) labels).
Proof.
  unfold tensorflow_kmeans, tf_slice_rows. split; [|split; [|split]].
  - intros Hlt. by rewrite decide_False by lia.
  - by case_decide.
  - rewrite decide_True by lia. by destruct n.
  - intros Hk Hle. rewrite decide_True by done. cbn [mbind option_bind].
    assert (length (take num_clusters shuffled) = num_clusters) as Hlen.
    { rewrite length_take. lia. }
    destruct (kmeans_loop_shape norm (S n) data (take num_clusters shuffled) None
                penalty_threshold penalty_factor)
      as (centroids & last & -> & Hlen' & Hgood & Hsome).
    + intros Hnil. rewrite Hnil in Hlen. simpl in Hlen. lia.
    + by intros l [=].
    + destruct Hsome as [labels ->]; [right; lia|].
      exists centroids, labels. cbn [mbind option_bind]. split; [done|].
      destruct (Hgood labels eq_refl) as [? ?]. rewrite Hlen in *. done.
Qed.
End extras_sizes.

(** * The further properties on concrete requests *)

Lemma eight_valid : valid_hhmm eight.
Proof. vm_compute. split; [discriminate|reflexivity]. Defined.

Lemma twenty_valid : valid_hhmm twenty.
Proof. vm_compute. split; [discriminate|reflexivity]. Defined.

Lemma shops_plannable : Forall plannable [early_shop; late_shop].
Proof. repeat constructor; vm_compute; (discriminate || reflexivity). Defined.

Lemma placement_never_double_books_witness :
  valid_hhmm eight ∧ valid_hhmm twenty ∧ plannable stop_r ∧ timetable morning_of_q
  ∧ schedule_single_location stop_r morning_of_q eight twenty
    = Some (create_schedule_entry stop_r 480 600)
  ∧ entry_of stop_r (create_schedule_entry stop_r 480 600)
  ∧ valid_entry (create_schedule_entry stop_r 480 600)
  ∧ end_time (create_schedule_entry stop_r 480 600)
    = start_time (create_schedule_entry stop_r 480 600)
      + timedelta_hours (duration stop_r)
  ∧ ∀ x, x ∈ morning_of_q →
         before x (create_schedule_entry stop_r 480 600)
         ∨ before (create_schedule_entry stop_r 480 600) x.
Proof.
  assert (plannable stop_r) as H3.
  { repeat constructor; vm_compute; (discriminate || reflexivity). }
  assert (timetable morning_of_q) as H4.
  { split; repeat constructor; vm_compute; (discriminate || reflexivity). }
  assert (schedule_single_location stop_r morning_of_q eight twenty
          = Some (create_schedule_entry stop_r 480 600)) as H5.
  { vm_compute. reflexivity. }
  split; [exact eight_valid|]. split; [exact twenty_valid|].
  split; [exact H3|]. split; [exact H4|]. split; [exact H5|].
  exact (placement_never_double_books stop_r morning_of_q eight twenty _
           eight_valid twenty_valid H3 H4 H5).
Defined.

Lemma group_schedule_has_no_idle_time_witness :
  valid_hhmm eight ∧ valid_hhmm twenty ∧ Forall plannable [early_shop; late_shop]
  ∧ ∀ (i : nat) (a b : ScheduleEntry),
      schedule (schedule_cluster_with_priorities [early_shop; late_shop] eight twenty)
        !! i = Some a →
      schedule (schedule_cluster_with_priorities [early_shop; late_shop] eight twenty)
        !! S i = Some b →
      end_time a = start_time b.
Proof.
  split; [exact eight_valid|]. split; [exact twenty_valid|].
  split; [exact shops_plannable|].
  exact (group_schedule_has_no_idle_time [early_shop; late_shop] eight twenty
           eight_valid twenty_valid shops_plannable).
Defined.

Lemma group_schedule_within_day_and_closing_witness :
  valid_hhmm eight ∧ valid_hhmm twenty ∧ Forall plannable [early_shop; late_shop]
  ∧ Forall (λ e, ∃ loc, loc ∈ [early_shop; late_shop]
                        ∧ within_day_and_closing eight twenty loc e)
      (schedule (schedule_cluster_with_priorities [early_shop; late_shop] eight twenty)).
Proof.
  split; [exact eight_valid|]. split; [exact twenty_valid|].
  split; [exact shops_plannable|].
  exact (group_schedule_within_day_and_closing [early_shop; late_shop] eight twenty
           eight_valid twenty_valid shops_plannable).
Defined.

Lemma first_entry_within_opening_hours_witness :
  valid_hhmm eight ∧ valid_hhmm twenty ∧ Forall plannable [early_shop; late_shop]
  ∧ head (schedule (schedule_cluster_with_priorities [early_shop; late_shop] eight twenty))
    = Some first_of_shops
  ∧ ∃ loc, loc ∈ [early_shop; late_shop] ∧ entry_of loc first_of_shops
           ∧ start_time first_of_shops = Z.max eight (opening_hours loc)
           ∧ opening_hours loc <= start_time first_of_shops
           ∧ eight <= start_time first_of_shops
           ∧ end_time first_of_shops <= closing_hours loc
           ∧ end_time first_of_shops <= twenty.
Proof.
  assert (head (schedule (schedule_cluster_with_priorities [early_shop; late_shop]
                            eight twenty)) = Some first_of_shops) as H4.
  { vm_compute. reflexivity. }
  split; [exact eight_valid|]. split; [exact twenty_valid|].
  split; [exact shops_plannable|]. split; [exact H4|].
  exact (first_entry_within_opening_hours [early_shop; late_shop] eight twenty
           first_of_shops eight_valid twenty_valid shops_plannable H4).
Defined.

Lemma short_evening_infeasible : infeasible eight twenty short_evening.
Proof. vm_compute. reflexivity. Defined.


Lemma rescue_pass_returns_infeasible_witness :
  short_evening ∈ [short_evening]
  ∧ infeasible eight twenty short_evening
  ∧ short_evening
    ∈ (handle_unvisitable [short_evening]
         [(0%nat, {| schedule := morning_of_q; unvisitable := [] |})] eight twenty).2.
Proof.
  assert (short_evening ∈ [short_evening]) as H1 by (repeat constructor).
  split; [exact H1|]. split; [exact short_evening_infeasible|].
  exact (rescue_pass_returns_infeasible [short_evening]
           [(0%nat, {| schedule := morning_of_q; unvisitable := [] |})] eight twenty
           short_evening H1 short_evening_infeasible).
Defined.


(** The morning shop is scheduled and the evening visit reported. *)
Example evening_visit_reported :
  stage_summary <$> schedule_stage [(0%nat, [early_shop; short_evening])] eight twenty
  = Some ([(0%nat, [("B", 480, 540)])], ["C"]).
Proof. vm_compute. reflexivity. Qed.

Lemma scheduling_stage_conserves_locations_witness :
  valid_hhmm eight ∧ valid_hhmm twenty
  ∧ Forall (λ c : nat * list Location, Forall well_formed c.2 ∧ all_measurable c.2)
      rescue_day
  ∧ ∃ grouped_clusters final_unvisitable,
      schedule_stage_exn rescue_day eight twenty
      = Returned (grouped_clusters, final_unvisitable).
Proof.
  assert (Forall (λ c : nat * list Location, Forall well_formed c.2 ∧ all_measurable c.2)
            rescue_day) as H3.
  { repeat constructor; try (vm_compute; (discriminate || reflexivity));
      apply grid_all_measurable; repeat constructor. }
  split; [exact eight_valid|]. split; [exact twenty_valid|]. split; [exact H3|].
  exact (proj2 (scheduling_stage_conserves_locations rescue_day eight twenty)
           eight_valid twenty_valid H3).
Defined.

(** With its exceptions the stage gives the outcome of the first embedding
    on that day. *)
Example rescue_day_raises_nothing :
  match schedule_stage_exn rescue_day eight twenty with
  | Returned r => Some (stage_summary r)
  | Raised _ => None
  end
  = Some ([(0%nat, [("P", 480, 600)]);
           (1%nat, [("R", 480, 600); ("Q", 600, 660)])], []).
Proof. vm_compute. reflexivity. Qed.


(** A single point of latitude 91 is scheduled and the request answered; with
    a second point the scheduler measures a distance, and the request
    fails. *)
Example polar_requests :
  cluster_data_exn []
    {| points := [polar_stop]; num_clusters := 1;
       daily_start_time := eight; daily_end_time := twenty |}
  ≠ Crashed
  ∧ cluster_data_exn []
      {| points := [base_stop; polar_stop]; num_clusters := 1;
         daily_start_time := eight; daily_end_time := twenty |}
    = Crashed.
Proof. split; [vm_compute; discriminate|vm_compute; reflexivity]. Qed.

(** Of the two points named "N" the two-hour one, given last, is scheduled,
    in the place of the first. *)
Example namesake_outcome :
  match cluster_data [] namesake_request with
  | Responded g u => Some (stage_summary (g, u))
  | _ => None
  end
  = Some ([(0%nat, [("N", 480, 600); ("M", 600, 660)])], []).
Proof. vm_compute. reflexivity. Qed.

Lemma grouping_succeeds_iff_labels_in_range_witness :
  NoDup (name <$> [stop_p; stop_r; stop_q])
  ∧ length [0; 1; 0]%nat = length [stop_p; stop_r; stop_q]
  ∧ (is_Some (group_by_labels (locations_of [stop_p; stop_r; stop_q]) [0; 1; 0]%nat 2)
     ↔ Forall (λ c, (c < 2)%nat) [0; 1; 0]%nat).
Proof.
  assert (NoDup (name <$> [stop_p; stop_r; stop_q])) as H1.
  { apply (bool_decide_unpack (NoDup (name <$> [stop_p; stop_r; stop_q]))).
    vm_compute. exact I. }
  assert (length [0; 1; 0]%nat = length [stop_p; stop_r; stop_q]) as H2 by reflexivity.
  split; [exact H1|]. split; [exact H2|].
  exact (grouping_succeeds_iff_labels_in_range [stop_p; stop_r; stop_q] [0; 1; 0]%nat 2
           H1 H2).
Defined.

Lemma search_returns_fewest_unvisitable_witness :
  (∀ i, (length (schedule (two_attempts i)) + length (unvisitable (two_attempts i))
         = 1)%nat)
  ∧ ∃ j, (j < passes_run two_attempts 0 2)%nat
         ∧ iterative_search two_attempts 2 = Some (two_attempts j)
         ∧ ∀ i, (i < passes_run two_attempts 0 2)%nat →
                (length (unvisitable (two_attempts j))
                 <= length (unvisitable (two_attempts i)))%nat.
Proof.
  assert (∀ i, (length (schedule (two_attempts i)) + length (unvisitable (two_attempts i))
                = 1)%nat) as H1.
  { intros [|i]; reflexivity. }
  split; [exact H1|].
  exact (search_returns_fewest_unvisitable two_attempts 1 1 H1).
Defined.

Lemma kmeans_returns_k_centroids_and_labels_witness :
  (0 < 2)%nat ∧ (2 <= length line_shuffled)%nat
  ∧ ∃ centroids labels,
      tensorflow_kmeans norm_on_line line_points line_shuffled 2 1 (3 # 10) (1 # 2)
      = Some (centroids, labels)
      ∧ length centroids = 2%nat
      ∧ length labels = length line_points
      ∧ Forall (λ c, (c < 2)%nat) labels.
Proof.
  assert (0 < 2)%nat as H1 by lia.
  assert (2 <= length line_shuffled)%nat as H2 by (simpl; lia).
  split; [exact H1|]. split; [exact H2|].
  exact (proj2 (proj2 (proj2
           (kmeans_returns_k_centroids_and_labels norm_on_line line_points
              line_shuffled 2 0 (3 # 10) (1 # 2)))) H1 H2).
Defined.

(** Four clusters asked of three points: nothing is returned. *)
Example kmeans_more_clusters_than_points :
  tensorflow_kmeans norm_on_line line_points line_shuffled 4 1 (3 # 10) (1 # 2) = None.
Proof. vm_compute. reflexivity. Qed.

(** One iteration on the line: 0 and 1 join the centroid at 0, which moves to
    their weighted mean 13/33; 10 keeps its own centroid. *)
Example kmeans_on_line :
  tensorflow_kmeans norm_on_line line_points line_shuffled 2 1 (3 # 10) (1 # 2)
  = Some ([[40 # 4]; [1040 # 2640]], [1; 1; 0]%nat).
Proof. vm_compute. reflexivity. Qed.

(** Three visits on day 2, two on day 0 and one on day 1, with at most one
    allowed: days 2 and 0 are overloaded, in the order they first occur. *)
Example check_cluster_balance_sample :
  check_cluster_balance [2; 0; 2; 1; 2; 0]%nat 1
  = ([(2, 3); (0, 2); (1, 1)]%nat, [2; 0]%nat).
Proof. vm_compute. reflexivity. Qed.

Lemma check_cluster_balance_counts_witness :
  (length [2; 0; 2; 1; 2; 0]%nat <= 6)%nat
  ∧ (check_cluster_balance [2; 0; 2; 1; 2; 0]%nat 6).2 = [].
Proof.
  assert (length [2; 0; 2; 1; 2; 0]%nat <= 6)%nat as H1 by (simpl; lia).
  split; [exact H1|].
  exact (proj2 (proj2 (proj2 (proj2 (proj2
           (check_cluster_balance_counts [2; 0; 2; 1; 2; 0]%nat 6))))) H1).
Defined.

Lemma cluster_counts_cover_labels_in_range_witness :
  Forall (λ l, (l < 3)%nat) [2; 0; 2; 1; 2; 0]%nat
  ∧ sum_list (cluster_counts [2; 0; 2; 1; 2; 0]%nat 3)
    = length [2; 0; 2; 1; 2; 0]%nat.
Proof.
  assert (Forall (λ l, (l < 3)%nat) [2; 0; 2; 1; 2; 0]%nat) as H1.
  { repeat constructor. }
  split; [exact H1|].
  exact (proj2 (proj2
           (cluster_counts_cover_labels_in_range [2; 0; 2; 1; 2; 0]%nat 3)) H1).
Defined.

Lemma balance_score_range_witness :
  (0 < 2)%nat ∧ (0 < 2)%nat
  ∧ Forall (λ n, n = 2%nat) (cluster_counts [0; 1; 1; 0]%nat 2)
  ∧ ∃ b, compute_cluster_balance_score [0; 1; 1; 0]%nat 2 = Some b ∧ (b == 0)%Q.
Proof.
  assert (0 < 2)%nat as H1 by lia.
  assert (Forall (λ n, n = 2%nat) (cluster_counts [0; 1; 1; 0]%nat 2)) as H2.
  { vm_compute. repeat constructor. }
  split; [exact H1|]. split; [exact H1|]. split; [exact H2|].
  exact (proj2 (proj2 (balance_score_range [0; 1; 1; 0]%nat 2)) 2%nat H1 H1 H2).
Defined.

Lemma penalty_weight_profile_witness :
  (0 <= 1 # 2)%Q ∧ (1 <= 2)%Q
  ∧ (penalty_weight (3 # 10) (1 # 2) 2 <= penalty_weight (3 # 10) (1 # 2) 1)%Q.
Proof.
  assert (0 <= 1 # 2)%Q as H1 by (vm_compute; discriminate).
  assert (1 <= 2)%Q as H2 by (vm_compute; discriminate).
  split; [exact H1|]. split; [exact H2|].
  exact (proj2 (proj2 (penalty_weight_profile (3 # 10) (1 # 2))) H1 1%Q 2%Q H2).
Defined.
